(** * Regions of a finite element domain

    A shallow embedding of [sfepy/fem/domain.py]: the leaf evaluator
    [region_leaf], the operator evaluator [region_op], the region factory
    [Domain.create_region], the pass [Domain.create_regions] and
    [Domain.save_regions_as_groups], with the properties of the
    selection language that the design document states about them.

    Python objects with identity (the [Region] instances) live in a store
    and are referred to by location, so that an alias and a duplicate are
    different things.  Exceptions are values of [exn]; a computation is a
    function from the world to a result and the world it leaves behind. *)

From Stdlib Require Import ZArith String Ascii List Lia Bool.
From stdpp Require Import base list strings gmap pretty.

Local Open Scope string_scope.
Local Open Scope Z_scope.

(** ** Exceptions and results *)

Inductive exn : Type :=
| ValueError (msg : string)
| KeyError (key : string)
| IndexError (what : string)
| TypeError (msg : string)
| NotImplementedError (msg : string)
| ParseException (text : string)
| SystemError (msg : string).

Inductive result (A : Type) : Type :=
| Ok (a : A)
| Raise (e : exn).

Arguments Ok {A} a.
Arguments Raise {A} e.

(** ** Python strings and integers *)

Module Py.

(** [s[i]] for a non-negative index. *)
Definition index (s : string) (i : nat) : result ascii :=
  match String.get i s with
  | Some c => Ok c
  | None => Raise (IndexError "string index out of range")
  end.

Fixpoint last_char (s : string) : option ascii :=
  match s with
  | EmptyString => None
  | String c EmptyString => Some c
  | String _ s' => last_char s'
  end.

(** [s[-1]]. *)
Definition last (s : string) : result ascii :=
  match last_char s with
  | Some c => Ok c
  | None => Raise (IndexError "string index out of range")
  end.

(** [s[n:]]. *)
Fixpoint from (n : nat) (s : string) : string :=
  match n, s with
  | O, _ => s
  | S n', String _ s' => from n' s'
  | S _, EmptyString => EmptyString
  end.

(** [s[:n]]. *)
Fixpoint upto (n : nat) (s : string) : string :=
  match n, s with
  | S n', String c s' => String c (upto n' s')
  | _, _ => EmptyString
  end.

(** [sep.join(l)]. *)
Definition join (sep : string) (l : list string) : string :=
  String.concat sep l.

Definition digit (c : ascii) : option Z :=
  let n := Z.of_nat (nat_of_ascii c) in
  if (48 <=? n) && (n <=? 57) then Some (n - 48) else None.

Fixpoint digits (acc : Z) (s : string) : option Z :=
  match s with
  | EmptyString => Some acc
  | String c s' =>
      match digit c with
      | Some d => digits (10 * acc + d) s'
      | None => None
      end
  end.

(** [int(s)] on the decimal numerals the grammar produces, with an
    optional sign; anything else is a [ValueError]. *)
Definition int (s : string) : result Z :=
  let bad := Raise (ValueError ("invalid literal for int(): " +:+ s)) in
  match s with
  | EmptyString => bad
  | String "-" (String c s' as ds) =>
      match digits 0 ds with Some n => Ok (- n) | None => bad end
  | String "+" (String c s' as ds) =>
      match digits 0 ds with Some n => Ok n | None => bad end
  | _ => match digits 0 s with Some n => Ok n | None => bad end
  end.

Definition dquote : string := String (ascii_of_nat 34) EmptyString.

(** [[f(x) for x in l]] where [f] may raise. *)
Fixpoint map_result {A B : Type} (f : A -> result B) (l : list A)
  : result (list B) :=
  match l with
  | [] => Ok []
  | x :: l' =>
      match f x with
      | Raise e => Raise e
      | Ok y =>
          match map_result f l' with
          | Raise e => Raise e
          | Ok ys => Ok (y :: ys)
          end
      end
  end.

End Py.

(** ** The numpy operations the module uses *)

Module Np.

(** Conversion to [dtype=uint32]: the value modulo [2^32]. *)
Definition to_uint32 (z : Z) : Z := z mod 4294967296.

Definition as_uint32 (l : list Z) : list Z := map to_uint32 l.

(** [arange(n, dtype=uint32)]. *)
Definition arange (n : Z) : list Z :=
  as_uint32 (map Z.of_nat (seq 0 (Z.to_nat n))).

Fixpoint insert_unique (x : Z) (l : list Z) : list Z :=
  match l with
  | [] => [x]
  | y :: l' =>
      if x <? y then x :: l
      else if x =? y then l
      else y :: insert_unique x l'
  end.

(** [unique(l)]: the sorted values of [l], each once. *)
Definition unique (l : list Z) : list Z :=
  fold_right insert_unique [] l.

Definition mem (x : Z) (l : list Z) : bool := existsb (Z.eqb x) l.

Definition setdiff1d (a b : list Z) : list Z :=
  unique (List.filter (fun x => negb (mem x b)) a).

Definition union1d (a b : list Z) : list Z := unique (a ++ b).

Definition intersect1d (a b : list Z) : list Z :=
  unique (List.filter (fun x => mem x b) a).

Fixpoint where_from (i : Z) (mask : list bool) : list Z :=
  match mask with
  | [] => []
  | b :: m => if b then i :: where_from (i + 1) m else where_from (i + 1) m
  end.

(** [where(mask)[0]]: the indices at which [mask] holds. *)
Definition where_ (mask : list bool) : list Z := where_from 0 mask.

(** [amin], [amax]: a [ValueError] on an empty array. *)
Definition amin (l : list Z) : result Z :=
  match l with
  | [] => Raise (ValueError "zero-size array to reduction operation")
  | x :: l' => Ok (fold_left Z.min l' x)
  end.

Definition amax (l : list Z) : result Z :=
  match l with
  | [] => Raise (ValueError "zero-size array to reduction operation")
  | x :: l' => Ok (fold_left Z.max l' x)
  end.

End Np.

(** ** Regions *)

(** Modelled from the spec: the kinds of a region; the class [Region] of
    [sfepy.fem.region] is not among the sources. *)
Inductive Kind : Type := cell | facet | face | edge | vertex.

(** Modelled from the spec: the derived shape counts of a region. *)
Record Shape : Type := mkShape {
  n_vertex : nat;
  n_edge : nat;
  n_face : nat;
  n_facet : nat;
  n_cell : nat }.

(** Modelled from the spec: the class [Region] of [sfepy.fem.region] is not
    among the sources.  The record holds the attributes that the design
    document lists and that [domain.py] reads and assigns: the entity
    fields are the index arrays that [region_leaf] assigns. *)
Record Region : Type := mkRegion {
  name : string;
  definition : string;
  parse_def : string;
  kind : Kind;
  parent : option string;
  vertices : list Z;
  edges : list Z;
  faces : list Z;
  facets : list Z;
  cells : list Z;
  shape : Shape }.

Definition set_name (s : string) (r : Region) : Region :=
  mkRegion s (definition r) (parse_def r) (kind r) (parent r) (vertices r)
    (edges r) (faces r) (facets r) (cells r) (shape r).

Definition set_definition (s : string) (r : Region) : Region :=
  mkRegion (name r) s (parse_def r) (kind r) (parent r) (vertices r)
    (edges r) (faces r) (facets r) (cells r) (shape r).

Definition set_parent (p : option string) (r : Region) : Region :=
  mkRegion (name r) (definition r) (parse_def r) (kind r) p (vertices r)
    (edges r) (faces r) (facets r) (cells r) (shape r).

Definition set_vertices (v : list Z) (r : Region) : Region :=
  mkRegion (name r) (definition r) (parse_def r) (kind r) (parent r) v
    (edges r) (faces r) (facets r) (cells r) (shape r).

Definition set_edges (v : list Z) (r : Region) : Region :=
  mkRegion (name r) (definition r) (parse_def r) (kind r) (parent r)
    (vertices r) v (faces r) (facets r) (cells r) (shape r).

Definition set_faces (v : list Z) (r : Region) : Region :=
  mkRegion (name r) (definition r) (parse_def r) (kind r) (parent r)
    (vertices r) (edges r) v (facets r) (cells r) (shape r).

Definition set_facets (v : list Z) (r : Region) : Region :=
  mkRegion (name r) (definition r) (parse_def r) (kind r) (parent r)
    (vertices r) (edges r) (faces r) v (cells r) (shape r).

Definition set_cells (v : list Z) (r : Region) : Region :=
  mkRegion (name r) (definition r) (parse_def r) (kind r) (parent r)
    (vertices r) (edges r) (faces r) (facets r) v (shape r).

(** Modelled from the spec: [Region.__init__] is not among the sources.  A
    region is created with its name, its definition text and its
    [parse_def]; the kind is the default of the factory, there is no parent
    and no entity field is populated. *)
Definition Region_new (nm defn pdef : string) : Region :=
  mkRegion nm defn pdef cell None [] [] [] [] [] (mkShape 0 0 0 0 0).

(** Modelled from the spec: [Region.set_kind] is not among the sources; it
    records which entity kind is authoritative. *)
Definition set_kind (k : Kind) (r : Region) : Region :=
  mkRegion (name r) (definition r) (parse_def r) k (parent r) (vertices r)
    (edges r) (faces r) (facets r) (cells r) (shape r).

(** Modelled from the spec: [Region.update_shape] is not among the sources;
    the derived shape counts are recomputed from the entity fields. *)
Definition update_shape (r : Region) : Region :=
  mkRegion (name r) (definition r) (parse_def r) (kind r) (parent r)
    (vertices r) (edges r) (faces r) (facets r) (cells r)
    (mkShape (length (vertices r)) (length (edges r)) (length (faces r))
       (length (facets r)) (length (cells r))).

(** The entity field of a kind. *)
Definition entities (k : Kind) (r : Region) : list Z :=
  match k with
  | vertex => vertices r
  | edge => edges r
  | face => faces r
  | facet => facets r
  | cell => cells r
  end.

Definition set_entities (k : Kind) (v : list Z) (r : Region) : Region :=
  match k with
  | vertex => set_vertices v r
  | edge => set_edges v r
  | face => set_faces v r
  | facet => set_facets v r
  | cell => set_cells v r
  end.

(** ** Tokens, mesh, domain *)

(** An entry of the parser's stack: [{'token' : ..., 'orig' : [...]}]. *)
Record Op : Type := mkOp {
  token : string;
  orig : list string }.

(** A [Region] instance is referred to by its location in the store. *)
Definition loc : Type := nat.

(** The mesh as [domain.py] consults it.  The coordinate arrays are floating
    point and the vertex predicates are Python expressions over them:
    [coors_where] holds, for this mesh, what
    [eval(where, {}, {'x' : x, 'y' : y, 'z' : z})] yields, one truth value
    per vertex. *)
Record Mesh : Type := mkMesh {
  n_nod : Z;
  dim : Z;
  coors_where : string -> result (list bool);
  ngroups : list Z;
  mat_ids : list (list Z);
  nodal_bcs : gmap string (list Z);
  el_offsets : list Z }.

(** [domain.cmesh], as far as regions need it. *)
Record CMesh : Type := mkCMesh {
  surface_facets : list Z }.

(** [domain.groups[ig]]: the shape of a group holds its cell count. *)
Record Group : Type := mkGroup {
  ig : Z;
  n_el : Z }.

Record Domain : Type := mkDomain {
  mesh : Mesh;
  cmesh : CMesh;
  shape_n_nod : Z;
  groups : gmap Z Group;
  mat_ids_to_i_gs : gmap Z Z;
  regions : list loc;
  _region_stack : list Op;
  _bnf : string -> option (list Op) }.

Definition set_regions (rs : list loc) (d : Domain) : Domain :=
  mkDomain (mesh d) (cmesh d) (shape_n_nod d) (groups d) (mat_ids_to_i_gs d)
    rs (_region_stack d) (_bnf d).

Definition set_region_stack (st : list Op) (d : Domain) : Domain :=
  mkDomain (mesh d) (cmesh d) (shape_n_nod d) (groups d) (mat_ids_to_i_gs d)
    (regions d) st (_bnf d).


(** The world: the store of [Region] instances, the domain object and what
    [output] and [print] have written. *)
Record World : Type := mkWorld {
  store : list Region;
  dom : Domain;
  console : list string }.

Definition set_store (s : list Region) (w : World) : World :=
  mkWorld s (dom w) (console w).

Definition set_dom (d : Domain) (w : World) : World :=
  mkWorld (store w) d (console w).

(** ** Computations *)

Definition M (A : Type) : Type := World -> result A * World.

Definition ret {A : Type} (a : A) : M A := fun w => (Ok a, w).

Definition raise {A : Type} (e : exn) : M A := fun w => (Raise e, w).

Definition bind {A B : Type} (m : M A) (k : A -> M B) : M B :=
  fun w =>
    match m w with
    | (Ok a, w') => k a w'
    | (Raise e, w') => (Raise e, w')
    end.

Notation "'let*' x ':=' m 'in' k" := (bind m (fun x => k))
  (at level 10, x name, m at level 100, k at level 200).

Definition lift {A : Type} (r : result A) : M A := fun w => (r, w).

Definition get_dom : M Domain := fun w => (Ok (dom w), w).

Definition modify_dom (f : Domain -> Domain) : M unit :=
  fun w => (Ok tt, set_dom (f (dom w)) w).

(** [output(msg)] and [print msg]. *)
Definition output (msg : string) : M unit :=
  fun w => (Ok tt, mkWorld (store w) (dom w) (console w ++ [msg])).

(** A new instance: the next free location. *)
Definition alloc (r : Region) : M loc :=
  fun w => (Ok (length (store w)), set_store (store w ++ [r]) w).

(** Reading an instance.  Python has no dangling reference; a location
    outside the store is an interpreter error. *)
Definition deref (l : loc) : M Region :=
  fun w =>
    match store w !! l with
    | Some r => (Ok r, w)
    | None => (Raise (SystemError "dangling reference"), w)
    end.

(** Assigning attributes of the instance at [l]. *)
Definition update (l : loc) (f : Region -> Region) : M unit :=
  fun w =>
    match store w !! l with
    | Some r => (Ok tt, set_store (<[l := f r]> (store w)) w)
    | None => (Raise (SystemError "dangling reference"), w)
    end.

(** ** Python lists *)

Module PyList.

(** [l[i]] for a non-negative index. *)
Definition item {A : Type} (l : list A) (i : nat) : result A :=
  match l !! i with
  | Some x => Ok x
  | None => Raise (IndexError "list index out of range")
  end.

(** [l[i]] for an integer index: a negative index counts from the end. *)
Definition item_Z {A : Type} (l : list A) (i : Z) : result A :=
  let n := Z.of_nat (length l) in
  if (0 <=? i) && (i <? n) then item l (Z.to_nat i)
  else if (- n <=? i) && (i <? 0) then item l (Z.to_nat (n + i))
  else Raise (IndexError "index out of bounds").

(** [l.remove(x)]: the first occurrence is removed. *)
Fixpoint remove (x : string) (l : list string) : result (list string) :=
  match l with
  | [] => Raise (ValueError "list.remove(x): x not in list")
  | y :: l' =>
      if String.eqb x y then Ok l'
      else match remove x l' with
           | Ok l'' => Ok (y :: l'')
           | Raise e => Raise e
           end
  end.

End PyList.

(** [eval(where)] on a bracketed list of integer literals, as
    [vertices in [i0, i1, ...]] gives it; any other text is reported as a
    syntax error of the expression. *)
Module PyEval.

Fixpoint split_on (sep : ascii) (cur : string) (s : string) : list string :=
  match s with
  | EmptyString => [cur]
  | String c s' =>
      if Ascii.eqb c sep then cur :: split_on sep EmptyString s'
      else split_on sep (cur +:+ String c EmptyString) s'
  end.

Fixpoint lstrip (s : string) : string :=
  match s with
  | String c s' => if Ascii.eqb c " "%char then lstrip s' else s
  | EmptyString => EmptyString
  end.

Fixpoint rstrip (s : string) : string :=
  match s with
  | EmptyString => EmptyString
  | String c s' =>
      match rstrip s' with
      | EmptyString => if Ascii.eqb c " "%char then EmptyString
                       else String c EmptyString
      | t => String c t
      end
  end.

Definition strip (s : string) : string := rstrip (lstrip s).

Definition syntax_error (s : string) : exn :=
  ValueError ("invalid syntax: " +:+ s).

Definition int_list (s : string) : result (list Z) :=
  match strip s with
  | String "[" body =>
      match Py.last_char body with
      | Some "]"%char =>
          let inner := strip (Py.upto (String.length body - 1) body) in
          match inner with
          | EmptyString => Ok []
          | _ =>
              match Py.map_result (fun t => Py.int (strip t))
                      (split_on ","%char EmptyString inner) with
              | Ok l => Ok l
              | Raise _ => Raise (syntax_error s)
              end
          end
      | _ => Raise (syntax_error s)
      end
  | _ => Raise (syntax_error s)
  end.

End PyEval.

(** Modelled from the spec: [assert_] of [sfepy.base.base] is not among the
    sources; a failed validation is an error, not a silent clamp. *)
Definition assert_ (cond : bool) : M unit :=
  if cond then ret tt else raise (ValueError "assertion failed!").

(** ** The region collection *)

Module OneTypeList.

(** Modelled from the spec: [OneTypeList] of [sfepy.base.base] is not among
    the sources.  The collection is a list of instances, queried by name:
    the first instance of the name is found. *)
Fixpoint find_in (s : list Region) (rs : list loc) (nm : string)
  : result (option loc) :=
  match rs with
  | [] => Ok None
  | l :: rs' =>
      match s !! l with
      | None => Raise (SystemError "dangling reference")
      | Some r =>
          if String.eqb (name r) nm then Ok (Some l) else find_in s rs' nm
      end
  end.

(** Modelled from the spec: [OneTypeList.find] yields nothing for an
    unknown name. *)
Definition find (rs : list loc) (nm : string) : M (option loc) :=
  fun w => (find_in (store w) rs nm, w).

(** Modelled from the spec: [OneTypeList.__getitem__] with a name raises
    for an unknown name. *)
Definition getitem (rs : list loc) (nm : string) : M loc :=
  let* r := find rs nm in
  match r with
  | Some l => ret l
  | None => raise (IndexError nm)
  end.

(** Modelled from the spec: the names of the instances of the collection,
    in its order. *)
Fixpoint names_in (s : list Region) (rs : list loc) : result (list string) :=
  match rs with
  | [] => Ok []
  | l :: rs' =>
      match s !! l with
      | None => Raise (SystemError "dangling reference")
      | Some r =>
          match names_in s rs' with
          | Ok ns => Ok (name r :: ns)
          | Raise e => Raise e
          end
      end
  end.

(** [[region.name for region in regions]]. *)
Definition get_names (rs : list loc) : M (list string) :=
  fun w => (names_in (store w) rs, w).

End OneTypeList.

(** ** Methods of [Region] that the evaluators call *)

(** Modelled from the spec: [Region.copy] is not among the sources; the copy
    is a structural duplicate, a new instance with the same attributes. *)
Definition Region_copy (l : loc) : M loc :=
  let* r := deref l in alloc r.

(** Modelled from the spec: the set operation that [Region.eval_op_*]
    applies for an operator character. *)
Definition op_to_fun (op : ascii) : result (list Z -> list Z -> list Z) :=
  if Ascii.eqb op "+" then Ok Np.union1d
  else if Ascii.eqb op "-" then Ok Np.setdiff1d
  else if Ascii.eqb op "*" then Ok Np.intersect1d
  else Raise (KeyError (String op EmptyString)).

(** Modelled from the spec: the target-kind code of an entity kind. *)
Definition kind_code (k : Kind) : string :=
  match k with
  | vertex => "v" | edge => "e" | face => "f" | facet => "s" | cell => "c"
  end.

(** Modelled from the spec: [Region.eval_op_vertices], [eval_op_edges],
    [eval_op_faces], [eval_op_facets] and [eval_op_cells] are not among the
    sources.  Each returns a new region whose kind and only populated entity
    field are those of the target kind; the field holds the difference
    (left minus right), the union or the intersection of the operands'
    fields of that kind.  The entity fields are the global index arrays that
    [region_leaf] assigns; name and definition of the result are not fixed
    by the design and are overwritten by [create_region]. *)
Definition eval_op (k : Kind) (item1 item2 : loc) (op : ascii) : M loc :=
  let* r1 := deref item1 in
  let* r2 := deref item2 in
  let* f := lift (op_to_fun op) in
  let pdef := parse_def r1 +:+ " " +:+ String op (kind_code k) +:+ " "
              +:+ parse_def r2 in
  alloc (set_entities k (f (entities k r1) (entities k r2))
           (set_kind k (Region_new "op" (definition r1) pdef))).

Definition eval_op_vertices := eval_op vertex.
Definition eval_op_edges := eval_op edge.
Definition eval_op_faces := eval_op face.
Definition eval_op_facets := eval_op facet.
Definition eval_op_cells := eval_op cell.

(** ** [region_op] *)

Definition region_op (level : nat) (op_code : Op) (item1 item2 : loc) : M loc :=
  let token := token op_code in
  let* c3 := lift (Py.index token 3) in
  let* op := (if Ascii.eqb c3 "S" then ret "-"%char
         else if Ascii.eqb c3 "A" then ret "+"%char
         else if Ascii.eqb c3 "I" then ret "*"%char
         else raise (KeyError (String c3 EmptyString))) in
  let* sfx := lift (Py.last token) in
  if Ascii.eqb sfx "V" then eval_op_vertices item1 item2 op
  else if Ascii.eqb sfx "E" then eval_op_edges item1 item2 op
  else if Ascii.eqb sfx "F" then eval_op_faces item1 item2 op
  else if Ascii.eqb sfx "S" then eval_op_facets item1 item2 op
  else if Ascii.eqb sfx "C" then eval_op_cells item1 item2 op
  else raise (ValueError ("unknown region operator token! (" +:+ token +:+ ")")).

(** ** [region_leaf] *)

(** Which coordinate array a user function receives: the mesh vertices
    ([domain.get_mesh_coors()]) or the centroids of the entities of a
    dimension ([domain.get_centroids(dim)]). *)
Inductive Coors : Type :=
| MeshCoors
| Centroids (dim : Z).

(** A user function: [fun(coors, domain=domain)]. *)
Definition UserFun : Type := Coors -> Domain -> result (list Z).

(** [functions[key]]; [functions] defaults to [None]. *)
Definition functions_item (functions : option (gmap string UserFun))
    (key : string) : result UserFun :=
  match functions with
  | None => Raise (TypeError "'NoneType' object has no attribute '__getitem__'")
  | Some fs =>
      match fs !! key with
      | Some f => Ok f
      | None => Raise (KeyError key)
      end
  end.

Definition dict_item_Z {A : Type} (m : gmap Z A) (key : Z) (what : string)
  : result A :=
  match m !! key with
  | Some x => Ok x
  | None => Raise (KeyError what)
  end.

(** The body of the [E_CI2] loop:
    [ig, iel = int(details[1+2*ii]), int(details[2+2*ii])] and
    [iel + domain.mesh.el_offsets[ig]]. *)
Definition ci2_cell (domain : Domain) (details : list string) (ii : nat)
  : result Z :=
  match PyList.item details (1 + 2 * ii)%nat with
  | Raise e => Raise e
  | Ok a =>
      match Py.int a with
      | Raise e => Raise e
      | Ok ig_ =>
          match PyList.item details (2 + 2 * ii)%nat with
          | Raise e => Raise e
          | Ok b =>
              match Py.int b with
              | Raise e => Raise e
              | Ok iel =>
                  match PyList.item_Z (el_offsets (mesh domain)) ig_ with
                  | Raise e => Raise e
                  | Ok off => Ok (iel + off)
                  end
              end
          end
      end
  end.

(** [_region_leaf(level, op)] of [region_leaf(domain, regions, rdef,
    functions)].  The domain is the one of the world.  The instance that a
    leaf builds is local until it is returned: the model fills in the record
    and allocates it on return. *)
Definition region_leaf (regions : list loc) (rdef : string)
    (functions : option (gmap string UserFun)) (level : nat) (op : Op)
  : M loc :=
  let token := token op in
  let details := orig op in
  let* domain := get_dom in
  let parse_def := token +:+ "<" +:+ Py.join " " details +:+ ">" in
  let region := Region_new "leaf" rdef parse_def in
  if String.eqb token "KW_Region" then
    let* d1 := lift (PyList.item details 1) in
    let details := Py.from 2 d1 in
    let* aux := OneTypeList.find regions details in
    match aux with
    | None => raise (ValueError ("region " +:+ details +:+ " does not exist"))
    | Some aux =>
        if String.eqb (Py.upto 4 rdef) "copy" then Region_copy aux
        else ret aux
    end
  else if String.eqb token "KW_All" then
    alloc (set_vertices (Np.arange (n_nod (mesh domain))) region)
  else if String.eqb token "E_VIR" then
    let* where_ := lift (PyList.item details 2) in
    let* w0 := lift (Py.index where_ 0) in
    let* vertices :=
      (if Ascii.eqb w0 "[" then
         let* l := lift (PyEval.int_list where_) in
         let vertices := Np.as_uint32 l in
         let* lo := lift (Np.amin vertices) in
         let* _ := assert_ (0 <=? lo) in
         let* hi := lift (Np.amax vertices) in
         let* _ := assert_ (hi <? n_nod (mesh domain)) in
         ret vertices
       else
         let* mask := lift (coors_where (mesh domain) where_) in
         ret (Np.where_ mask)) in
    alloc (set_vertices vertices region)
  else if String.eqb token "E_VOS" then
    let facets := surface_facets (cmesh domain) in
    alloc (set_facets facets (set_kind facet region))
  else if String.eqb token "E_VBF" then
    let* where_ := lift (PyList.item details 2) in
    let* f := lift (functions_item functions where_) in
    let* vertices := lift (f MeshCoors domain) in
    alloc (set_vertices vertices region)
  else if String.eqb token "E_CBF" then
    let* where_ := lift (PyList.item details 2) in
    let* f := lift (functions_item functions where_) in
    let* cells := lift (f (Centroids (dim (mesh domain))) domain) in
    alloc (set_cells cells region)
  else if String.eqb token "E_COG" then
    let* d3 := lift (PyList.item details 3) in
    let* group := lift (Py.int d3) in
    let* ig_ := lift (dict_item_Z (mat_ids_to_i_gs domain) group d3) in
    let* group := lift (dict_item_Z (groups domain) ig_ d3) in
    let* off := lift (PyList.item_Z (el_offsets (mesh domain)) ig_) in
    alloc (set_cells (map (Z.add off) (Np.arange (n_el group))) region)
  else if String.eqb token "E_COSET" then
    raise (NotImplementedError "element sets not implemented!")
  else if String.eqb token "E_VOG" then
    let* d3 := lift (PyList.item details 3) in
    let* group := lift (Py.int d3) in
    let vertices := Np.where_ (map (Z.eqb group) (ngroups (mesh domain))) in
    alloc (set_vertices vertices region)
  else if String.eqb token "E_VOSET" then
    let* d3 := lift (PyList.item details 3) in
    match nodal_bcs (mesh domain) !! d3 with
    | Some vertices => alloc (set_vertices vertices region)
    | None => raise (ValueError ("undefined vertex set! (" +:+ d3 +:+ ")"))
    end
  else if String.eqb token "E_OVIR" then
    let* d3 := lift (PyList.item details 3) in
    let* aux := OneTypeList.getitem regions (Py.from 2 d3) in
    let* auxr := deref aux in
    alloc (set_vertices (firstn 1 (vertices auxr)) region)
  else if String.eqb token "E_VI" then
    let* l := lift (Py.map_result Py.int (skipn 1 details)) in
    alloc (set_vertices (Np.as_uint32 l) region)
  else if String.eqb token "E_CI1" then
    let* l := lift (Py.map_result Py.int (skipn 1 details)) in
    alloc (set_cells (Np.as_uint32 l) region)
  else if String.eqb token "E_CI2" then
    let num := (length (skipn 1 details) / 2)%nat in
    let* cells := lift (Py.map_result (ci2_cell domain details) (seq 0 num)) in
    alloc (set_cells cells region)
  else
    let* _ := output ("token " +:+ Py.dquote +:+ token +:+ Py.dquote
                      +:+ " unkown - check regions!") in
    raise (NotImplementedError "").

(** ** The parser *)

Module ParseRegions.

(** Modelled from the spec: part of the parser ([create_bnf]). *)
Fixpoint pad_parens (s : string) : string :=
  match s with
  | EmptyString => EmptyString
  | String c s' =>
      if Ascii.eqb c "(" || Ascii.eqb c ")"
      then String " " (String c (String " " (pad_parens s')))
      else String c (pad_parens s')
  end.

(** Modelled from the spec: part of the parser ([create_bnf]). *)
Definition nonempty (s : string) : bool :=
  match s with EmptyString => false | _ => true end.

(** Modelled from the spec: part of the parser ([create_bnf]). *)
Definition words (s : string) : list string :=
  List.filter nonempty
    (PyEval.split_on " "%char EmptyString (pad_parens s)).

(** Modelled from the spec: part of the parser ([create_bnf]). *)
Definition is_inumber (w : string) : bool :=
  match w with
  | EmptyString => false
  | _ => match Py.digits 0 w with Some _ => true | None => false end
  end.

(** Modelled from the spec: part of the parser ([create_bnf]). *)
Definition is_region_ref (w : string) : bool :=
  String.eqb (Py.upto 2 w) "r." && nonempty (Py.from 2 w).

(** Modelled from the spec: part of the parser ([create_bnf]). *)
Definition regop (w : string) : option string :=
  match w with
  | String c (String k EmptyString) =>
      match
        (if Ascii.eqb c "-" then Some "Sub"
         else if Ascii.eqb c "+" then Some "Add"
         else if Ascii.eqb c "*" then Some "Intersect" else None),
        (if Ascii.eqb k "v" then Some "V"
         else if Ascii.eqb k "e" then Some "E"
         else if Ascii.eqb k "f" then Some "F"
         else if Ascii.eqb k "s" then Some "S"
         else if Ascii.eqb k "c" then Some "C" else None)
      with
      | Some a, Some b => Some ("OA_" +:+ a +:+ b)
      | _, _ => None
      end
  | _ => None
  end.

(** Modelled from the spec: part of the parser ([create_bnf]).
    The integer words at the head of [ws]. *)
Fixpoint inumbers (ws : list string) : list string * list string :=
  match ws with
  | w :: ws' =>
      if is_inumber w then
        let (ns, rest) := inumbers ws' in (w :: ns, rest)
      else ([], ws)
  | [] => ([], [])
  end.

(** Modelled from the spec: part of the parser ([create_bnf]).
    A bracketed list, up to the word that closes it. *)
Fixpoint bracketed (ws : list string) : option (list string * list string) :=
  match ws with
  | [] => None
  | w :: ws' =>
      match Py.last_char w with
      | Some "]"%char => Some ([w], ws')
      | _ =>
          match bracketed ws' with
          | Some (l, rest) => Some (w :: l, rest)
          | None => None
          end
      end
  end.

(** Modelled from the spec: part of the parser ([create_bnf]).
    A parenthesised expression, up to the matching parenthesis; [depth]
    counts the open ones. *)
Fixpoint balanced (depth : nat) (ws : list string)
  : option (list string * list string) :=
  match ws with
  | [] => None
  | w :: ws' =>
      if String.eqb w ")" then
        match depth with
        | O => None
        | S O => Some ([w], ws')
        | S d =>
            match balanced d ws' with
            | Some (l, rest) => Some (w :: l, rest)
            | None => None
            end
        end
      else
        match balanced (if String.eqb w "(" then S depth else depth) ws' with
        | Some (l, rest) => Some (w :: l, rest)
        | None => None
        end
  end.

(** Modelled from the spec: part of the parser ([create_bnf]).
    The expression after [vertices in]. *)
Definition where_expr (ws : list string) : option (string * list string) :=
  match ws with
  | [] => None
  | w :: ws' =>
      if String.eqb (Py.upto 1 w) "[" then
        match bracketed ws with
        | Some (l, rest) => Some (Py.join " " l, rest)
        | None => None
        end
      else if String.eqb w "(" then
        match balanced 0 ws with
        | Some (l, rest) => Some (Py.join " " l, rest)
        | None => None
        end
      else Some (w, ws')
  end.

(** Modelled from the spec: part of the parser ([create_bnf]).
    [ws] with the keywords [kw] taken off its head. *)
Fixpoint keywords (kw : list string) (ws : list string)
  : option (list string) :=
  match kw, ws with
  | [], _ => Some ws
  | k :: kw', w :: ws' =>
      if String.eqb k w then keywords kw' ws' else None
  | _ :: _, [] => None
  end.

(** Modelled from the spec: part of the parser ([create_bnf]). *)
Definition leaf (ws : list string) : option (Op * list string) :=
  if keywords ["all"] ws is Some rest then
    Some (mkOp "KW_All" [], rest)
  else if keywords ["copy"] ws is Some rest then
    match rest with
    | w :: rest' =>
        if is_region_ref w then Some (mkOp "KW_Region" ["copy"; w], rest')
        else None
    | [] => None
    end
  else if keywords ["vertices"; "in"] ws is Some rest then
    match where_expr rest with
    | Some (e, rest') => Some (mkOp "E_VIR" ["vertices"; "in"; e], rest')
    | None => None
    end
  else if keywords ["vertices"; "of"; "surface"] ws is Some rest then
    Some (mkOp "E_VOS" ["vertices"; "of"; "surface"], rest)
  else if keywords ["vertices"; "of"; "group"] ws is Some rest then
    match rest with
    | n :: rest' =>
        if is_inumber n
        then Some (mkOp "E_VOG" ["vertices"; "of"; "group"; n], rest')
        else None
    | [] => None
    end
  else if keywords ["vertices"; "of"; "set"] ws is Some rest then
    match rest with
    | s :: rest' => Some (mkOp "E_VOSET" ["vertices"; "of"; "set"; s], rest')
    | [] => None
    end
  else if keywords ["vertices"; "by"] ws is Some rest then
    match rest with
    | f :: rest' => Some (mkOp "E_VBF" ["vertices"; "by"; f], rest')
    | [] => None
    end
  else if keywords ["cells"; "by"] ws is Some rest then
    match rest with
    | f :: rest' => Some (mkOp "E_CBF" ["cells"; "by"; f], rest')
    | [] => None
    end
  else if (if keywords ["cells"; "of"; "group"] ws is Some rest then Some rest
           else keywords ["elements"; "of"; "group"] ws) is Some rest then
    match rest with
    | n :: rest' =>
        if is_inumber n
        then Some (mkOp "E_COG" ["cells"; "of"; "group"; n], rest')
        else None
    | [] => None
    end
  else if keywords ["cells"; "of"; "set"] ws is Some rest then
    match rest with
    | s :: rest' => Some (mkOp "E_COSET" ["cells"; "of"; "set"; s], rest')
    | [] => None
    end
  else if keywords ["vertex"; "in"] ws is Some rest then
    match rest with
    | w :: rest' =>
        if is_region_ref w
        then Some (mkOp "E_OVIR" ["vertex"; "in"; "nocopy"; w], rest')
        else None
    | [] => None
    end
  else if keywords ["vertex"] ws is Some rest then
    match inumbers rest with
    | ([], _) => None
    | (ns, rest') => Some (mkOp "E_VI" ("vertex" :: ns), rest')
    end
  else if (if keywords ["cell"] ws is Some rest then Some rest
           else keywords ["element"] ws) is Some rest then
    match inumbers rest with
    | ([], _) => None
    | (ns, rest') => Some (mkOp "E_CI1" ("cell" :: ns), rest')
    end
  else
    match ws with
    | w :: rest =>
        if is_region_ref w then Some (mkOp "KW_Region" ["nocopy"; w], rest)
        else None
    | [] => None
    end.

(** Modelled from the spec: part of the parser ([create_bnf]).
    [expr := atom (regop atom)*], [atom := leaf | ( expr )]; the tokens
    come out in postfix order. *)
Fixpoint expr (fuel : nat) (ws : list string)
  : option (list Op * list string) :=
  match fuel with
  | O => None
  | S fuel' =>
      let atom (ws : list string) :=
        if keywords ["("] ws is Some ws' then
          match expr fuel' ws' with
          | Some (toks, rest) =>
              if keywords [")"] rest is Some rest' then Some (toks, rest')
              else None
          | None => None
          end
        else
          match leaf ws with
          | Some (op, rest) => Some ([op], rest)
          | None => None
          end in
      let fix tail (n : nat) (acc : list Op) (ws : list string) :=
        match n with
        | O => None
        | S n' =>
            match ws with
            | w :: ws' =>
                match regop w with
                | Some t =>
                    match atom ws' with
                    | Some (toks, rest) =>
                        tail n' (acc ++ toks ++ [mkOp t []])%list rest
                    | None => None
                    end
                | None => Some (acc, ws)
                end
            | [] => Some (acc, ws)
            end
        end in
      match atom ws with
      | Some (toks, rest) => tail fuel' toks rest
      | None => None
      end
  end.

(** Modelled from the spec: part of the parser ([create_bnf]). *)
Definition parseString (select : string) : option (list Op) :=
  let ws := words select in
  match expr (S (length ws)) ws with
  | Some (toks, []) => Some toks
  | _ => None
  end.

End ParseRegions.

(** Modelled from the spec: [create_bnf] of [sfepy.fem.parse_regions] is not
    among the sources.  The parser turns a selection text into the postfix
    sequence of its tokens, or fails.  The model covers the surface of the
    language that the design document lists, with the operators spelled
    with their target-kind code: a token is [OA_] followed by [Sub], [Add]
    or [Intersect] and by the kind letter, which are the characters
    [region_op] reads; a leaf token carries the words of the leaf the way
    [region_leaf] indexes them. *)
Definition create_bnf : string -> option (list Op) := ParseRegions.parseString.

(** Modelled from the spec: [visit_stack] of [sfepy.fem.parse_regions] is
    not among the sources.  Operator tokens are told from leaf tokens by
    their prefix. *)
Definition is_operator (op : Op) : bool :=
  String.eqb (Py.upto 3 (token op)) "OA_".

(** Modelled from the spec: the malformed-expression error of
    [visit_stack]. *)
Definition malformed : exn := ValueError "malformed expression".

(** Modelled from the spec: the loop of [visit_stack].  The postfix tokens
    are replayed against an explicit operand stack, the most recent operand
    first.  A token is taken off the parser's stack when
    it is replayed.  [level] is the height of the operand stack; neither
    visitor of [domain.py] reads it. *)
Fixpoint replay (op_visitor : nat -> Op -> loc -> loc -> M loc)
    (leaf_visitor : nat -> Op -> M loc) (toks : list Op) (operands : list loc)
  : M loc :=
  match toks with
  | [] =>
      match operands with
      | [r] => ret r
      | _ => raise malformed
      end
  | op :: toks' =>
      let* _ := modify_dom (set_region_stack toks') in
      if is_operator op then
        match operands with
        | item2 :: item1 :: rest =>
            let* r := op_visitor (length rest) op item1 item2 in
            replay op_visitor leaf_visitor toks' (r :: rest)
        | _ => raise malformed
        end
      else
        let* r := leaf_visitor (length operands) op in
        replay op_visitor leaf_visitor toks' (r :: operands)
  end.

(** Modelled from the spec: [visit_stack(stack, op_visitor, leaf_visitor)];
    [stack] is the parser's stack of the domain.  On a leaf token the leaf
    is evaluated and pushed; on an operator token two operands are popped,
    combined as [item1 <op> item2] with [item1] the deeper one, and the
    result is pushed; at the end exactly one item must remain. *)
Definition visit_stack (op_visitor : nat -> Op -> loc -> loc -> M loc)
    (leaf_visitor : nat -> Op -> M loc) : M loc :=
  let* d := get_dom in
  replay op_visitor leaf_visitor (_region_stack d) [].

(** ** Names referenced by a selection text *)

Module Parents.

(** Modelled from the spec: part of [get_parents]. *)
Inductive state : Type :=
| Idle
| SeenR
| SeenDot
| InName (acc : string).

(** Modelled from the spec: part of [get_parents]. *)
Definition is_name_char (c : ascii) : bool :=
  negb (Ascii.eqb c " " || Ascii.eqb c "(" || Ascii.eqb c ")").

(** Modelled from the spec: part of [get_parents]. *)
Definition start (c : ascii) : state :=
  if Ascii.eqb c "r" then SeenR else Idle.

(** Modelled from the spec: part of [get_parents]. *)
Fixpoint scan (st : state) (s : string) : list string :=
  match s with
  | EmptyString =>
      match st with
      | InName acc => [acc]
      | _ => []
      end
  | String c s' =>
      match st with
      | InName acc =>
          if is_name_char c then scan (InName (acc +:+ String c EmptyString)) s'
          else acc :: scan (start c) s'
      | SeenR =>
          if Ascii.eqb c "." then scan SeenDot s' else scan (start c) s'
      | SeenDot =>
          if is_name_char c then scan (InName (String c EmptyString)) s'
          else scan (start c) s'
      | Idle => scan (start c) s'
      end
  end.

End Parents.

(** Modelled from the spec: [get_parents] of [sfepy.fem.region] is not among
    the sources.  The raw definition text is scanned for the reference
    pattern [r.<name>]; a name runs up to the next blank or parenthesis. *)
Definition get_parents (selector : string) : list string :=
  Parents.scan Parents.Idle selector.

(** ** [Domain.reset_regions] and [Domain.create_region] *)


(** [for p in parents: if p not in [region.name for region in self.regions]:
    raise ValueError(...)]. *)
Fixpoint check_parents_loop (name_ : string) (parents : list string) : M unit :=
  match parents with
  | [] => ret tt
  | p :: ps =>
      let* d := get_dom in
      let* names := OneTypeList.get_names (regions d) in
      if existsb (String.eqb p) names then check_parents_loop name_ ps
      else raise (ValueError ("parent region " +:+ p +:+ " of " +:+ name_
                              +:+ " not found!"))
  end.

(** [self._bnf.parseString(select)]: the tokens are pushed on the parser's
    stack of the domain; a failed parse pushes nothing and raises. *)
Definition parseString (select : string) : M unit :=
  let* d := get_dom in
  match _bnf d select with
  | Some toks =>
      modify_dom (set_region_stack (_region_stack d ++ toks))
  | None => raise (ParseException select)
  end.

Definition try_parse (select : string) : M unit :=
  fun w =>
    match parseString select w with
    | (Raise (ParseException t), w') =>
        (let* _ := output ("parsing failed: " +:+ select) in
         raise (ParseException t)) w'
    | other => other
    end.

Definition create_region (name_ select : string) (kind_ : Kind)
    (parent_ : option string) (check_parents : bool)
    (functions : option (gmap string UserFun)) (add_to_regions : bool)
  : M loc :=
  let* _ := (if check_parents
             then check_parents_loop name_ (get_parents select)
             else ret tt) in
  let* _ := try_parse select in
  let* d := get_dom in
  let* region := visit_stack region_op
                   (region_leaf (regions d) select functions) in
  let* _ := update region (set_name name_) in
  let* _ := update region (set_definition select) in
  let* _ := update region (set_kind kind_) in
  let* _ := update region (set_parent parent_) in
  let* _ := update region update_shape in
  let* _ := (if add_to_regions
             then modify_dom (fun d => set_regions (regions d ++ [region]) d)
             else ret tt) in
  ret region.

(** ** The dependency resolver and [Domain.create_regions] *)

(** A region definition: [rdef.name], [rdef.select], [rdef.get('kind')],
    [rdef.get('parent')]. *)
Module RDef.
Record t : Type := mk {
  name : string;
  select : string;
  kind : option Kind;
  parent : option string }.
End RDef.

Definition mem_string (x : string) (l : list string) : bool :=
  existsb (String.eqb x) l.








Definition dict_item_string {A : Type} (m : gmap string A) (key : string)
  : result A :=
  match m !! key with
  | Some x => Ok x
  | None => Raise (KeyError key)
  end.




(** ** [Domain.save_regions_as_groups] *)

(** [a[idx] = v] for an index array: every index must be inside the array,
    a negative one counting from the end. *)
Fixpoint fancy_assign (a : list Z) (idx : list Z) (v : Z) : result (list Z) :=
  match idx with
  | [] => Ok a
  | i :: idx' =>
      let n := Z.of_nat (length a) in
      if (0 <=? i) && (i <? n) then
        fancy_assign (<[Z.to_nat i := v]> a) idx' v
      else if (- n <=? i) && (i <? 0) then
        fancy_assign (<[Z.to_nat (n + i) := v]> a) idx' v
      else Raise (IndexError "index out of bounds")
  end.

(** Modelled from the spec: [Region.get_cells] is not among the sources.
    The cells of the region that lie in the group [ig], in the local
    numbering of the group: the global index minus the cell offset of the
    group. *)
Definition get_cells (d : Domain) (r : Region) (ig_ : Z) : list Z :=
  match PyList.item_Z (el_offsets (mesh d)) ig_, groups d !! ig_ with
  | Ok off, Some g =>
      map (fun c => c - off)
        (List.filter (fun c => (off <=? c) && (c <? off + n_el g)) (cells r))
  | _, _ => []
  end.

(** Modelled from the spec: the attribute [Region.igs] is not among the
    sources: the group ids the region has nonempty content in, among the
    groups [0 .. n_gr - 1] of the domain. *)
Definition igs (d : Domain) (r : Region) : list Z :=
  List.filter (fun g => negb (length (get_cells d r g) =? 0)%nat)
    (map Z.of_nat (seq 0 (size (groups d)))).

(** Modelled from the spec: [Region.has_cells] is not among the sources. *)
Definition has_cells (r : Region) : bool :=
  negb (length (cells r) =? 0)%nat.

(** "The whole domain region should go first": the first region of [names]
    that has as many vertices as the mesh is moved to the front. *)
Fixpoint whole_domain_first (names : list string) (todo : list string)
  : M (list string) :=
  match todo with
  | [] => ret names
  | name_ :: rest =>
      let* d := get_dom in
      let* l := OneTypeList.getitem (regions d) name_ in
      let* region := deref l in
      if Z.of_nat (length (vertices region)) =? shape_n_nod d then
        let* names' := lift (PyList.remove (name region) names) in
        ret (name region :: names')
      else whole_domain_first names rest
  end.

(** What the second loop has computed so far: the copy [aux] of the mesh
    with its node and material group ids, the counters and the masks. *)
Record Saved : Type := mkSaved {
  aux_ngroups : list Z;
  aux_mat_ids : list (list Z);
  n_ig : Z;
  c_ig : Z;
  out : gmap string (list Z) }.

(** [for ig in region.igs: ii = region.get_cells(ig);
    aux.mat_ids[ig][ii] = c_ig; c_ig += 1]. *)
Fixpoint mark_cells (d : Domain) (r : Region) (gs : list Z) (s : Saved)
  : result Saved :=
  match gs with
  | [] => Ok s
  | g :: gs' =>
      match PyList.item_Z (aux_mat_ids s) g with
      | Raise e => Raise e
      | Ok ids =>
          match fancy_assign ids (get_cells d r g) (c_ig s) with
          | Raise e => Raise e
          | Ok ids' =>
              let i := Z.to_nat (if g <? 0 then Z.of_nat (length (aux_mat_ids s)) + g
                                 else g) in
              mark_cells d r gs'
                (mkSaved (aux_ngroups s) (<[i := ids']> (aux_mat_ids s))
                   (n_ig s) (c_ig s + 1) (out s))
          end
      end
  end.

(** The body of the second loop for one region. *)
Definition mark_region (n_nod_ : Z) (name_ : string) (s : Saved) : M Saved :=
  let* d := get_dom in
  let* l := OneTypeList.getitem (regions d) name_ in
  let* region := deref l in
  let* _ := output (name region) in
  let* ng := lift (fancy_assign (aux_ngroups s) (vertices region) (n_ig s)) in
  let* mask := lift (fancy_assign (repeat 0 (Z.to_nat n_nod_))
                       (vertices region) 1) in
  let s' := mkSaved ng (aux_mat_ids s) (n_ig s + 1) (c_ig s)
              (<[name_ := mask]> (out s)) in
  if has_cells region then lift (mark_cells d region (igs d region) s')
  else ret s'.

Fixpoint mark_regions (n_nod_ : Z) (names : list string) (s : Saved)
  : M Saved :=
  match names with
  | [] => ret s
  | name_ :: rest =>
      let* s' := mark_region n_nod_ name_ s in
      mark_regions n_nod_ rest s'
  end.

(** [save_regions_as_groups(filename, region_names)]: the result is what is
    handed to [aux.write]. *)
Definition save_regions_as_groups (region_names : option (list string))
  : M Saved :=
  let* _ := output "saving regions as groups..." in
  let* d := get_dom in
  let aux := mesh d in
  let n_nod_ := shape_n_nod d in
  let* names := match region_names with
                | Some l => ret l
                | None => OneTypeList.get_names (regions d)
                end in
  let* names := whole_domain_first names names in
  let* s := mark_regions n_nod_ names
              (mkSaved (ngroups aux) (mat_ids aux) 0 0 ∅) in
  let* _ := output "...done" in
  ret s.

(** ** A small domain for the concrete scenarios

    A mesh with four vertices and one group of one cell; no coordinate
    expression is known to it. *)

Definition mesh4 : Mesh :=
  mkMesh 4 2 (fun e => Raise (ValueError ("cannot evaluate: " +:+ e)))
    [0; 0; 0; 0] [[0]] ∅ [0].

Definition domain4 : Domain :=
  mkDomain mesh4 (mkCMesh [0; 1; 2; 3]) 4 (<[0 := mkGroup 0 1]> ∅)
    (<[0 := 0]> ∅) [] [] create_bnf.

Definition world4 : World := mkWorld [] domain4 [].

(** The world after [f] has run. *)
Definition after {A : Type} (m : M A) (w : World) : World := snd (m w).

(** The regions of scenario B, [R1 = vertex 0 1 2] and [R2 = vertex 2 3],
    created one after the other on the small domain. *)
Definition scenario_B : M loc :=
  let* _ := create_region "R1" "vertex 0 1 2" vertex None true None true in
  create_region "R2" "vertex 2 3" vertex None true None true.

(** The two instances that [scenario_B] leaves in the store, and the world
    it leaves behind. *)
Definition region_B1 : Region :=
  Eval vm_compute in
    default (Region_new "" "" "") (store (after scenario_B world4) !! 0%nat).

Definition region_B2 : Region :=
  Eval vm_compute in
    default (Region_new "" "" "") (store (after scenario_B world4) !! 1%nat).

Definition world_B : World :=
  mkWorld [region_B1; region_B2] (set_regions [0; 1]%nat domain4) [].

(** The vertices of the region that a computation returns. *)
Definition result_vertices (out : result loc * World) : result (list Z) :=
  match out with
  | (Ok l, w) =>
      match store w !! l with
      | Some r => Ok (vertices r)
      | None => Raise (SystemError "dangling reference")
      end
  | (Raise e, _) => Raise e
  end.

(** ** Vocabulary of the statements *)

(** The combinator that the fourth character of an operator token codes and
    the entity kind that its last character codes. *)
Inductive Combinator : Type := subtract | add | intersect.

Definition combinator_of (c : ascii) : option Combinator :=
  if Ascii.eqb c "S" then Some subtract
  else if Ascii.eqb c "A" then Some add
  else if Ascii.eqb c "I" then Some intersect
  else None.

Definition target_kind (c : ascii) : option Kind :=
  if Ascii.eqb c "V" then Some vertex
  else if Ascii.eqb c "E" then Some edge
  else if Ascii.eqb c "F" then Some face
  else if Ascii.eqb c "S" then Some facet
  else if Ascii.eqb c "C" then Some cell
  else None.

(** Membership in the difference, the union and the intersection. *)
Definition combined (c : Combinator) (a b : list Z) (x : Z) : Prop :=
  match c with
  | subtract => In x a /\ ~ In x b
  | add => In x a \/ In x b
  | intersect => In x a /\ In x b
  end.

(** The operator character that [region_op] hands to the region. *)
Definition op_char (c : Combinator) : ascii :=
  match c with
  | subtract => "-"%char
  | add => "+"%char
  | intersect => "*"%char
  end.

Definition op_fun (c : Combinator) : list Z -> list Z -> list Z :=
  match c with
  | subtract => Np.setdiff1d
  | add => Np.union1d
  | intersect => Np.intersect1d
  end.

(** Strictly increasing arrays. *)
Fixpoint increasing (l : list Z) : Prop :=
  match l with
  | [] => True
  | x :: l' => (forall y, In y l' -> x < y) /\ increasing l'
  end.

(** Scenario B at the level of the evaluator: two vertex regions in the
    store, [R1 = {0, 1, 2}] and [R2 = {2, 3}]. *)
Definition region_R1 : Region :=
  set_vertices [0; 1; 2] (set_kind vertex (Region_new "R1" "vertex 0 1 2" "")).

Definition region_R2 : Region :=
  set_vertices [2; 3] (set_kind vertex (Region_new "R2" "vertex 2 3" "")).

Definition world_R12 : World :=
  mkWorld [region_R1; region_R2] (set_regions [0; 1]%nat domain4) [].

(** A region of the name [p] is registered in the collection of the
    domain. *)
Definition registered (w : World) (p : string) : Prop :=
  exists l r, In l (regions (dom w)) /\ store w !! l = Some r /\ name r = p.

(** Every registered location holds an instance. *)
Definition materialized (w : World) : Prop :=
  Forall (fun l => is_Some (store w !! l)) (regions (dom w)).

Definition parent_not_found (p name_ : string) : exn :=
  ValueError ("parent region " +:+ p +:+ " of " +:+ name_ +:+ " not found!").

(** The entity sets of two regions are the same. *)
Definition same_entities (r r' : Region) : Prop :=
  vertices r' = vertices r /\ edges r' = edges r /\ faces r' = faces r
  /\ facets r' = facets r /\ cells r' = cells r.









(** The state in which the second loop of [save_regions_as_groups] starts:
    the copy of the mesh and both counters at zero. *)
Definition saved0 (d : Domain) : Saved :=
  mkSaved (ngroups (mesh d)) (mat_ids (mesh d)) 0 0 ∅.

(** The names that [save_regions_as_groups] saves. *)
Definition saved_names (region_names : option (list string)) (w : World)
  : result (list string) :=
  match region_names with
  | Some l => Ok l
  | None => OneTypeList.names_in (store w) (regions (dom w))
  end.


(** The whole-domain region [Omega = all], created next to the regions of
    scenario B, the world with the three regions, and what a save of all
    its regions hands to the writer. *)
Definition region_Omega : Region :=
  Eval vm_compute in
    default (Region_new "" "" "")
      (store (after (create_region "Omega" "all" cell None true None true)
                world_B) !! 2%nat).

Definition world_Omega : World :=
  mkWorld [region_B1; region_B2; region_Omega]
    (set_regions [0; 1; 2]%nat domain4) [].


(** ** Two runs

    The instance at [l1] of one store and the instance at [l2] of another
    have the same attributes. *)
Definition agree (s1 s2 : list Region) (l1 l2 : loc) : Prop :=
  exists r, s1 !! l1 = Some r /\ s2 !! l2 = Some r.

(** Two worlds with the same domain settings (mesh, groups, parser and its
    stack) and the same materialized regions: the region collections list
    instances with the same attributes, in the same order.  The stores may
    lay the instances out differently and hold other instances, and the
    consoles may differ. *)
Definition same_setting (w1 w2 : World) : Prop :=
  set_regions [] (dom w1) = set_regions [] (dom w2).

Definition same_regions (w1 w2 : World) : Prop :=
  Forall2 (agree (store w1) (store w2)) (regions (dom w1)) (regions (dom w2)).

(** A user function does not look at the locations of the instances. *)
Definition layout_independent (fns : option (gmap string UserFun)) : Prop :=
  forall fs key f,
    fns = Some fs -> fs !! key = Some f ->
    forall c d rs, f c (set_regions rs d) = f c d.

(** The outcomes of two runs are the same: the same error, or instances
    with the same attributes. *)
Definition same_outcome (o1 : result loc * World) (o2 : result loc * World)
  : Prop :=
  match o1, o2 with
  | (Ok l1, w1), (Ok l2, w2) => agree (store w1) (store w2) l1 l2
  | (Raise e1, _), (Raise e2, _) => e1 = e2
  | _, _ => False
  end.

(** The world of scenario B with another layout of the store: an instance
    that no collection lists lies before the two regions. *)
Definition world_B' : World :=
  mkWorld (Region_new "scratch" "" "" :: store world_B)
    (set_regions [1; 2]%nat (dom world_B)) ["an earlier message"].

(** ** Vocabulary of the further properties *)

(** The leaf tokens that [region_leaf] knows, in the order of its tests. *)
Definition leaf_tokens : list string :=
  ["KW_Region"; "KW_All"; "E_VIR"; "E_VOS"; "E_VBF"; "E_CBF"; "E_COG";
   "E_COSET"; "E_VOG"; "E_VOSET"; "E_OVIR"; "E_VI"; "E_CI1"; "E_CI2"].

(** The instance that a leaf other than a named reference starts from. *)
Definition leaf_region (rdef : string) (op : Op) : Region :=
  Region_new "leaf" rdef
    (token op +:+ "<" +:+ Py.join " " (orig op) +:+ ">").

(** The error of an operator token with an unknown target-kind letter. *)
Definition unknown_operator (tok : string) : exn :=
  ValueError ("unknown region operator token! (" +:+ tok +:+ ")").

(** The console line for a token that [region_leaf] does not know. *)
Definition unknown_token_line (tok : string) : string :=
  "token " +:+ Py.dquote +:+ tok +:+ Py.dquote +:+ " unkown - check regions!".

(** The world in which a new instance stands at the next free location. *)
Definition with_new (r : Region) (w : World) : World :=
  set_store (store w ++ [r])%list w.

(** What one pair [ig iel] of the leaf [cell ig iel ig iel ...] stands for:
    the cell [iel] of the group [ig] in the global numbering. *)
Definition pair_cell (d : Domain) (p : string * string) : result Z :=
  match Py.int (fst p) with
  | Raise e => Raise e
  | Ok ig_ =>
      match Py.int (snd p) with
      | Raise e => Raise e
      | Ok iel =>
          match PyList.item_Z (el_offsets (mesh d)) ig_ with
          | Raise e => Raise e
          | Ok off => Ok (iel + off)
          end
      end
  end.

(** The words of a list of pairs, in order. *)
Definition pair_words (pairs : list (string * string)) : list string :=
  flat_map (fun p => [fst p; snd p]) pairs.

(** The parts of the domain that come from the mesh. *)
Definition same_mesh_data (d d' : Domain) : Prop :=
  mesh d' = mesh d /\ cmesh d' = cmesh d /\ shape_n_nod d' = shape_n_nod d
  /\ groups d' = groups d /\ mat_ids_to_i_gs d' = mat_ids_to_i_gs d.

(** The shape counts of a region are those of its entity fields. *)
Definition shape_updated (r : Region) : Prop :=
  shape r = mkShape (length (vertices r)) (length (edges r))
              (length (faces r)) (length (facets r)) (length (cells r)).

(** [domain.regions.find(n)]. *)
Definition lookup_name (w : World) (n : string) : result (option loc) :=
  OneTypeList.find_in (store w) (regions (dom w)) n.

(** The entry [k] of an array of length [n] is named by an index of [idx]:
    by [k] itself or by the negative index that counts from the end. *)
Definition touched (n : nat) (idx : list Z) (k : nat) : Prop :=
  In (Z.of_nat k) idx \/ In (Z.of_nat k - Z.of_nat n) idx.

(** The region that the collection of the domain holds under a name. *)
Definition region_named (w : World) (n : string) (r : Region) : Prop :=
  exists l, lookup_name w n = Ok (Some l) /\ store w !! l = Some r.

(** ** The groups of the domain

    [Domain.setup_groups], [Domain.iter_groups], [Domain.get_cell_offsets],
    [Domain.has_faces] and the loop of [Domain.__init__] that fills
    [mat_ids_to_i_gs] work on the connectivity of the mesh, which the
    evaluation of regions does not read.  They are modelled on records of
    their own that hold the attributes these methods read and assign. *)

(** A geometry element, as [domain.py] reads it: [gel.name], [gel.dim],
    [gel.n_edge], [gel.n_face]. *)
Module Gel.
Record t : Type := mk {
  name : string;
  dim : Z;
  n_edge : Z;
  n_face : Z }.
End Gel.

(** A connectivity array [conn] of shape [(n_el, n_ep)]: one row of vertex
    indices for each element. *)
Module Conn.
Record t : Type := mk {
  rows : list (list Z);
  n_ep : Z }.

(** [conn.shape[0]]. *)
Definition n_el (conn : t) : Z := Z.of_nat (length (rows conn)).

(** [nm.unique(conn)]: the sorted vertices of the flattened array. *)
Definition unique (conn : t) : list Z := Np.unique (concat (rows conn)).
End Conn.

(** [group.shape]. *)
Module GroupShape.
Record t : Type := mk {
  n_vertex : Z;
  n_el : Z;
  n_ep : Z;
  n_edge : Z;
  n_edge_total : Z;
  n_face : Z;
  n_face_total : Z;
  dim : Z }.
End GroupShape.

(** [domain.groups[ig]], as [setup_groups] builds it. *)
Module ElGroup.
Record t : Type := mk {
  ig : Z;
  vertices : list Z;
  conn : Conn.t;
  gel : Gel.t;
  shape : GroupShape.t }.
End ElGroup.

(** [domain.shape]. *)
Module DomainShape.
Record t : Type := mk {
  n_gr : Z;
  n_el : Z;
  n_nod : Z;
  dim : Z }.
End DomainShape.

(** The attributes of the mesh that the groups are built from:
    [mesh.coors.shape], [mesh.conns], [mesh.descs], [mesh.dims]. *)
Module GMesh.
Record t : Type := mk {
  coors_shape : Z * Z;
  conns : list Conn.t;
  descs : list string;
  dims : list Z }.
End GMesh.

(** The domain, as far as its groups go: [self.mesh], [self.geom_els],
    [self.shape], [self.groups]. *)
Module GDomain.
Record t : Type := mk {
  mesh : GMesh.t;
  geom_els : gmap string Gel.t;
  shape : DomainShape.t;
  groups : gmap Z ElGroup.t }.

Definition set_shape (s : DomainShape.t) (d : t) : t :=
  mk (mesh d) (geom_els d) s (groups d).

Definition set_groups (g : gmap Z ElGroup.t) (d : t) : t :=
  mk (mesh d) (geom_els d) (shape d) g.
End GDomain.

(** The body of the loop of [setup_groups] for the group [ii]. *)
Definition setup_group (ii : nat) (d : GDomain.t) : result GDomain.t :=
  match PyList.item (GMesh.descs (GDomain.mesh d)) ii with
  | Raise e => Raise e
  | Ok desc =>
      match dict_item_string (GDomain.geom_els d) desc with
      | Raise e => Raise e
      | Ok gel =>
          match PyList.item (GMesh.conns (GDomain.mesh d)) ii with
          | Raise e => Raise e
          | Ok conn =>
              let vertices := Conn.unique conn in
              let n_vertex := Z.of_nat (length vertices) in
              let n_el := Conn.n_el conn in
              let n_ep := Conn.n_ep conn in
              let n_edge := Gel.n_edge gel in
              let n_edge_total := n_edge * n_el in
              let '(n_face, n_face_total) :=
                if Gel.dim gel =? 3 then (Gel.n_face gel, Gel.n_face gel * n_el)
                else (0, 0) in
              match PyList.item (GMesh.dims (GDomain.mesh d)) ii with
              | Raise e => Raise e
              | Ok dim_ =>
                  let shape :=
                    GroupShape.mk n_vertex n_el n_ep n_edge n_edge_total
                      n_face n_face_total dim_ in
                  let group :=
                    ElGroup.mk (Z.of_nat ii) vertices conn gel shape in
                  let s := GDomain.shape d in
                  Ok (GDomain.set_shape
                        (DomainShape.mk (DomainShape.n_gr s)
                           (DomainShape.n_el s + n_el) (DomainShape.n_nod s)
                           (DomainShape.dim s))
                        (GDomain.set_groups
                           (<[Z.of_nat ii := group]> (GDomain.groups d)) d))
              end
          end
      end
  end.

(** [for ii in range(self.shape.n_gr)]: an error leaves the domain with the
    groups made so far. *)
Fixpoint setup_groups_loop (iis : list nat) (d : GDomain.t)
  : result unit * GDomain.t :=
  match iis with
  | [] => (Ok tt, d)
  | ii :: rest =>
      match setup_group ii d with
      | Ok d' => setup_groups_loop rest d'
      | Raise e => (Raise e, d)
      end
  end.

(** [Domain.setup_groups]. *)
Definition setup_groups (d : GDomain.t) : result unit * GDomain.t :=
  let '(n_nod_, dim_) := GMesh.coors_shape (GDomain.mesh d) in
  let n_gr_ := length (GMesh.conns (GDomain.mesh d)) in
  setup_groups_loop (seq 0 n_gr_)
    (GDomain.set_groups ∅
       (GDomain.set_shape (DomainShape.mk (Z.of_nat n_gr_) 0 n_nod_ dim_) d)).

(** [self.groups[ig]]. *)
Definition groups_item (d : GDomain.t) (ig_ : Z) : result ElGroup.t :=
  dict_item_Z (GDomain.groups d) ig_ (pretty ig_).

(** [Domain.iter_groups()]: the generator, run to its end, which is how
    [get_cell_offsets] and [has_faces] consume it. *)
Definition iter_groups (d : GDomain.t) : result (list ElGroup.t) :=
  Py.map_result (groups_item d)
    (map Z.of_nat (seq 0 (Z.to_nat (DomainShape.n_gr (GDomain.shape d))))).

(** [Domain.iter_groups(igs)], run to its end. *)
Definition iter_groups_of (d : GDomain.t) (igs_ : list Z)
  : result (list (Z * ElGroup.t)) :=
  Py.map_result
    (fun ig_ => match groups_item d ig_ with
                | Ok g => Ok (ig_, g)
                | Raise e => Raise e
                end) igs_.

(** The loop of [get_cell_offsets]. *)
Fixpoint cell_offsets_loop (gs : list ElGroup.t) (off : Z) (offs : gmap Z Z)
  : gmap Z Z :=
  match gs with
  | [] => offs
  | group :: rest =>
      cell_offsets_loop rest (off + GroupShape.n_el (ElGroup.shape group))
        (<[ElGroup.ig group := off]> offs)
  end.

(** [Domain.get_cell_offsets]. *)
Definition get_cell_offsets (d : GDomain.t) : result (gmap Z Z) :=
  match iter_groups d with
  | Ok gs => Ok (cell_offsets_loop gs 0 ∅)
  | Raise e => Raise e
  end.

(** [sum(l)]. *)
Definition Py_sum (l : list Z) : Z := fold_left Z.add l 0.

(** [Domain.has_faces]. *)
Definition has_faces (d : GDomain.t) : result bool :=
  match iter_groups d with
  | Ok gs =>
      Ok (0 <? Py_sum (map (fun group => GroupShape.n_face (ElGroup.shape group))
                         gs))
  | Raise e => Raise e
  end.

(** [for ig, mat_id in enumerate(mesh.mat_ids):
    self.mat_ids_to_i_gs[mat_id[0]] = ig] *)
Fixpoint mat_ids_loop (ig_ : Z) (mat_ids_ : list (list Z)) (m : gmap Z Z)
  : result (gmap Z Z) :=
  match mat_ids_ with
  | [] => Ok m
  | mat_id :: rest =>
      match PyList.item_Z mat_id 0 with
      | Raise e => Raise e
      | Ok id0 => mat_ids_loop (ig_ + 1) rest (<[id0 := ig_]> m)
      end
  end.

(** The table [mat_ids_to_i_gs] that [Domain.__init__] builds. *)
Definition init_mat_ids_to_i_gs (m : Mesh) : result (gmap Z Z) :=
  mat_ids_loop 0 (mat_ids m) ∅.

(** The number of cells of the groups before the group [ii]. *)
Definition cells_before (conns_ : list Conn.t) (ii : nat) : Z :=
  Py_sum (map Conn.n_el (firstn ii conns_)).

(** The material id of a group: the first entry of its array. *)
Definition group_mat_id (mat_ids_ : list (list Z)) (i : nat) : option Z :=
  match mat_ids_ !! i with
  | Some mat_id => head mat_id
  | None => None
  end.

(** The group [g] is the group that [setup_groups] builds for the
    connectivity array [ii] of the mesh. *)
Definition group_of (d : GDomain.t) (ii : nat) (g : ElGroup.t) : Prop :=
  ElGroup.ig g = Z.of_nat ii
  /\ GMesh.conns (GDomain.mesh d) !! ii = Some (ElGroup.conn g)
  /\ (exists desc, GMesh.descs (GDomain.mesh d) !! ii = Some desc
                   /\ GDomain.geom_els d !! desc = Some (ElGroup.gel g))
  /\ ElGroup.vertices g = Conn.unique (ElGroup.conn g)
  /\ GroupShape.n_el (ElGroup.shape g) = Conn.n_el (ElGroup.conn g)
  /\ GroupShape.n_face (ElGroup.shape g)
     = (if Gel.dim (ElGroup.gel g) =? 3 then Gel.n_face (ElGroup.gel g)
        else 0)
  /\ GMesh.dims (GDomain.mesh d) !! ii
     = Some (GroupShape.dim (ElGroup.shape g)).

(** The geometry element of the connectivity array [i] of the mesh. *)
Definition gel_of (d : GDomain.t) (i : nat) : option Gel.t :=
  match GMesh.descs (GDomain.mesh d) !! i with
  | Some desc => GDomain.geom_els d !! desc
  | None => None
  end.

(** ** Surface groups

    [FESurface] of [sfepy.fem.fe_surface] and [gel.get_surface_entities]
    are outside [domain.py]: the constructor and the method are parameters
    of the model.  A region enters by its name, its attribute [igs] and the
    reference to its instance. *)

Section SurfaceGroups.

Variable Surface : Type.
Variable Entities : Type.
Variable get_surface_entities : Gel.t -> Entities.
Variable FESurface :
  string -> loc -> Entities -> Conn.t -> Z -> result Surface.

(** [Domain.clear_surface_groups]. *)
Definition clear_surface_groups : gmap Z (gmap string Surface) := ∅.

(** [Domain.create_surface_group(region)]: the loop over [region.igs].  An
    error leaves the surface groups made so far. *)
Fixpoint create_surface_group (d : GDomain.t) (region : loc)
    (region_name : string) (region_igs : list Z)
    (surface_groups : gmap Z (gmap string Surface))
  : result unit * gmap Z (gmap string Surface) :=
  match region_igs with
  | [] => (Ok tt, surface_groups)
  | ig_ :: rest =>
      let groups_ := default ∅ (surface_groups !! ig_) in
      let surface_groups := <[ig_ := groups_]> surface_groups in
      match groups_ !! region_name with
      | Some _ =>
          create_surface_group d region region_name rest surface_groups
      | None =>
          match groups_item d ig_ with
          | Raise e => (Raise e, surface_groups)
          | Ok group =>
              let gel_faces := get_surface_entities (ElGroup.gel group) in
              let name_ := "surface_group_" +:+ region_name +:+ "_"
                           +:+ pretty ig_ in
              match FESurface name_ region gel_faces (ElGroup.conn group) ig_
              with
              | Raise e => (Raise e, surface_groups)
              | Ok surface_group =>
                  create_surface_group d region region_name rest
                    (<[ig_ := <[region_name := surface_group]> groups_]>
                       surface_groups)
              end
          end
      end
  end.

(** The surface group of a region name in an element group. *)
Definition surface_group_of (surface_groups : gmap Z (gmap string Surface))
    (ig_ : Z) (region_name : string) : option Surface :=
  match surface_groups !! ig_ with
  | Some groups_ => groups_ !! region_name
  | None => None
  end.

End SurfaceGroups.

(** ** [Domain.refine]

    The refinement functions of [sfepy.fem.refine] and the construction of
    the new domain are outside the model: they are parameters. *)

Section Refine.

Variable CMeshT : Type.
Variable DomainT : Type.
Variable refine_2_3 refine_2_4 refine_3_4 refine_3_8 :
  GMesh.t -> CMeshT -> result GMesh.t.
Variable Domain_new : string -> GMesh.t -> result DomainT.



End Refine.

(** ** [Domain.fix_element_orientation]

    [orient_elements] of [extmods.cmesh] is outside [domain.py]: it is a
    parameter of the model.  It is given the geometry element of the group
    (for [ori]), the connectivity array and the flags, and changes the
    array and the flags in place; the coordinates are those of the mesh.
    The body of the loop over the groups is modelled for one group; what a
    group leaves behind is its connectivity array, as changed, and the
    lines written to the console. *)

Module Orientation.

(** What stops the orientation of a group: the [RuntimeError] of
    [fix_element_orientation] or an error of an expression it
    evaluates. *)
Inductive failure : Type :=
| RuntimeError (msg : string)
| Error (e : exn).

Record outcome : Type := mk {
  raised : option failure;
  conn : Conn.t;
  console : list string }.

End Orientation.

Section FixOrientation.

Variable orient_elements : Gel.t -> Conn.t -> list Z -> list Z * Conn.t.

(** [-nm.ones(conn.shape[0], dtype=nm.int32)]. *)
Definition minus_ones (conn : Conn.t) : list Z :=
  repeat (-1) (length (Conn.rows conn)).

(** [nm.alltrue(flag == 0)]. *)
Definition all_zero (flag : list Z) : bool := forallb (Z.eqb 0) flag.

(** [while itry < 2]: [tries] is the number of passes that are left,
    [2 - itry].  The result is the value of [itry] after the loop, the
    flags and the array of the last call, and the console. *)
Fixpoint orient_tries (tries : nat) (itry : Z) (gel : Gel.t) (conn : Conn.t)
    (flag : list Z) (console : list string)
  : Z * list Z * Conn.t * list string :=
  match tries with
  | O => (itry, flag, conn, console)
  | S tries' =>
      let '(flag, conn) := orient_elements gel conn (minus_ones conn) in
      if all_zero flag then
        (-1, flag, conn,
         if 0 <? itry then (console ++ ["...corrected"])%list else console)
      else
        orient_tries tries' (itry + 1) gel conn flag
          (console
           ++ ["warning: bad element orientation, trying to correct..."])%list
  end.

(** The body of the loop of [fix_element_orientation] for the group
    [group] of the key [ii]. *)
Definition fix_group_orientation (d : GDomain.t) (ii : Z)
    (group : ElGroup.t) (console : list string) : Orientation.outcome :=
  if GroupShape.dim (ElGroup.shape group) <? DomainShape.dim (GDomain.shape d)
  then Orientation.mk None (ElGroup.conn group) console
  else
    let '(itry, flag, conn, console) :=
      orient_tries 2 0 (ElGroup.gel group) (ElGroup.conn group) [] console in
    let not_checked :=
      match PyList.item_Z flag 0 with
      | Raise e => Orientation.mk (Some (Orientation.Error e)) conn console
      | Ok f0 =>
          if f0 =? -1 then
            Orientation.mk None conn
              (console ++ ["warning: element orienation not checked"])%list
          else Orientation.mk None conn console
      end in
    if itry =? 2 then
      match PyList.item_Z flag 0 with
      | Raise e => Orientation.mk (Some (Orientation.Error e)) conn console
      | Ok f0 =>
          if negb (f0 =? -1) then
            match PyList.item_Z (GMesh.descs (GDomain.mesh d)) ii with
            | Raise e =>
                Orientation.mk (Some (Orientation.Error e)) conn console
            | Ok desc =>
                Orientation.mk
                  (Some (Orientation.RuntimeError
                           ("elements cannot be oriented! (" +:+ pretty ii
                            +:+ ", " +:+ desc +:+ ")")))
                  conn console
            end
          else not_checked
      end
    else not_checked.

End FixOrientation.

(** * Properties *)

(** ** Sets as sorted arrays *)

Module NpFacts.

Import Np.

Lemma insert_unique_In (x y : Z) (l : list Z) :
  In y (insert_unique x l) <-> y = x \/ In y l.
Proof.
  induction l as [|z l IH]; simpl.
  - intuition.
  - destruct (Z.ltb_spec x z); [simpl; intuition|].
    destruct (Z.eqb_spec x z); simpl.
    + subst. intuition.
    + rewrite IH. intuition.
Qed.

Lemma unique_In (y : Z) (l : list Z) : In y (unique l) <-> In y l.
Proof.
  induction l as [|x l IH]; simpl; [tauto|].
  rewrite insert_unique_In, IH. intuition.
Qed.

Lemma insert_unique_increasing (x : Z) (l : list Z) :
  increasing l -> increasing (insert_unique x l).
Proof.
  induction l as [|z l IH]; simpl; intros H.
  - split; [intros y []|exact I].
  - destruct H as [Hz Hl].
    destruct (Z.ltb_spec x z).
    + simpl. split; [|split; assumption].
      intros y [->|Hy]; [assumption|]. specialize (Hz y Hy). lia.
    + destruct (Z.eqb_spec x z); simpl; [split; assumption|].
      split; [|apply IH; assumption].
      intros y Hy. apply insert_unique_In in Hy as [->|Hy]; [lia|auto].
Qed.

Lemma unique_increasing (l : list Z) : increasing (unique l).
Proof.
  induction l as [|x l IH]; simpl; [exact I|].
  apply insert_unique_increasing, IH.
Qed.

Lemma increasing_NoDup (l : list Z) : increasing l -> List.NoDup l.
Proof.
  induction l as [|x l IH]; simpl; intros H; constructor.
  - intros Hx. destruct H as [H _]. specialize (H x Hx). lia.
  - apply IH, H.
Qed.

Lemma mem_In (x : Z) (l : list Z) : mem x l = true <-> In x l.
Proof.
  unfold mem. rewrite existsb_exists. split.
  - intros [y [Hy Heq]]. apply Z.eqb_eq in Heq. subst. assumption.
  - intros H. exists x. split; [assumption|apply Z.eqb_refl].
Qed.

Lemma setdiff1d_In (a b : list Z) (x : Z) :
  In x (setdiff1d a b) <-> In x a /\ ~ In x b.
Proof.
  unfold setdiff1d. rewrite unique_In, filter_In, negb_true_iff.
  rewrite <- mem_In with (l := b).
  destruct (mem x b); intuition congruence.
Qed.

Lemma union1d_In (a b : list Z) (x : Z) :
  In x (union1d a b) <-> In x a \/ In x b.
Proof. unfold union1d. rewrite unique_In. apply in_app_iff. Qed.

Lemma intersect1d_In (a b : list Z) (x : Z) :
  In x (intersect1d a b) <-> In x a /\ In x b.
Proof.
  unfold intersect1d. rewrite unique_In, filter_In, mem_In. tauto.
Qed.

End NpFacts.

(** ** The operator evaluator *)

Lemma op_to_fun_op_char (c : Combinator) : op_to_fun (op_char c) = Ok (op_fun c).
Proof. destruct c; reflexivity. Qed.

Lemma op_fun_In (c : Combinator) (a b : list Z) (x : Z) :
  In x (op_fun c a b) <-> combined c a b x.
Proof.
  destruct c; simpl.
  - apply NpFacts.setdiff1d_In.
  - apply NpFacts.union1d_In.
  - apply NpFacts.intersect1d_In.
Qed.

Lemma op_fun_increasing (c : Combinator) (a b : list Z) :
  increasing (op_fun c a b).
Proof. destruct c; apply NpFacts.unique_increasing. Qed.

Lemma entities_set_entities (k : Kind) (v : list Z) (r : Region) :
  entities k (set_entities k v r) = v.
Proof. destruct k; reflexivity. Qed.

(** What [eval_op] returns: a new instance at the next free location. *)
Lemma eval_op_run (k : Kind) (item1 item2 : loc) (c : Combinator) (w : World)
    (r1 r2 : Region) :
  store w !! item1 = Some r1 ->
  store w !! item2 = Some r2 ->
  exists r,
    eval_op k item1 item2 (op_char c) w
      = (Ok (length (store w)), set_store (store w ++ [r]) w)
    /\ kind r = k
    /\ entities k r = op_fun c (entities k r1) (entities k r2).
Proof.
  intros H1 H2. unfold eval_op, bind, deref, lift, alloc.
  rewrite H1, H2, op_to_fun_op_char.
  eexists. split; [reflexivity|]. split.
  - destruct k; reflexivity.
  - apply entities_set_entities.
Qed.

(** The dispatch of [region_op] on the fourth and the last character. *)
Lemma region_op_dispatch (level : nat) (op_code : Op) (item1 item2 : loc)
    (c3 sfx : ascii) (c : Combinator) (k : Kind) (w : World) :
  Py.index (token op_code) 3 = Ok c3 ->
  combinator_of c3 = Some c ->
  Py.last (token op_code) = Ok sfx ->
  target_kind sfx = Some k ->
  region_op level op_code item1 item2 w = eval_op k item1 item2 (op_char c) w.
Proof.
  intros H3 Hc Hl Hk. unfold region_op, bind, lift. rewrite H3.
  unfold combinator_of in Hc.
  assert (Hop :
    (if Ascii.eqb c3 "S" then ret "-"%char
     else if Ascii.eqb c3 "A" then ret "+"%char
     else if Ascii.eqb c3 "I" then ret "*"%char
     else raise (KeyError (String c3 EmptyString))) w = (Ok (op_char c), w)).
  { destruct (Ascii.eqb c3 "S"); [inversion Hc; reflexivity|].
    destruct (Ascii.eqb c3 "A"); [inversion Hc; reflexivity|].
    destruct (Ascii.eqb c3 "I"); [inversion Hc; reflexivity|discriminate]. }
  rewrite Hop, Hl. unfold target_kind in Hk.
  destruct (Ascii.eqb sfx "V"); [inversion Hk; reflexivity|].
  destruct (Ascii.eqb sfx "E"); [inversion Hk; reflexivity|].
  destruct (Ascii.eqb sfx "F"); [inversion Hk; reflexivity|].
  destruct (Ascii.eqb sfx "S"); [inversion Hk; reflexivity|].
  destruct (Ascii.eqb sfx "C"); [inversion Hk; reflexivity|discriminate].
Qed.

(** Scenario B: [R1 - R2], [R1 + R2] and [R1 * R2] on vertices. *)
Lemma scenario_B_vertices :
  result_vertices (region_op 0 (mkOp "OA_SubV" []) 0%nat 1%nat world_R12)
    = Ok [0; 1]
  /\ result_vertices (region_op 0 (mkOp "OA_AddV" []) 0%nat 1%nat world_R12)
    = Ok [0; 1; 2; 3]
  /\ result_vertices (region_op 0 (mkOp "OA_IntersectV" []) 0%nat 1%nat world_R12)
    = Ok [2].
Proof. repeat split; vm_compute; reflexivity. Qed.

(** C1.  For every two operand regions and every operator token, whose
    fourth character codes the combinator and whose last character codes the
    target kind, [region_op] returns a new region of the target kind whose
    field of that kind is, as a set, the difference (left minus right), the
    union or the intersection of the operands' fields of that kind, held as
    a strictly increasing array; the operands stay in the store as they
    were.  In particular for the vertex regions R1 = {0,1,2} and
    R2 = {2,3}: R1 - R2 = {0,1}, R1 + R2 = {0,1,2,3} and R1 * R2 = {2}. *)
Theorem region_op_set_algebra :
  (forall (level : nat) (op_code : Op) (item1 item2 : loc) (w : World)
          (r1 r2 : Region) (c3 sfx : ascii) (c : Combinator) (k : Kind),
      store w !! item1 = Some r1 ->
      store w !! item2 = Some r2 ->
      Py.index (token op_code) 3 = Ok c3 ->
      combinator_of c3 = Some c ->
      Py.last (token op_code) = Ok sfx ->
      target_kind sfx = Some k ->
      exists (l : loc) (r : Region) (w' : World),
        region_op level op_code item1 item2 w = (Ok l, w')
        /\ store w' = (store w ++ [r])%list
        /\ store w' !! l = Some r
        /\ kind r = k
        /\ (forall x, In x (entities k r)
                      <-> combined c (entities k r1) (entities k r2) x)
        /\ increasing (entities k r))
  /\ result_vertices (region_op 0 (mkOp "OA_SubV" []) 0%nat 1%nat world_R12)
     = Ok [0; 1]
  /\ result_vertices (region_op 0 (mkOp "OA_AddV" []) 0%nat 1%nat world_R12)
     = Ok [0; 1; 2; 3]
  /\ result_vertices (region_op 0 (mkOp "OA_IntersectV" []) 0%nat 1%nat world_R12)
     = Ok [2].
Proof.
  split; [|exact scenario_B_vertices].
  intros level op_code item1 item2 w r1 r2 c3 sfx c k H1 H2 H3 Hc Hl Hk.
  destruct (eval_op_run k item1 item2 c w r1 r2 H1 H2) as [r [Hrun [Hkind Hent]]].
  exists (length (store w)), r, (set_store (store w ++ [r]) w).
  split; [rewrite (region_op_dispatch level op_code item1 item2 c3 sfx c k w)
          by assumption; exact Hrun|].
  split; [reflexivity|].
  split; [simpl; apply list_lookup_middle; reflexivity|].
  split; [exact Hkind|].
  rewrite Hent. split; [intros x; apply op_fun_In|apply op_fun_increasing].
Qed.

(** ** The leaf evaluator *)

(** Decides the comparisons of token names in the goal. *)
Ltac token_tests :=
  repeat match goal with
    | |- context [String.eqb ?a ?b] =>
        let v := eval vm_compute in (String.eqb a b) in
        lazymatch v with
        | true => change (String.eqb a b) with true
        | false => change (String.eqb a b) with false
        end
    end;
  cbv beta iota zeta.

Lemma to_uint32_small (z : Z) : 0 <= z < 4294967296 -> Np.to_uint32 z = z.
Proof. intros H. unfold Np.to_uint32. apply Z.mod_small. exact H. Qed.

Lemma to_uint32_range (z : Z) : 0 <= Np.to_uint32 z < 4294967296.
Proof. unfold Np.to_uint32. apply Z.mod_pos_bound. lia. Qed.

Lemma arange_small (n : Z) :
  n <= 4294967296 -> Np.arange n = map Z.of_nat (seq 0 (Z.to_nat n)).
Proof.
  intros Hn. unfold Np.arange, Np.as_uint32. rewrite map_map.
  apply map_ext_in. intros i Hi. apply in_seq in Hi.
  apply to_uint32_small. lia.
Qed.

Lemma arange_In (n i : Z) :
  n <= 4294967296 -> In i (Np.arange n) <-> 0 <= i < n.
Proof.
  intros Hn. rewrite arange_small by assumption. rewrite in_map_iff. split.
  - intros [j [<- Hj]]. apply in_seq in Hj. lia.
  - intros Hi. exists (Z.to_nat i). split; [lia|]. apply in_seq. lia.
Qed.

Lemma arange_increasing (n : Z) : n <= 4294967296 -> increasing (Np.arange n).
Proof.
  intros Hn. rewrite arange_small by assumption.
  generalize 0%nat. induction (Z.to_nat n) as [|m IH]; intros s; simpl.
  - exact I.
  - split; [|apply IH]. intros y Hy. apply in_map_iff in Hy as [j [<- Hj]].
    apply in_seq in Hj. lia.
Qed.

(** C3.  On any domain whose vertex count fits the index type of the vertex
    arrays ([n_nod <= 2^32]), the leaf [all] produces a new region whose
    vertex array is [0, 1, ..., n_nod - 1]: an index is selected exactly
    when it lies in the half-open range [0, n_nod), and each once. *)
Theorem all_selects_every_vertex (regions_ : list loc) (rdef : string)
    (functions : option (gmap string UserFun)) (level : nat) (op : Op)
    (w : World) :
  token op = "KW_All" ->
  n_nod (mesh (dom w)) <= 4294967296 ->
  exists r : Region,
    region_leaf regions_ rdef functions level op w
      = (Ok (length (store w)), set_store (store w ++ [r])%list w)
    /\ vertices r = map Z.of_nat (seq 0 (Z.to_nat (n_nod (mesh (dom w)))))
    /\ (forall i, In i (vertices r) <-> 0 <= i < n_nod (mesh (dom w)))
    /\ increasing (vertices r).
Proof.
  intros Htok Hn. unfold region_leaf, bind, get_dom. rewrite Htok.
  eexists. split; [reflexivity|]. simpl vertices.
  split; [apply arange_small; exact Hn|].
  split; [intros i; apply arange_In; exact Hn|apply arange_increasing; exact Hn].
Qed.

Lemma all_selects_every_vertex_witness :
  exists r : Region,
    region_leaf [] "all" None 0 (mkOp "KW_All" []) world4
      = (Ok 0%nat, set_store [r] world4)
    /\ vertices r = [0; 1; 2; 3]
    /\ (forall i, In i (vertices r) <-> 0 <= i < 4)
    /\ increasing (vertices r).
Proof.
  apply (all_selects_every_vertex [] "all" None 0 (mkOp "KW_All" []) world4).
  - reflexivity.
  - vm_compute. discriminate.
Defined.

Lemma region_op_set_algebra_witness :
  exists (l : loc) (r : Region) (w' : World),
    region_op 0 (mkOp "OA_SubV" []) 0%nat 1%nat world_R12 = (Ok l, w')
    /\ store w' = (store world_R12 ++ [r])%list
    /\ store w' !! l = Some r
    /\ kind r = vertex
    /\ (forall x, In x (entities vertex r)
                  <-> combined subtract (entities vertex region_R1)
                        (entities vertex region_R2) x)
    /\ increasing (entities vertex r).
Proof.
  apply (proj1 region_op_set_algebra 0%nat (mkOp "OA_SubV" []) 0%nat 1%nat
           world_R12 region_R1 region_R2 "S"%char "V"%char subtract vertex);
    reflexivity.
Defined.

(** *** Lookups in the region collection *)

Lemma find_in_Some (s : list Region) (rs : list loc) (nm : string) (l : loc) :
  OneTypeList.find_in s rs nm = Ok (Some l) ->
  In l rs /\ exists r, s !! l = Some r /\ name r = nm.
Proof.
  induction rs as [|l0 rs IH]; simpl; [discriminate|].
  destruct (s !! l0) as [r0|] eqn:E0; [|discriminate].
  destruct (String.eqb_spec (name r0) nm) as [Heq|Hne].
  - intros H. inversion H. subst l0. split; [left; reflexivity|].
    exists r0. split; assumption.
  - intros H. destruct (IH H) as [Hin Hr]. split; [right; exact Hin|exact Hr].
Qed.






(** C10.  The leaf [vertex in r.<name>] against a materialized region R of
    that name: the new region holds the first entry of R's vertex array
    alone when R has a vertex, and no vertex when R has none; no error is
    raised in either case. *)
Theorem single_vertex_of_region (regions_ : list loc) (rdef : string)
    (functions : option (gmap string UserFun)) (level : nat) (op : Op)
    (w : World) (d3 : string) (l : loc) (R : Region) :
  token op = "E_OVIR" ->
  orig op !! 3%nat = Some d3 ->
  OneTypeList.find_in (store w) regions_ (Py.from 2 d3) = Ok (Some l) ->
  store w !! l = Some R ->
  exists r : Region,
    region_leaf regions_ rdef functions level op w
      = (Ok (length (store w)), set_store (store w ++ [r])%list w)
    /\ vertices r = match vertices R with
                    | [] => []
                    | v :: _ => [v]
                    end.
Proof.
  intros Htok Hd3 Hfind HR.
  unfold region_leaf, OneTypeList.getitem, OneTypeList.find, bind, get_dom,
    lift, PyList.item, deref, ret.
  rewrite Htok, Hd3. token_tests. rewrite Hfind. cbv beta iota. rewrite HR.
  eexists. split; [reflexivity|]. simpl vertices. destruct (vertices R); reflexivity.
Qed.

Lemma single_vertex_of_region_witness :
  exists r : Region,
    region_leaf [0; 1]%nat "vertex in r.R2" None 0
      (mkOp "E_OVIR" ["vertex"; "in"; "nocopy"; "r.R2"]) world_R12
      = (Ok (length (store world_R12)),
         set_store (store world_R12 ++ [r])%list world_R12)
    /\ vertices r = match vertices region_R2 with
                    | [] => []
                    | v :: _ => [v]
                    end.
Proof.
  apply (single_vertex_of_region [0; 1]%nat "vertex in r.R2" None 0
           (mkOp "E_OVIR" ["vertex"; "in"; "nocopy"; "r.R2"]) world_R12
           "r.R2" 1%nat region_R2); reflexivity.
Defined.

(** *** Explicit vertex lists *)

Lemma amax_upper (l : list Z) (m x : Z) :
  Np.amax l = Ok m -> In x l -> x <= m.
Proof.
  destruct l as [|y l]; simpl; [discriminate|].
  intros H Hx. inversion H as [Hm]. clear H Hm.
  assert (Hfold : forall l a, a <= fold_left Z.max l a
                    /\ forall z, In z l -> z <= fold_left Z.max l a).
  { clear. induction l as [|b l IH]; intros a; simpl.
    - split; [lia|intros z []].
    - destruct (IH (Z.max a b)) as [H1 H2]. split; [lia|].
      intros z [->|Hz]; [lia|auto]. }
  destruct (Hfold l y) as [H1 H2]. destruct Hx as [->|Hx]; auto.
Qed.

Lemma amin_lower (l : list Z) (m : Z) :
  Np.amin l = Ok m -> (forall x, In x l -> 0 <= x) -> 0 <= m.
Proof.
  destruct l as [|y l]; simpl; [discriminate|].
  intros H Hall. inversion H as [Hm]. clear H Hm.
  assert (Hy : 0 <= y) by (apply Hall; left; reflexivity).
  assert (Hl : forall x, In x l -> 0 <= x) by (intros x Hx; apply Hall; right; exact Hx).
  clear Hall. revert y Hy. induction l as [|b l IH]; intros y Hy; simpl; [exact Hy|].
  apply IH; [intros x Hx; apply Hl; right; exact Hx|].
  assert (0 <= b) by (apply Hl; left; reflexivity). lia.
Qed.

(** The bracketed form validates: an index whose unsigned value is not
    below [n_nod] fails the assertion. *)
Lemma literal_list_bounds_checked (regions_ : list loc) (rdef : string)
    (functions : option (gmap string UserFun)) (level : nat) (op : Op)
    (w : World) (where_ : string) (s' : string) (l : list Z) (i : Z) :
  token op = "E_VIR" ->
  orig op !! 2%nat = Some where_ ->
  where_ = String "[" s' ->
  PyEval.int_list where_ = Ok l ->
  In i l ->
  n_nod (mesh (dom w)) <= Np.to_uint32 i ->
  region_leaf regions_ rdef functions level op w
    = (Raise (ValueError "assertion failed!"), w).
Proof.
  intros Htok Hd Hw Hl Hi Hn.
  unfold region_leaf, bind, get_dom, lift, PyList.item, ret.
  rewrite Htok, Hd. token_tests.
  assert (H0 : Py.index where_ 0 = Ok "["%char) by (rewrite Hw; reflexivity).
  rewrite H0. cbv beta iota.
  change (Ascii.eqb "[" "[") with true. cbv beta iota. rewrite Hl.
  assert (Hin : In (Np.to_uint32 i) (Np.as_uint32 l))
    by (unfold Np.as_uint32; apply in_map; exact Hi).
  destruct (Np.amin (Np.as_uint32 l)) as [lo|e] eqn:Emin.
  2:{ destruct (Np.as_uint32 l); [destruct Hin|discriminate]. }
  assert (Hlo : 0 <= lo).
  { apply (amin_lower _ _ Emin). intros x Hx. unfold Np.as_uint32 in Hx.
    apply in_map_iff in Hx as [y [<- _]]. apply to_uint32_range. }
  apply Z.leb_le in Hlo. rewrite Hlo. unfold assert_ at 1, ret. cbv beta iota.
  destruct (Np.amax (Np.as_uint32 l)) as [hi|e] eqn:Emax.
  2:{ destruct (Np.as_uint32 l); [destruct Hin|discriminate]. }
  pose proof (amax_upper _ _ _ Emax Hin) as Hhi.
  assert (Hlt : (hi <? n_nod (mesh (dom w))) = false) by (apply Z.ltb_ge; lia).
  rewrite Hlt. reflexivity.
Qed.

(** The form [vertex i0 i1 ...] is evaluated without a look at the vertex
    count of the mesh. *)
Lemma vertex_list_leaf_run (regions_ : list loc) (rdef : string)
    (functions : option (gmap string UserFun)) (level : nat) (op : Op)
    (w : World) (l : list Z) :
  token op = "E_VI" ->
  Py.map_result Py.int (skipn 1 (orig op)) = Ok l ->
  exists r,
    region_leaf regions_ rdef functions level op w
      = (Ok (length (store w)), set_store (store w ++ [r])%list w)
    /\ vertices r = Np.as_uint32 l.
Proof.
  intros Htok Hl. unfold region_leaf, bind, get_dom, lift.
  rewrite Htok. token_tests. rewrite Hl.
  eexists. split; reflexivity.
Qed.

(** C4.  The form [vertex i0 i1 ...] is not validated: on the mesh with four
    vertices the leaf of [vertex 5] yields a region with the vertex 5,
    [create_region] raises no error and registers the region under the
    requested name, while the bracketed form [vertices in [0, 5]] fails the
    bounds assertion and registers nothing. *)
Theorem explicit_vertex_list_unchecked :
  n_nod (mesh (dom world4)) = 4
  /\ result_vertices
       (region_leaf [] "vertex 5" None 0 (mkOp "E_VI" ["vertex"; "5"]) world4)
     = Ok [5]
  /\ result_vertices
       (create_region "D" "vertex 5" vertex None true None true world4)
     = Ok [5]
  /\ OneTypeList.names_in
       (store (after (create_region "D" "vertex 5" vertex None true None true)
                 world4))
       (regions (dom (after (create_region "D" "vertex 5" vertex None true
                               None true) world4)))
     = Ok ["D"]
  /\ fst (create_region "D" "vertices in [0, 5]" vertex None true None true
            world4)
     = Raise (ValueError "assertion failed!")
  /\ regions (dom (after (create_region "D" "vertices in [0, 5]" vertex None
                            true None true) world4)) = [].
Proof. repeat split; vm_compute; reflexivity. Qed.

(** A run whose result is known leaves the world [after] it. *)
Lemma run_ok {A : Type} (m : M A) (w : World) (a : A) :
  fst (m w) = Ok a -> m w = (Ok a, after m w).
Proof. unfold after. destruct (m w) as [r w']. simpl. intros ->. reflexivity. Qed.

(** ** [create_region]: a text that does not parse *)

Lemma names_in_total (s : list Region) (rs : list loc) :
  Forall (fun l => is_Some (s !! l)) rs ->
  exists ns, OneTypeList.names_in s rs = Ok ns
    /\ forall p, In p ns <-> exists l r, In l rs /\ s !! l = Some r /\ name r = p.
Proof.
  induction rs as [|l0 rs IH]; simpl; intros Hv.
  - exists []. split; [reflexivity|]. intros p. split; [intros []|].
    intros [l [r [[] _]]].
  - inversion Hv as [|? ? [r0 E0] Hv']; subst. rewrite E0.
    destruct (IH Hv') as [ns [Hns Hiff]]. rewrite Hns.
    exists (name r0 :: ns). split; [reflexivity|]. intros p. simpl. rewrite Hiff.
    split.
    + intros [<-|[l [r [Hin Hr]]]]; [exists l0, r0; auto|exists l, r; tauto].
    + intros [l [r [[->|Hin] [Hl Hn]]]].
      * left. congruence.
      * right. exists l, r. auto.
Qed.

Lemma mem_string_In (x : string) (l : list string) :
  mem_string x l = true <-> In x l.
Proof.
  unfold mem_string. rewrite existsb_exists. split.
  - intros [y [Hy Heq]]. apply String.eqb_eq in Heq. subst. exact Hy.
  - intros H. exists x. split; [exact H|apply String.eqb_refl].
Qed.

(** The check of the parents changes nothing; it passes when every parent is
    registered and raises for the first one that is not. *)
Lemma check_parents_loop_run (name_ : string) (parents : list string)
    (w : World) :
  materialized w ->
  (check_parents_loop name_ parents w = (Ok tt, w)
   /\ forall p, In p parents -> registered w p)
  \/ exists p, In p parents /\ ~ registered w p
       /\ check_parents_loop name_ parents w
          = (Raise (parent_not_found p name_), w).
Proof.
  intros Hm. induction parents as [|p ps IH].
  - left. split; [reflexivity|intros p []].
  - simpl. unfold bind, get_dom, OneTypeList.get_names.
    destruct (names_in_total _ _ Hm) as [ns [Hns Hiff]]. rewrite Hns.
    fold (mem_string p ns). destruct (mem_string p ns) eqn:E.
    + apply mem_string_In, Hiff in E. destruct IH as [[Hrun Hall]|[q [Hq [Hnq Hrun]]]].
      * left. split; [exact Hrun|]. intros q [<-|Hq]; [exact E|auto].
      * right. exists q. split; [right; exact Hq|]. split; assumption.
    + right. exists p. split; [left; reflexivity|]. split; [|reflexivity].
      intros Hreg. apply Hiff, mem_string_In in Hreg. congruence.
Qed.

Lemma try_parse_failure (select : string) (w : World) :
  _bnf (dom w) select = None ->
  try_parse select w
  = (Raise (ParseException select),
     mkWorld (store w) (dom w) (console w ++ ["parsing failed: " +:+ select])).
Proof.
  intros H. unfold try_parse, parseString, bind, get_dom. rewrite H. reflexivity.
Qed.

(** C7, counterexample.  With the parents checked, the text [r.X +v] does
    not parse, yet what [create_region] raises on a domain without a region
    [X] is the error of the missing parent, raised before the parser is
    called. *)
Lemma parse_failure_not_always_parse_error :
  ~ (forall (name_ select : string) (kind_ : Kind) (parent_ : option string)
            (check_parents : bool) (functions : option (gmap string UserFun))
            (add_to_regions : bool) (w : World),
        _bnf (dom w) select = None ->
        exists text,
          fst (create_region name_ select kind_ parent_ check_parents
                 functions add_to_regions w)
          = Raise (ParseException text)).
Proof.
  intros H.
  destruct (H "D" "r.X +v" vertex None true None true world4 eq_refl)
    as [text Htext].
  vm_compute in Htext. discriminate Htext.
Qed.

(** C7, amended.  For a selection text that does not parse, [create_region]
    raises an error and leaves the store of instances and the domain as they
    were: nothing is allocated, no token is replayed, no region is
    registered.  The error is the parse error, reported on the console,
    whenever the parents are not checked or every region named in the text
    is registered; with the parents checked and a named region missing it is
    the error of the missing parent. *)
Theorem unparsable_text_registers_nothing (name_ select : string)
    (kind_ : Kind) (parent_ : option string) (check_parents : bool)
    (functions : option (gmap string UserFun)) (add_to_regions : bool)
    (w : World) :
  _bnf (dom w) select = None ->
  materialized w ->
  exists (e : exn) (w' : World),
    create_region name_ select kind_ parent_ check_parents functions
      add_to_regions w = (Raise e, w')
    /\ store w' = store w
    /\ dom w' = dom w
    /\ ((check_parents = false
         \/ forall p, In p (get_parents select) -> registered w p) ->
        e = ParseException select
        /\ console w' = (console w ++ ["parsing failed: " +:+ select])%list)
    /\ (check_parents = true ->
        (exists p, In p (get_parents select) /\ ~ registered w p) ->
        exists p, In p (get_parents select) /\ ~ registered w p
                  /\ e = parent_not_found p name_ /\ console w' = console w).
Proof.
  intros Hparse Hm. unfold create_region.
  destruct check_parents.
  - destruct (check_parents_loop_run name_ (get_parents select) w Hm)
      as [[Hrun Hall]|[p [Hp [Hnp Hrun]]]].
    + unfold bind at 1. rewrite Hrun. unfold bind at 1.
      rewrite (try_parse_failure select w Hparse).
      eexists _, _. split; [reflexivity|]. split; [reflexivity|].
      split; [reflexivity|]. split.
      * intros _. split; reflexivity.
      * intros _ [q [Hq Hnq]]. exfalso. apply Hnq, Hall, Hq.
    + unfold bind at 1. rewrite Hrun.
      eexists _, _. split; [reflexivity|]. split; [reflexivity|].
      split; [reflexivity|]. split.
      * intros [Hc|Hall]; [discriminate|]. exfalso. apply Hnp, Hall, Hp.
      * intros _ _. exists p. auto.
  - unfold bind at 1, ret. unfold bind at 1.
    rewrite (try_parse_failure select w Hparse).
    eexists _, _. split; [reflexivity|]. split; [reflexivity|].
    split; [reflexivity|]. split.
    + intros _. split; reflexivity.
    + discriminate.
Qed.

Lemma unparsable_text_registers_nothing_witness :
  exists (e : exn) (w' : World),
    create_region "D" "r.R1 +v" vertex None true None true world_B
      = (Raise e, w')
    /\ store w' = store world_B
    /\ dom w' = dom world_B
    /\ ((true = false
         \/ forall p, In p (get_parents "r.R1 +v") -> registered world_B p) ->
        e = ParseException "r.R1 +v"
        /\ console w'
           = (console world_B ++ ["parsing failed: " +:+ "r.R1 +v"])%list)
    /\ (true = true ->
        (exists p, In p (get_parents "r.R1 +v") /\ ~ registered world_B p) ->
        exists p, In p (get_parents "r.R1 +v") /\ ~ registered world_B p
                  /\ e = parent_not_found p "D"
                  /\ console w' = console world_B).
Proof.
  apply (unparsable_text_registers_nothing "D" "r.R1 +v" vertex None true None
           true world_B).
  - vm_compute. reflexivity.
  - repeat constructor; eexists; vm_compute; reflexivity.
Defined.

(** ** What an evaluation does to the regions that exist *)

Ltac break_match :=
  match goal with
  | |- context [match ?x with _ => _ end] => destruct x eqn:?
  | H : context [match ?x with _ => _ end] |- _ => destruct x eqn:?
  | H : (_, _) = (_, _) |- _ => inversion H; subst; clear H
  end.

(** A leaf leaves the domain as it was.  The region it returns is a new
    instance at the next free location, or, for a named reference without
    copy, an instance of the store, which is then unchanged. *)
Lemma region_leaf_effect (regions_ : list loc) (rdef : string)
    (functions : option (gmap string UserFun)) (level : nat) (op : Op)
    (w : World) (out : result loc) (w' : World) :
  region_leaf regions_ rdef functions level op w = (out, w') ->
  dom w' = dom w
  /\ match out with
     | Ok l =>
         (exists r, l = length (store w) /\ store w' = (store w ++ [r])%list)
         \/ ((l < length (store w))%nat /\ store w' = store w
             /\ token op = "KW_Region" /\ Py.upto 4 rdef <> "copy")
     | Raise _ => store w' = store w
     end.
Proof.
  unfold region_leaf, OneTypeList.getitem, OneTypeList.find, Region_copy,
    assert_, bind, get_dom, lift, deref, alloc, output, raise, ret.
  cbv beta iota zeta. intros H.
  repeat break_match;
    simpl; try (split; [reflexivity|]); try reflexivity;
    try (left; eexists; split; reflexivity).
  right.
  match goal with
  | H : OneTypeList.find_in _ _ _ = Ok (Some _) |- _ =>
      destruct (find_in_Some _ _ _ _ H) as [_ [r [Hr _]]]
  end.
  split; [apply lookup_lt_is_Some; eauto|]. split; [reflexivity|].
  split; [apply String.eqb_eq; assumption|apply String.eqb_neq; assumption].
Qed.

(** An operator leaves the domain as it was and returns a new instance. *)
Lemma region_op_effect (level : nat) (op_code : Op) (item1 item2 : loc)
    (w : World) (out : result loc) (w' : World) :
  region_op level op_code item1 item2 w = (out, w') ->
  dom w' = dom w
  /\ match out with
     | Ok l => exists r, l = length (store w) /\ store w' = (store w ++ [r])%list
     | Raise _ => store w' = store w
     end.
Proof.
  unfold region_op, eval_op_vertices, eval_op_edges, eval_op_faces,
    eval_op_facets, eval_op_cells, eval_op, bind, lift, deref, alloc, raise, ret.
  cbv beta iota zeta. intros H.
  repeat break_match;
    simpl; try (split; [reflexivity|]); try reflexivity;
    try (eexists; split; reflexivity).
Qed.

Lemma set_region_stack_twice (st st' : list Op) (d : Domain) :
  set_region_stack st (set_region_stack st' d) = set_region_stack st d.
Proof. reflexivity. Qed.

Lemma set_region_stack_same (d : Domain) :
  set_region_stack (_region_stack d) d = d.
Proof. destruct d; reflexivity. Qed.

(** The replay only adds instances to the store and only takes tokens off
    the parser's stack.  Its result is a new instance, unless nothing was
    replayed or the only token replayed is a named reference without
    copy. *)
Lemma replay_effect (rs : list loc) (rdef : string)
    (fns : option (gmap string UserFun)) (toks : list Op) :
  forall (operands : list loc) (w : World) (out : result loc) (w' : World),
    replay region_op (region_leaf rs rdef fns) toks operands w = (out, w') ->
    (exists st, dom w' = set_region_stack st (dom w))
    /\ (exists news, store w' = (store w ++ news)%list)
    /\ match out with
       | Ok l =>
           (length (store w) <= l)%nat
           \/ (toks = [] /\ operands = [l] /\ store w' = store w)
           \/ (operands = [] /\ (exists op, toks = [op] /\ token op = "KW_Region")
               /\ Py.upto 4 rdef <> "copy" /\ store w' = store w
               /\ (l < length (store w))%nat)
       | Raise _ => True
       end.
Proof.
  induction toks as [|op toks IH]; intros operands w out w' H.
  - simpl in H. destruct operands as [|r [|r' rest]];
      unfold ret, raise in H; inversion H; subst.
    + split; [exists (_region_stack (dom w')); symmetry; apply set_region_stack_same|].
      split; [exists []; symmetry; apply app_nil_r|exact I].
    + split; [exists (_region_stack (dom w')); symmetry; apply set_region_stack_same|].
      split; [exists []; symmetry; apply app_nil_r|]. right. left. auto.
    + split; [exists (_region_stack (dom w')); symmetry; apply set_region_stack_same|].
      split; [exists []; symmetry; apply app_nil_r|exact I].
  - simpl in H. unfold bind at 1 in H. unfold modify_dom in H.
    set (w1 := set_dom (set_region_stack toks (dom w)) w) in H.
    assert (Hs1 : store w1 = store w) by reflexivity.
    assert (Hd1 : dom w1 = set_region_stack toks (dom w)) by reflexivity.
    destruct (is_operator op).
    + destruct operands as [|item2 [|item1 rest]];
        try (unfold raise in H; inversion H; subst;
             split; [eexists; exact Hd1|];
             split; [exists []; rewrite app_nil_r; exact Hs1|exact I]).
      unfold bind in H.
      destruct (region_op (length rest) op item1 item2 w1) as [o1 w2] eqn:E1.
      destruct (region_op_effect _ _ _ _ _ _ _ E1) as [Hd2 Ho1].
      destruct o1 as [r|e].
      * destruct Ho1 as [r' [Hr Hs2]].
        destruct (IH _ _ _ _ H) as [[st Hd] [[news Hs] Hout]].
        split; [exists st; rewrite Hd, Hd2, Hd1; reflexivity|].
        split; [exists (r' :: news); rewrite Hs, Hs2, Hs1, <- app_assoc;
                reflexivity|].
        destruct out as [l|]; [|exact I]. left.
        destruct Hout as [Hf|[[_ [Hl _]]|[Hl _]]].
        -- rewrite Hs2, length_app, Hs1 in Hf. lia.
        -- inversion Hl. subst. rewrite Hs1. lia.
        -- discriminate.
      * inversion H; subst.
        split; [exists toks; rewrite Hd2, Hd1; reflexivity|].
        split; [exists []; rewrite app_nil_r, Ho1, Hs1; reflexivity|exact I].
    + unfold bind in H.
      destruct (region_leaf rs rdef fns (length operands) op w1) as [o1 w2] eqn:E1.
      destruct (region_leaf_effect _ _ _ _ _ _ _ _ E1) as [Hd2 Ho1].
      destruct o1 as [r|e].
      * destruct (IH _ _ _ _ H) as [[st Hd] [[news Hs] Hout]].
        split; [exists st; rewrite Hd, Hd2, Hd1; reflexivity|].
        destruct Ho1 as [[r' [Hr Hs2]]|[Hlt [Hs2 [Htok Hcopy]]]].
        -- split; [exists (r' :: news); rewrite Hs, Hs2, Hs1, <- app_assoc;
                   reflexivity|].
           destruct out as [l|]; [|exact I]. left.
           destruct Hout as [Hf|[[_ [Hl _]]|[Hl _]]].
           ++ rewrite Hs2, length_app, Hs1 in Hf. lia.
           ++ inversion Hl. subst. rewrite Hs1. lia.
           ++ discriminate.
        -- split; [exists news; rewrite Hs, Hs2, Hs1; reflexivity|].
           destruct out as [l|]; [|exact I].
           destruct Hout as [Hf|[[Ht [Hl Hs']]|[Hl _]]].
           ++ left. rewrite Hs2, Hs1 in Hf. exact Hf.
           ++ inversion Hl. subst. right. right.
              split; [reflexivity|]. split; [exists op; auto|].
              split; [exact Hcopy|]. split; [rewrite Hs', Hs2; exact Hs1|].
              rewrite Hs1 in Hlt. exact Hlt.
           ++ discriminate.
      * inversion H; subst.
        split; [exists toks; rewrite Hd2, Hd1; reflexivity|].
        split; [exists []; rewrite app_nil_r, Ho1, Hs1; reflexivity|exact I].
Qed.

Lemma check_parents_loop_world (name_ : string) (parents : list string)
    (w : World) :
  snd (check_parents_loop name_ parents w) = w.
Proof.
  induction parents as [|p ps IH]; [reflexivity|].
  simpl. unfold bind, get_dom, OneTypeList.get_names.
  destruct (OneTypeList.names_in (store w) (regions (dom w))) as [ns|e];
    [|reflexivity].
  destruct (existsb (String.eqb p) ns); [exact IH|reflexivity].
Qed.

Lemma try_parse_ok (select : string) (w : World) (u : unit) (w' : World) :
  try_parse select w = (Ok u, w') ->
  exists toks,
    _bnf (dom w) select = Some toks
    /\ w' = set_dom (set_region_stack (_region_stack (dom w) ++ toks) (dom w)) w.
Proof.
  unfold try_parse, parseString, bind, get_dom, modify_dom, raise, output.
  destruct (_bnf (dom w) select) as [toks|]; intros H; inversion H.
  exists toks. split; reflexivity.
Qed.

Lemma update_run (l : loc) (f : Region -> Region) (w : World) (r : Region) :
  store w !! l = Some r ->
  update l f w = (Ok tt, set_store (<[l := f r]> (store w)) w).
Proof. intros H. unfold update. rewrite H. reflexivity. Qed.

Lemma update_lookup (l : loc) (f : Region -> Region) (w : World) (r : Region) :
  store w !! l = Some r ->
  store (set_store (<[l := f r]> (store w)) w) !! l = Some (f r).
Proof.
  intros H. simpl. apply list_lookup_insert_eq.
  apply lookup_lt_is_Some. eauto.
Qed.

(** What [create_region] does once the token stack is evaluated: the
    attributes of the instance returned are overwritten, and the instance
    is registered. *)
Lemma create_region_finish (name_ select : string) (kind_ : Kind)
    (parent_ : option string) (add_to_regions : bool) (region : loc)
    (w : World) (r : Region) :
  store w !! region = Some r ->
  (let* _ := update region (set_name name_) in
   let* _ := update region (set_definition select) in
   let* _ := update region (set_kind kind_) in
   let* _ := update region (set_parent parent_) in
   let* _ := update region update_shape in
   let* _ := (if add_to_regions
              then modify_dom (fun d => set_regions (regions d ++ [region]) d)
              else ret tt) in
   ret region) w
  = (Ok region,
     mkWorld
       (<[region := update_shape (set_parent parent_ (set_kind kind_
                      (set_definition select (set_name name_ r))))]> (store w))
       (if add_to_regions
        then set_regions (regions (dom w) ++ [region]) (dom w)
        else dom w)
       (console w)).
Proof.
  intros H.
  unfold bind at 1. rewrite (update_run _ _ _ _ H).
  pose proof (update_lookup _ (set_name name_) _ _ H) as H1.
  unfold bind at 1. rewrite (update_run _ _ _ _ H1).
  pose proof (update_lookup _ (set_definition select) _ _ H1) as H2.
  unfold bind at 1. rewrite (update_run _ _ _ _ H2).
  pose proof (update_lookup _ (set_kind kind_) _ _ H2) as H3.
  unfold bind at 1. rewrite (update_run _ _ _ _ H3).
  pose proof (update_lookup _ (set_parent parent_) _ _ H3) as H4.
  unfold bind at 1. rewrite (update_run _ _ _ _ H4).
  unfold bind, ret, modify_dom, set_store, set_dom. simpl.
  rewrite !list_insert_insert_eq.
  destruct add_to_regions; destruct w; reflexivity.
Qed.

(** The steps of a call of [create_region] that succeeds. *)
Lemma create_region_ok (name_ select : string) (kind_ : Kind)
    (parent_ : option string) (check_parents : bool)
    (fns : option (gmap string UserFun)) (add_to_regions : bool)
    (w : World) (l : loc) (w' : World) :
  create_region name_ select kind_ parent_ check_parents fns add_to_regions w
    = (Ok l, w') ->
  exists (toks : list Op) (w3 : World) (r3 : Region),
    _bnf (dom w) select = Some toks
    /\ visit_stack region_op (region_leaf (regions (dom w)) select fns)
         (set_dom (set_region_stack (_region_stack (dom w) ++ toks) (dom w)) w)
       = (Ok l, w3)
    /\ store w3 !! l = Some r3
    /\ w' = mkWorld
              (<[l := update_shape (set_parent parent_ (set_kind kind_
                        (set_definition select (set_name name_ r3))))]>
                 (store w3))
              (if add_to_regions
               then set_regions (regions (dom w3) ++ [l]) (dom w3)
               else dom w3)
              (console w3).
Proof.
  unfold create_region. intros H.
  unfold bind at 1 in H.
  assert (Hcp : exists o, (if check_parents
                           then check_parents_loop name_ (get_parents select)
                           else ret tt) w = (o, w)).
  { destruct check_parents; [|eexists; reflexivity].
    pose proof (check_parents_loop_world name_ (get_parents select) w) as Hw.
    destruct (check_parents_loop name_ (get_parents select) w) as [o w0].
    simpl in Hw. subst. eexists; reflexivity. }
  destruct Hcp as [o Hcp]. rewrite Hcp in H. destruct o as [[]|e]; [|discriminate].
  unfold bind at 1 in H.
  destruct (try_parse select w) as [[u|e] w1] eqn:Ep; [|discriminate].
  destruct (try_parse_ok _ _ _ _ Ep) as [toks [Htoks Hw1]]. subst w1.
  unfold bind at 1 in H. unfold get_dom at 1 in H. cbv beta iota in H.
  change (regions (dom (set_dom (set_region_stack
            (_region_stack (dom w) ++ toks) (dom w)) w)))
    with (regions (dom w)) in H.
  unfold bind at 1 in H.
  destruct (visit_stack region_op (region_leaf (regions (dom w)) select fns)
              (set_dom (set_region_stack (_region_stack (dom w) ++ toks) (dom w)) w))
    as [[l3|e] w3] eqn:Ev; [|discriminate].
  destruct (store w3 !! l3) as [r3|] eqn:E3.
  - rewrite (create_region_finish _ _ _ _ _ _ _ _ E3) in H.
    inversion H. subst. exists toks, w3, r3. auto.
  - unfold bind at 1, update at 1 in H. rewrite E3 in H. discriminate.
Qed.




(** ** The dependency resolver *)














(** ** The pass [create_regions] *)

Lemma region_leaf_console (regions_ : list loc) (rdef : string)
    (functions : option (gmap string UserFun)) (level : nat) (op : Op)
    (w : World) (l : loc) (w' : World) :
  region_leaf regions_ rdef functions level op w = (Ok l, w') ->
  console w' = console w.
Proof.
  unfold region_leaf, OneTypeList.getitem, OneTypeList.find, Region_copy,
    assert_, bind, get_dom, lift, deref, alloc, output, raise, ret.
  cbv beta iota zeta. intros H.
  repeat break_match; try discriminate; reflexivity.
Qed.

Lemma region_op_console (level : nat) (op_code : Op) (item1 item2 : loc)
    (w : World) (l : loc) (w' : World) :
  region_op level op_code item1 item2 w = (Ok l, w') ->
  console w' = console w.
Proof.
  unfold region_op, eval_op_vertices, eval_op_edges, eval_op_faces,
    eval_op_facets, eval_op_cells, eval_op, bind, lift, deref, alloc, raise, ret.
  cbv beta iota zeta. intros H.
  repeat break_match; try discriminate; reflexivity.
Qed.

Lemma replay_console (rs : list loc) (rdef : string)
    (fns : option (gmap string UserFun)) (toks : list Op) :
  forall (operands : list loc) (w : World) (l : loc) (w' : World),
    replay region_op (region_leaf rs rdef fns) toks operands w = (Ok l, w') ->
    console w' = console w.
Proof.
  induction toks as [|op toks IH]; intros operands w l w' H.
  - simpl in H. destruct operands as [|r [|r' rest]];
      unfold ret, raise in H; inversion H; reflexivity.
  - simpl in H. unfold bind at 1 in H. unfold modify_dom in H.
    destruct (is_operator op).
    + destruct operands as [|item2 [|item1 rest]];
        try (unfold raise in H; discriminate).
      unfold bind in H.
      destruct (region_op (length rest) op item1 item2
                  (set_dom (set_region_stack toks (dom w)) w))
        as [[r|e] w2] eqn:E1; [|discriminate].
      rewrite (IH _ _ _ _ H). apply (region_op_console _ _ _ _ _ _ _ E1).
    + unfold bind in H.
      destruct (region_leaf rs rdef fns (length operands) op
                  (set_dom (set_region_stack toks (dom w)) w))
        as [[r|e] w2] eqn:E1; [|discriminate].
      rewrite (IH _ _ _ _ H). apply (region_leaf_console _ _ _ _ _ _ _ _ E1).
Qed.







(** ** [save_regions_as_groups] *)





Lemma fancy_assign_keeps (idx : list Z) (v : Z) :
  forall (a a' : list Z),
    fancy_assign a idx v = Ok a' ->
    length a' = length a
    /\ forall k, a !! k = Some v -> a' !! k = Some v.
Proof.
  induction idx as [|i idx IH]; intros a a' H; simpl in H.
  - inversion H. auto.
  - destruct ((0 <=? i) && (i <? Z.of_nat (length a))).
    + destruct (IH _ _ H) as [Hlen Hk]. rewrite length_insert in Hlen.
      split; [exact Hlen|]. intros k Hak. apply Hk.
      destruct (Nat.eq_dec (Z.to_nat i) k) as [<-|Hne].
      * apply list_lookup_insert_eq. apply lookup_lt_is_Some. eauto.
      * rewrite list_lookup_insert_ne by exact Hne. exact Hak.
    + destruct ((- Z.of_nat (length a) <=? i) && (i <? 0)); [|discriminate].
      destruct (IH _ _ H) as [Hlen Hk]. rewrite length_insert in Hlen.
      split; [exact Hlen|]. intros k Hak. apply Hk.
      destruct (Nat.eq_dec (Z.to_nat (Z.of_nat (length a) + i)) k) as [<-|Hne].
      * apply list_lookup_insert_eq. apply lookup_lt_is_Some. eauto.
      * rewrite list_lookup_insert_ne by exact Hne. exact Hak.
Qed.

(** After [a[idx] = v] every entry that a non-negative index of [idx]
    names holds [v]. *)
Lemma fancy_assign_marks (idx : list Z) (v : Z) :
  forall (a a' : list Z) (i : Z),
    fancy_assign a idx v = Ok a' ->
    In i idx -> 0 <= i ->
    a' !! Z.to_nat i = Some v.
Proof.
  induction idx as [|j idx IH]; intros a a' i H Hin Hi; [destruct Hin|].
  simpl in H. destruct Hin as [->|Hin].
  - destruct ((0 <=? i) && (i <? Z.of_nat (length a))) eqn:E.
    + apply (fancy_assign_keeps _ _ _ _ H).
      apply list_lookup_insert_eq. apply andb_true_iff in E as [_ E].
      apply Z.ltb_lt in E. lia.
    + destruct ((- Z.of_nat (length a) <=? i) && (i <? 0)) eqn:E';
        [|discriminate].
      apply andb_true_iff in E' as [_ E']. apply Z.ltb_lt in E'. lia.
  - destruct ((0 <=? j) && (j <? Z.of_nat (length a))).
    + apply (IH _ _ _ H Hin Hi).
    + destruct ((- Z.of_nat (length a) <=? j) && (j <? 0)); [|discriminate].
      apply (IH _ _ _ H Hin Hi).
Qed.

Lemma mark_cells_keeps (d : Domain) (r : Region) (gs : list Z) :
  forall (s s' : Saved),
    mark_cells d r gs s = Ok s' ->
    aux_ngroups s' = aux_ngroups s /\ n_ig s' = n_ig s.
Proof.
  induction gs as [|g gs IH]; intros s s' H; simpl in H.
  - inversion H. auto.
  - destruct (PyList.item_Z (aux_mat_ids s) g) as [ids|e]; [|discriminate].
    destruct (fancy_assign ids (get_cells d r g) (c_ig s)) as [ids'|e];
      [|discriminate].
    destruct (IH _ _ H) as [H1 H2]. simpl in H1, H2. auto.
Qed.

(** One region of the second loop: its vertices are marked with the
    current node-group id, and the id is advanced by one. *)
Lemma mark_region_ok (n_nod_ : Z) (name_ : string) (s s' : Saved)
    (w w' : World) :
  mark_region n_nod_ name_ s w = (Ok s', w') ->
  n_ig s' = n_ig s + 1
  /\ store w' = store w /\ dom w' = dom w
  /\ exists l r,
       OneTypeList.find_in (store w) (regions (dom w)) name_ = Ok (Some l)
       /\ store w !! l = Some r
       /\ fancy_assign (aux_ngroups s) (vertices r) (n_ig s)
          = Ok (aux_ngroups s').
Proof.
  unfold mark_region, OneTypeList.getitem, OneTypeList.find, bind, get_dom,
    deref, output, lift, raise, ret. cbv beta iota zeta. intros H.
  destruct (OneTypeList.find_in (store w) (regions (dom w)) name_)
    as [[l|]|e] eqn:Ef; try discriminate.
  destruct (store w !! l) as [r|] eqn:El; [|discriminate].
  destruct (fancy_assign (aux_ngroups s) (vertices r) (n_ig s)) as [ng|e] eqn:Eg;
    [|discriminate].
  destruct (fancy_assign (repeat 0 (Z.to_nat n_nod_)) (vertices r) 1)
    as [mask|e]; [|discriminate].
  destruct (has_cells r).
  - match type of H with
    | context [mark_cells ?d ?r ?gs ?s0] =>
        destruct (mark_cells d r gs s0) as [s1|e] eqn:Em
    end; [|discriminate].
    inversion H. subst. destruct (mark_cells_keeps _ _ _ _ _ Em) as [H1 H2].
    simpl in H1, H2. split; [exact H2|]. split; [reflexivity|].
    split; [reflexivity|]. exists l, r. rewrite H1. auto.
  - inversion H. subst. simpl. split; [reflexivity|]. split; [reflexivity|].
    split; [reflexivity|]. exists l, r. auto.
Qed.




(** ** Two runs on the same materialized regions *)

Lemma agree_extend (s1 s2 n1 n2 : list Region) (l1 l2 : loc) :
  agree s1 s2 l1 l2 -> agree (s1 ++ n1) (s2 ++ n2) l1 l2.
Proof.
  intros [r [H1 H2]]. exists r. split.
  - rewrite lookup_app_l; [exact H1|]. apply lookup_lt_is_Some. eauto.
  - rewrite lookup_app_l; [exact H2|]. apply lookup_lt_is_Some. eauto.
Qed.

Lemma agree_new (s1 s2 : list Region) (r : Region) :
  agree (s1 ++ [r]) (s2 ++ [r]) (length s1) (length s2).
Proof. exists r. split; apply list_lookup_middle; reflexivity. Qed.

Lemma Forall2_agree_extend (s1 s2 n1 n2 : list Region) (rs1 rs2 : list loc) :
  Forall2 (agree s1 s2) rs1 rs2 ->
  Forall2 (agree (s1 ++ n1) (s2 ++ n2)) rs1 rs2.
Proof.
  intros H. induction H; constructor; [apply agree_extend|]; assumption.
Qed.

(** Lookups by name in two collections that agree. *)
Lemma find_sim (s1 s2 : list Region) (rs1 rs2 : list loc) (nm : string) :
  Forall2 (agree s1 s2) rs1 rs2 ->
  (OneTypeList.find_in s1 rs1 nm = Ok None
   /\ OneTypeList.find_in s2 rs2 nm = Ok None)
  \/ exists l1 l2 r,
       OneTypeList.find_in s1 rs1 nm = Ok (Some l1)
       /\ OneTypeList.find_in s2 rs2 nm = Ok (Some l2)
       /\ s1 !! l1 = Some r /\ s2 !! l2 = Some r.
Proof.
  intros H. induction H as [|l1 l2 rs1 rs2 [r [H1 H2]] _ IH]; simpl.
  - left. auto.
  - rewrite H1, H2. destruct (String.eqb (name r) nm).
    + right. exists l1, l2, r. auto.
    + exact IH.
Qed.

Lemma names_sim (s1 s2 : list Region) (rs1 rs2 : list loc) :
  Forall2 (agree s1 s2) rs1 rs2 ->
  OneTypeList.names_in s1 rs1 = OneTypeList.names_in s2 rs2.
Proof.
  intros H. induction H as [|l1 l2 rs1 rs2 [r [H1 H2]] _ IH]; simpl.
  - reflexivity.
  - rewrite H1, H2, IH. reflexivity.
Qed.

Lemma functions_item_respects (fns : option (gmap string UserFun))
    (key : string) (f : UserFun) :
  layout_independent fns ->
  functions_item fns key = Ok f ->
  forall c d rs, f c (set_regions rs d) = f c d.
Proof.
  intros Hli H. unfold functions_item in H.
  destruct fns as [fs|]; [|discriminate].
  destruct (fs !! key) as [g|] eqn:E; [|discriminate].
  inversion H. subst g. apply (Hli fs key f eq_refl E).
Qed.

Ltac simp_all :=
  cbv beta iota in *;
  cbn [dom store console mesh cmesh groups mat_ids_to_i_gs] in *.

(** One step of the comparison of two runs: lookups by name are resolved
    together, instances that agree are read together, user functions are
    given the same domain, and any other test is decided once for both. *)
Ltac sim_step s1 s2 R1 R2 HF Hf :=
  match goal with
  | H : (_, _) = (_, _) |- _ => inversion H; subst; clear H
  | H : Some _ = Some _ |- _ => inversion H; subst; clear H
  | H : Ok _ = Ok _ |- _ => inversion H; subst; clear H
  | H1 : context [OneTypeList.find_in s1 R1 ?nm] |- _ =>
      let Ea := fresh "Ea" in
      let Eb := fresh "Eb" in
      destruct (find_sim s1 s2 R1 R2 nm HF)
        as [[Ea Eb]|[? [? [? [Ea [Eb [? ?]]]]]]];
      rewrite ?Ea, ?Eb in *; clear Ea Eb; simp_all
  | Hl : ?s !! ?l = Some _, H : context [?s !! ?l] |- _ =>
      tryif constr_eq H Hl then fail else (rewrite Hl in H; simp_all)
  | Hfi : functions_item _ ?k = Ok ?f,
    H : context [?f ?c (mkDomain ?m ?cm ?n ?g ?i ?rs ?st ?b)] |- _ =>
      rewrite (Hf k f c Hfi) in H
  | H : context [match ?x with _ => _ end] |- _ =>
      destruct x eqn:?; simp_all
  end.

(** Two runs of a leaf on collections that agree have the same outcome. *)
Lemma region_leaf_sim (R1 R2 : list loc) (rdef : string)
    (fns : option (gmap string UserFun)) (level : nat) (op : Op)
    (w1 w2 : World) :
  same_setting w1 w2 ->
  Forall2 (agree (store w1) (store w2)) R1 R2 ->
  layout_independent fns ->
  same_outcome (region_leaf R1 rdef fns level op w1)
    (region_leaf R2 rdef fns level op w2).
Proof.
  destruct w1 as [s1 [m1 cm1 n1 g1 i1 rs1 st1 b1] c1].
  destruct w2 as [s2 [m2 cm2 n2 g2 i2 rs2 st2 b2] c2].
  unfold same_setting. simpl. intros Hs HF Hli.
  injection Hs as -> -> -> -> -> -> ->.
  assert (Hf : forall key f c,
             functions_item fns key = Ok f ->
             f c (mkDomain m2 cm2 n2 g2 i2 rs1 st2 b2)
             = f c (mkDomain m2 cm2 n2 g2 i2 rs2 st2 b2)).
  { intros key f c Hk.
    rewrite <- (functions_item_respects fns key f Hli Hk c
                  (mkDomain m2 cm2 n2 g2 i2 rs1 st2 b2) rs2).
    reflexivity. }
  unfold region_leaf, bind at 1 3, get_dom. cbv beta iota zeta.
  cbn [dom store console mesh cmesh groups mat_ids_to_i_gs].
  repeat match goal with
    | |- context [String.eqb (token op) ?t] =>
        destruct (String.eqb (token op) t); cbv iota
    end.
  all: match goal with
       | |- same_outcome (?m1 ?a) (?m2 ?b) =>
           let E1 := fresh "E1" in
           let E2 := fresh "E2" in
           destruct (m1 a) as [o1 w1'] eqn:E1;
           destruct (m2 b) as [o2 w2'] eqn:E2
       end.
  all: unfold OneTypeList.getitem, OneTypeList.find, Region_copy, ci2_cell,
         assert_, bind, get_dom, lift, deref, alloc, output, raise, ret in *.
  all: cbv beta iota zeta in *.
  all: cbn [dom store console mesh cmesh groups mat_ids_to_i_gs] in *.
  all: repeat sim_step s1 s2 R1 R2 HF Hf.
  all: unfold same_outcome; cbn [store set_store].
  all: first [reflexivity | apply agree_new | eexists; split; eassumption].
Qed.

(** Two runs of an operator on operands that agree have the same outcome. *)
Lemma region_op_sim (level : nat) (op_code : Op) (a1 b1 a2 b2 : loc)
    (w1 w2 : World) :
  agree (store w1) (store w2) a1 a2 ->
  agree (store w1) (store w2) b1 b2 ->
  same_outcome (region_op level op_code a1 b1 w1)
    (region_op level op_code a2 b2 w2).
Proof.
  destruct w1 as [s1 d1 c1]. destruct w2 as [s2 d2 c2]. cbn [store].
  intros [ra [Ha1 Ha2]] [rb [Hb1 Hb2]].
  destruct (region_op level op_code a1 b1 (mkWorld s1 d1 c1)) as [o1 w1']
    eqn:E1.
  destruct (region_op level op_code a2 b2 (mkWorld s2 d2 c2)) as [o2 w2']
    eqn:E2.
  unfold region_op, eval_op_vertices, eval_op_edges, eval_op_faces,
    eval_op_facets, eval_op_cells, eval_op, bind, lift, deref, alloc, raise,
    ret in E1, E2.
  cbv beta iota zeta in E1, E2. cbn [store] in E1, E2.
  repeat sim_step s1 s2 (@nil loc) (@nil loc) I I.
  all: unfold same_outcome; cbn [store set_store].
  all: first [reflexivity | apply agree_new | congruence].
Qed.

Lemma same_setting_stack (st : list Op) (w1 w2 : World) :
  same_setting w1 w2 ->
  same_setting (set_dom (set_region_stack st (dom w1)) w1)
    (set_dom (set_region_stack st (dom w2)) w2).
Proof.
  unfold same_setting. simpl. intros H.
  change (set_region_stack st (set_regions [] (dom w1))
          = set_region_stack st (set_regions [] (dom w2))).
  rewrite H. reflexivity.
Qed.

Lemma same_setting_dom (w1 w2 w1' w2' : World) :
  same_setting w1 w2 -> dom w1' = dom w1 -> dom w2' = dom w2 ->
  same_setting w1' w2'.
Proof. unfold same_setting. intros H -> ->. exact H. Qed.

(** What a visitor leaves: the domain, and a store that has only grown. *)
Lemma region_leaf_grows (regions_ : list loc) (rdef : string)
    (functions : option (gmap string UserFun)) (level : nat) (op : Op)
    (w : World) (out : result loc) (w' : World) :
  region_leaf regions_ rdef functions level op w = (out, w') ->
  dom w' = dom w /\ exists news, store w' = (store w ++ news)%list.
Proof.
  intros H. destruct (region_leaf_effect _ _ _ _ _ _ _ _ H) as [Hd Ho].
  split; [exact Hd|]. destruct out as [l|e].
  - destruct Ho as [[r [_ Hs]]|[_ [Hs _]]].
    + exists [r]. exact Hs.
    + exists []. rewrite app_nil_r. exact Hs.
  - exists []. rewrite app_nil_r. exact Ho.
Qed.

Lemma region_op_grows (level : nat) (op_code : Op) (item1 item2 : loc)
    (w : World) (out : result loc) (w' : World) :
  region_op level op_code item1 item2 w = (out, w') ->
  dom w' = dom w /\ exists news, store w' = (store w ++ news)%list.
Proof.
  intros H. destruct (region_op_effect _ _ _ _ _ _ _ H) as [Hd Ho].
  split; [exact Hd|]. destruct out as [l|e].
  - destruct Ho as [r [_ Hs]]. exists [r]. exact Hs.
  - exists []. rewrite app_nil_r. exact Ho.
Qed.

Lemma replay_cons (op_visitor : nat -> Op -> loc -> loc -> M loc)
    (leaf_visitor : nat -> Op -> M loc) (op : Op) (toks : list Op)
    (operands : list loc) (w : World) :
  replay op_visitor leaf_visitor (op :: toks) operands w
  = (if is_operator op then
       match operands with
       | item2 :: item1 :: rest =>
           let* r := op_visitor (length rest) op item1 item2 in
           replay op_visitor leaf_visitor toks (r :: rest)
       | _ => raise malformed
       end
     else
       let* r := leaf_visitor (length operands) op in
       replay op_visitor leaf_visitor toks (r :: operands))
      (set_dom (set_region_stack toks (dom w)) w).
Proof. reflexivity. Qed.

(** Two replays of the same tokens, on collections and operand stacks that
    agree, have the same outcome. *)
Lemma replay_sim (R1 R2 : list loc) (rdef : string)
    (fns : option (gmap string UserFun)) (toks : list Op) :
  layout_independent fns ->
  forall (ops1 ops2 : list loc) (w1 w2 : World),
    same_setting w1 w2 ->
    Forall2 (agree (store w1) (store w2)) R1 R2 ->
    Forall2 (agree (store w1) (store w2)) ops1 ops2 ->
    same_outcome (replay region_op (region_leaf R1 rdef fns) toks ops1 w1)
      (replay region_op (region_leaf R2 rdef fns) toks ops2 w2).
Proof.
  intros Hli. induction toks as [|op toks IH]; intros ops1 ops2 w1 w2 Hs HR Ho.
  - simpl. destruct Ho as [|a1 a2 l1 l2 Ha Ho]; [reflexivity|].
    destruct Ho; [exact Ha|reflexivity].
  - rewrite !replay_cons.
    pose proof (same_setting_stack toks w1 w2 Hs) as Hs'.
    set (v1 := set_dom (set_region_stack toks (dom w1)) w1) in *.
    set (v2 := set_dom (set_region_stack toks (dom w2)) w2) in *.
    change (store w1) with (store v1) in HR, Ho.
    change (store w2) with (store v2) in HR, Ho.
    clearbody v1 v2. clear w1 w2 Hs.
    destruct (is_operator op).
    + destruct Ho as [|b1 b2 l1 l2 Hb Ho]; [reflexivity|].
      destruct Ho as [|a1 a2 l1 l2 Ha Ho]; [reflexivity|].
      unfold bind.
      pose proof (Forall2_length _ _ _ Ho) as Hlen. rewrite <- Hlen.
      pose proof (region_op_sim (length l1) op a1 b1 a2 b2 v1 v2 Ha Hb) as Hsim.
      destruct (region_op (length l1) op a1 b1 v1) as [o1 u1] eqn:E1.
      destruct (region_op (length l1) op a2 b2 v2) as [o2 u2] eqn:E2.
      destruct (region_op_grows _ _ _ _ _ _ _ E1) as [Hd1 [n1 Hn1]].
      destruct (region_op_grows _ _ _ _ _ _ _ E2) as [Hd2 [n2 Hn2]].
      destruct o1 as [r1|e1], o2 as [r2|e2]; simpl in Hsim;
        try contradiction; [|exact Hsim].
      apply IH.
      * apply (same_setting_dom v1 v2); assumption.
      * rewrite Hn1, Hn2. apply Forall2_agree_extend. exact HR.
      * constructor; [exact Hsim|].
        rewrite Hn1, Hn2. apply Forall2_agree_extend. exact Ho.
    + unfold bind.
      pose proof (Forall2_length _ _ _ Ho) as Hlen. rewrite <- Hlen.
      pose proof (region_leaf_sim R1 R2 rdef fns (length ops1) op v1 v2
                    Hs' HR Hli) as Hsim.
      destruct (region_leaf R1 rdef fns (length ops1) op v1) as [o1 u1] eqn:E1.
      destruct (region_leaf R2 rdef fns (length ops1) op v2) as [o2 u2] eqn:E2.
      destruct (region_leaf_grows _ _ _ _ _ _ _ _ E1) as [Hd1 [n1 Hn1]].
      destruct (region_leaf_grows _ _ _ _ _ _ _ _ E2) as [Hd2 [n2 Hn2]].
      destruct o1 as [r1|e1], o2 as [r2|e2]; simpl in Hsim;
        try contradiction; [|exact Hsim].
      apply IH.
      * apply (same_setting_dom v1 v2); assumption.
      * rewrite Hn1, Hn2. apply Forall2_agree_extend. exact HR.
      * constructor; [exact Hsim|].
        rewrite Hn1, Hn2. apply Forall2_agree_extend. exact Ho.
Qed.

Lemma check_parents_loop_sim (name_ : string) (parents : list string)
    (w1 w2 : World) :
  OneTypeList.names_in (store w1) (regions (dom w1))
  = OneTypeList.names_in (store w2) (regions (dom w2)) ->
  fst (check_parents_loop name_ parents w1)
  = fst (check_parents_loop name_ parents w2).
Proof.
  intros Hn. induction parents as [|p ps IH]; [reflexivity|].
  simpl. unfold bind, get_dom, OneTypeList.get_names. rewrite Hn.
  destruct (OneTypeList.names_in (store w2) (regions (dom w2))) as [ns|e];
    [|reflexivity].
  destruct (existsb (String.eqb p) ns); [exact IH|reflexivity].
Qed.

Lemma try_parse_run (select : string) (w : World) :
  try_parse select w
  = match _bnf (dom w) select with
    | Some toks =>
        (Ok tt,
         set_dom (set_region_stack (_region_stack (dom w) ++ toks) (dom w)) w)
    | None =>
        (Raise (ParseException select),
         mkWorld (store w) (dom w)
           (console w ++ ["parsing failed: " +:+ select]))
    end.
Proof.
  unfold try_parse, parseString, bind, get_dom, modify_dom, raise, output.
  destruct (_bnf (dom w) select); reflexivity.
Qed.

Lemma visit_stack_run (op_visitor : nat -> Op -> loc -> loc -> M loc)
    (leaf_visitor : nat -> Op -> M loc) (w : World) :
  visit_stack op_visitor leaf_visitor w
  = replay op_visitor leaf_visitor (_region_stack (dom w)) [] w.
Proof. reflexivity. Qed.

(** The steps of [create_region], one after the other. *)
Lemma create_region_run (name_ select : string) (kind_ : Kind)
    (parent_ : option string) (check_parents : bool)
    (fns : option (gmap string UserFun)) (add_to_regions : bool) (w : World) :
  create_region name_ select kind_ parent_ check_parents fns add_to_regions w
  = match (if check_parents
           then check_parents_loop name_ (get_parents select)
           else ret tt) w with
    | (Raise e, w0) => (Raise e, w0)
    | (Ok _, w0) =>
        match try_parse select w0 with
        | (Raise e, w1) => (Raise e, w1)
        | (Ok _, w1) =>
            match visit_stack region_op
                    (region_leaf (regions (dom w1)) select fns) w1 with
            | (Raise e, w3) => (Raise e, w3)
            | (Ok region, w3) =>
                (let* _ := update region (set_name name_) in
                 let* _ := update region (set_definition select) in
                 let* _ := update region (set_kind kind_) in
                 let* _ := update region (set_parent parent_) in
                 let* _ := update region update_shape in
                 let* _ := (if add_to_regions
                            then modify_dom
                                   (fun d => set_regions (regions d ++ [region]) d)
                            else ret tt) in
                 ret region) w3
            end
        end
    end.
Proof.
  unfold create_region. unfold bind at 1.
  destruct ((if check_parents
             then check_parents_loop name_ (get_parents select)
             else ret tt) w) as [[u|e] w0]; [|reflexivity].
  unfold bind at 1. destruct (try_parse select w0) as [[u'|e] w1];
    [|reflexivity].
  unfold bind at 1, get_dom at 1. cbv beta iota. unfold bind at 1.
  destruct (visit_stack region_op (region_leaf (regions (dom w1)) select fns) w1)
    as [[l|e] w3]; reflexivity.
Qed.

(** C8.  Two runs of [create_region] with the same arguments, on two
    worlds with the same domain settings and the same materialized regions
    (the instances may lie elsewhere in the store, next to others), with
    user functions that do not look at the locations of the instances,
    end alike: both raise the same error, or both return regions with the
    same attributes, in particular with equal vertex, edge, face, facet and
    cell sets. *)
Theorem create_region_deterministic (name_ select : string) (kind_ : Kind)
    (parent_ : option string) (check_parents : bool)
    (fns : option (gmap string UserFun)) (add_to_regions : bool)
    (w1 w2 : World) :
  same_setting w1 w2 ->
  same_regions w1 w2 ->
  layout_independent fns ->
  match
    create_region name_ select kind_ parent_ check_parents fns
      add_to_regions w1,
    create_region name_ select kind_ parent_ check_parents fns
      add_to_regions w2
  with
  | (Ok l1, w1'), (Ok l2, w2') =>
      exists r1 r2,
        store w1' !! l1 = Some r1 /\ store w2' !! l2 = Some r2
        /\ r1 = r2 /\ same_entities r1 r2
  | (Raise e1, _), (Raise e2, _) => e1 = e2
  | _, _ => False
  end.
Proof.
  intros Hs HR Hli. rewrite !create_region_run.
  assert (Hcp : exists o,
             (if check_parents
              then check_parents_loop name_ (get_parents select)
              else ret tt) w1 = (o, w1)
             /\ (if check_parents
                 then check_parents_loop name_ (get_parents select)
                 else ret tt) w2 = (o, w2)).
  { destruct check_parents; [|exists (Ok tt); split; reflexivity].
    pose proof (check_parents_loop_sim name_ (get_parents select) w1 w2
                  (names_sim _ _ _ _ HR)) as Hfst.
    pose proof (check_parents_loop_world name_ (get_parents select) w1) as Hw1.
    pose proof (check_parents_loop_world name_ (get_parents select) w2) as Hw2.
    destruct (check_parents_loop name_ (get_parents select) w1) as [o1 u1].
    destruct (check_parents_loop name_ (get_parents select) w2) as [o2 u2].
    simpl in Hfst, Hw1, Hw2. subst. exists o2. split; reflexivity. }
  destruct Hcp as [o [-> ->]]. destruct o as [[]|e]; [|reflexivity].
  rewrite !try_parse_run.
  assert (Hbnf : _bnf (dom w1) = _bnf (dom w2))
    by (apply (f_equal _bnf Hs)).
  assert (Hstack : _region_stack (dom w1) = _region_stack (dom w2))
    by (apply (f_equal _region_stack Hs)).
  rewrite Hbnf, Hstack.
  destruct (_bnf (dom w2) select) as [toks|]; [|reflexivity].
  set (st := (_region_stack (dom w2) ++ toks)%list).
  rewrite !visit_stack_run.
  change (_region_stack (dom (set_dom (set_region_stack st (dom w1)) w1)))
    with st.
  change (_region_stack (dom (set_dom (set_region_stack st (dom w2)) w2)))
    with st.
  change (regions (dom (set_dom (set_region_stack st (dom w1)) w1)))
    with (regions (dom w1)).
  change (regions (dom (set_dom (set_region_stack st (dom w2)) w2)))
    with (regions (dom w2)).
  pose proof (replay_sim (regions (dom w1)) (regions (dom w2)) select fns st
                Hli [] []
                (set_dom (set_region_stack st (dom w1)) w1)
                (set_dom (set_region_stack st (dom w2)) w2)
                (same_setting_stack st w1 w2 Hs) HR (Forall2_nil_2 _ _ _)) as Hsim.
  destruct (replay region_op (region_leaf (regions (dom w1)) select fns) st []
              (set_dom (set_region_stack st (dom w1)) w1)) as [o1 u1].
  destruct (replay region_op (region_leaf (regions (dom w2)) select fns) st []
              (set_dom (set_region_stack st (dom w2)) w2)) as [o2 u2].
  destruct o1 as [l1|e1], o2 as [l2|e2]; simpl in Hsim; try contradiction;
    [|exact Hsim].
  destruct Hsim as [r [H1 H2]].
  rewrite (create_region_finish _ _ _ _ _ _ _ _ H1).
  rewrite (create_region_finish _ _ _ _ _ _ _ _ H2).
  eexists _, _. simpl store. split.
  - apply list_lookup_insert_eq. apply lookup_lt_is_Some. eauto.
  - split; [apply list_lookup_insert_eq; apply lookup_lt_is_Some; eauto|].
    split; [reflexivity|]. repeat split; reflexivity.
Qed.

Lemma create_region_deterministic_witness :
  match
    create_region "D" "r.R1 -v r.R2" vertex None true None true world_B,
    create_region "D" "r.R1 -v r.R2" vertex None true None true world_B'
  with
  | (Ok l1, w1'), (Ok l2, w2') =>
      exists r1 r2,
        store w1' !! l1 = Some r1 /\ store w2' !! l2 = Some r2
        /\ r1 = r2 /\ same_entities r1 r2
  | (Raise e1, _), (Raise e2, _) => e1 = e2
  | _, _ => False
  end.
Proof.
  apply (create_region_deterministic "D" "r.R1 -v r.R2" vertex None true None
           true world_B world_B').
  - reflexivity.
  - repeat constructor; eexists; split; reflexivity.
  - intros fs key f H. discriminate H.
Defined.

(** ** The worlds of the scenarios are the worlds that the runs leave *)

Lemma scenario_B_world :
  store (after scenario_B world4) = store world_B
  /\ regions (dom (after scenario_B world4)) = regions (dom world_B)
  /\ console (after scenario_B world4) = console world_B.
Proof. repeat split; vm_compute; reflexivity. Qed.

Lemma scenario_Omega_world :
  store (after (create_region "Omega" "all" cell None true None true) world_B)
  = store world_Omega
  /\ regions (dom (after (create_region "Omega" "all" cell None true None true)
                     world_B))
     = regions (dom world_Omega).
Proof. repeat split; vm_compute; reflexivity. Qed.

(** * Further properties of the module *)

(** ** Operator tokens that [region_op] rejects *)

Lemma get_short (n : nat) (s : string) :
  (String.length s <= n)%nat -> String.get n s = None.
Proof.
  revert n. induction s as [|c s IH]; intros n H; [reflexivity|].
  destruct n as [|n]; simpl in *; [lia|]. apply IH. lia.
Qed.

(** X1.  [region_op] rejects a token it cannot decode and leaves the world as
    it was, whatever the operands are: a token of fewer than four characters
    is an [IndexError], a fourth character other than [S], [A] and [I] is a
    [KeyError] of that character, and a last character other than [V], [E],
    [F], [S] and [C] is the error that names the token. *)
Theorem region_op_rejects (level : nat) (op_code : Op) (item1 item2 : loc)
    (w : World) :
  ((String.length (token op_code) <= 3)%nat ->
   region_op level op_code item1 item2 w
   = (Raise (IndexError "string index out of range"), w))
  /\ (forall c3,
         String.get 3 (token op_code) = Some c3 ->
         combinator_of c3 = None ->
         region_op level op_code item1 item2 w
         = (Raise (KeyError (String c3 EmptyString)), w))
  /\ (forall c3 c sfx,
         String.get 3 (token op_code) = Some c3 ->
         combinator_of c3 = Some c ->
         Py.last (token op_code) = Ok sfx ->
         target_kind sfx = None ->
         region_op level op_code item1 item2 w
         = (Raise (unknown_operator (token op_code)), w)).
Proof.
  split; [|split].
  - intros Hlen. unfold region_op, bind, lift, Py.index.
    rewrite (get_short _ _ Hlen). reflexivity.
  - intros c3 H3 Hc. unfold region_op, bind, lift, Py.index. rewrite H3.
    unfold combinator_of in Hc.
    destruct (Ascii.eqb c3 "S"); [discriminate|].
    destruct (Ascii.eqb c3 "A"); [discriminate|].
    destruct (Ascii.eqb c3 "I"); [discriminate|reflexivity].
  - intros c3 c sfx H3 Hc Hl Hk. unfold region_op, bind, lift, Py.index.
    rewrite H3. unfold combinator_of in Hc. unfold target_kind in Hk.
    assert (Hop : exists o,
      (if Ascii.eqb c3 "S" then ret "-"%char
       else if Ascii.eqb c3 "A" then ret "+"%char
       else if Ascii.eqb c3 "I" then ret "*"%char
       else raise (KeyError (String c3 EmptyString))) w = (Ok o, w)).
    { destruct (Ascii.eqb c3 "S"); [eexists; reflexivity|].
      destruct (Ascii.eqb c3 "A"); [eexists; reflexivity|].
      destruct (Ascii.eqb c3 "I"); [eexists; reflexivity|discriminate]. }
    destruct Hop as [o Hop]. rewrite Hop, Hl.
    destruct (Ascii.eqb sfx "V"); [discriminate|].
    destruct (Ascii.eqb sfx "E"); [discriminate|].
    destruct (Ascii.eqb sfx "F"); [discriminate|].
    destruct (Ascii.eqb sfx "S"); [discriminate|].
    destruct (Ascii.eqb sfx "C"); [discriminate|reflexivity].
Qed.

Lemma region_op_rejects_witness :
  region_op 0 (mkOp "OA_SubX" []) 0%nat 1%nat world_R12
  = (Raise (unknown_operator "OA_SubX"), world_R12).
Proof.
  apply (proj2 (proj2 (region_op_rejects 0 (mkOp "OA_SubX" []) 0%nat 1%nat
                         world_R12)) "S"%char subtract "X"%char);
    reflexivity.
Defined.

(** ** Leaves of [region_leaf] *)






Lemma where_from_In (mask : list bool) :
  forall i v,
    In v (Np.where_from i mask)
    <-> exists k : nat, v = i + Z.of_nat k /\ mask !! k = Some true.
Proof.
  induction mask as [|b m IH]; intros i v; simpl.
  - split; [intros []|intros [k [_ Hk]]; destruct k; discriminate].
  - assert (Hrec : In v (Np.where_from (i + 1) m)
                   <-> exists k : nat, v = i + Z.of_nat (S k)
                                       /\ m !! k = Some true).
    { rewrite IH. split; intros [k [Hv Hk]]; exists k; split; auto; lia. }
    destruct b; simpl; rewrite Hrec; split.
    + intros [<-|[k [Hv Hk]]]; [exists 0%nat; split; [lia|reflexivity]|].
      exists (S k). auto.
    + intros [[|k] [Hv Hk]]; [left; lia|right; exists k; auto].
    + intros [k [Hv Hk]]. exists (S k). auto.
    + intros [[|k] [Hv Hk]]; [discriminate|exists k; auto].
Qed.

Lemma where_from_increasing (mask : list bool) :
  forall i, increasing (Np.where_from i mask).
Proof.
  induction mask as [|b m IH]; intros i; simpl; [exact I|].
  destruct b; [|apply IH]. simpl. split; [|apply IH].
  intros y Hy. apply where_from_In in Hy as [k [-> _]]. lia.
Qed.

Lemma lookup_map_eqb (g : Z) (l : list Z) :
  forall k : nat, map (Z.eqb g) l !! k = Some true <-> l !! k = Some g.
Proof.
  induction l as [|x l IH]; intros [|k]; simpl; try (split; discriminate).
  - destruct (Z.eqb_spec g x) as [->|Hne]; split; intros H;
      try reflexivity; try discriminate.
    inversion H. congruence.
  - apply IH.
Qed.

(** X3.  The leaf [vertices of group N] never fails on a group id: its
    region holds, in increasing order, exactly the indices of the vertices
    whose node group is [N], and so is empty for a group that no vertex
    has. *)
Theorem vertices_of_group (regions_ : list loc) (rdef : string)
    (functions : option (gmap string UserFun)) (level : nat) (op : Op)
    (w : World) (d3 : string) (g : Z) :
  token op = "E_VOG" ->
  orig op !! 3%nat = Some d3 ->
  Py.int d3 = Ok g ->
  exists vs,
    region_leaf regions_ rdef functions level op w
    = (Ok (length (store w)),
       with_new (set_vertices vs (leaf_region rdef op)) w)
    /\ increasing vs
    /\ forall v, In v vs
                 <-> exists k : nat,
                       v = Z.of_nat k
                       /\ ngroups (mesh (dom w)) !! k = Some g.
Proof.
  intros Htok Hd Hg.
  exists (Np.where_ (map (Z.eqb g) (ngroups (mesh (dom w))))).
  split; [|split].
  - unfold with_new, leaf_region, region_leaf, bind, get_dom, lift,
      PyList.item, alloc.
    rewrite Htok, Hd. token_tests. rewrite Hg. reflexivity.
  - apply where_from_increasing.
  - intros v. unfold Np.where_. rewrite where_from_In.
    split; intros [k [Hv Hk]]; exists k; (split; [lia|]);
      apply lookup_map_eqb; exact Hk.
Qed.

Lemma vertices_of_group_witness :
  exists vs,
    region_leaf [] "vertices of group 0" None 0
      (mkOp "E_VOG" ["vertices"; "of"; "group"; "0"]) world4
    = (Ok (length (store world4)),
       with_new
         (set_vertices vs
            (leaf_region "vertices of group 0"
               (mkOp "E_VOG" ["vertices"; "of"; "group"; "0"]))) world4)
    /\ increasing vs
    /\ forall v, In v vs
                 <-> exists k : nat,
                       v = Z.of_nat k
                       /\ ngroups (mesh (dom world4)) !! k = Some 0.
Proof.
  apply (vertices_of_group [] "vertices of group 0" None 0
           (mkOp "E_VOG" ["vertices"; "of"; "group"; "0"]) world4 "0" 0);
    reflexivity.
Defined.



Lemma arange_map_In (off n c : Z) :
  0 <= n <= 4294967296 ->
  In c (map (Z.add off) (Np.arange n)) <-> off <= c < off + n.
Proof.
  intros Hn. rewrite in_map_iff. split.
  - intros [i [<- Hi]]. apply arange_In in Hi; lia.
  - intros Hc. exists (c - off). split; [lia|]. apply arange_In; lia.
Qed.

Lemma increasing_map_add (off : Z) (l : list Z) :
  increasing l -> increasing (map (Z.add off) l).
Proof.
  induction l as [|x l IH]; simpl; [auto|]. intros [Hx Hl].
  split; [|apply IH, Hl]. intros y Hy.
  apply in_map_iff in Hy as [z [<- Hz]]. specialize (Hx z Hz). lia.
Qed.

(** X5.  The leaf [cells of group N] looks the material id [N] up in
    [mat_ids_to_i_gs]: an id that no group has is a [KeyError] and nothing
    is created; for the id of the group [ig] the region holds exactly the
    cells [off <= c < off + n_el], in increasing order, where [off] is the
    cell offset of the group and [n_el] its number of cells. *)
Theorem cells_of_group (regions_ : list loc) (rdef : string)
    (functions : option (gmap string UserFun)) (level : nat) (op : Op)
    (w : World) (d3 : string) (g : Z) :
  token op = "E_COG" ->
  orig op !! 3%nat = Some d3 ->
  Py.int d3 = Ok g ->
  (mat_ids_to_i_gs (dom w) !! g = None ->
   region_leaf regions_ rdef functions level op w = (Raise (KeyError d3), w))
  /\ (forall ig_ grp off,
        mat_ids_to_i_gs (dom w) !! g = Some ig_ ->
        groups (dom w) !! ig_ = Some grp ->
        PyList.item_Z (el_offsets (mesh (dom w))) ig_ = Ok off ->
        0 <= n_el grp <= 4294967296 ->
        exists cs,
          region_leaf regions_ rdef functions level op w
          = (Ok (length (store w)),
             with_new (set_cells cs (leaf_region rdef op)) w)
          /\ increasing cs
          /\ forall c, In c cs <-> off <= c < off + n_el grp).
Proof.
  intros Htok Hd Hg. split.
  - intros Hm.
    unfold region_leaf, bind, get_dom, lift, PyList.item, dict_item_Z.
    rewrite Htok, Hd. token_tests. rewrite Hg. cbv beta iota. rewrite Hm.
    reflexivity.
  - intros ig_ grp off Hm Hgr Hoff Hn.
    exists (map (Z.add off) (Np.arange (n_el grp))). split; [|split].
    + unfold with_new, leaf_region, region_leaf, bind, get_dom, lift,
        PyList.item, dict_item_Z, alloc.
      rewrite Htok, Hd. token_tests. rewrite Hg. cbv beta iota.
      rewrite Hm. cbv beta iota. rewrite Hgr. cbv beta iota. rewrite Hoff.
      reflexivity.
    + apply increasing_map_add, arange_increasing. lia.
    + intros c. apply arange_map_In. exact Hn.
Qed.

Lemma cells_of_group_witness :
  exists cs,
    region_leaf [] "cells of group 0" None 0
      (mkOp "E_COG" ["cells"; "of"; "group"; "0"]) world4
    = (Ok (length (store world4)),
       with_new
         (set_cells cs
            (leaf_region "cells of group 0"
               (mkOp "E_COG" ["cells"; "of"; "group"; "0"]))) world4)
    /\ increasing cs
    /\ forall c, In c cs <-> 0 <= c < 0 + 1.
Proof.
  apply (proj2 (cells_of_group [] "cells of group 0" None 0
                  (mkOp "E_COG" ["cells"; "of"; "group"; "0"]) world4 "0" 0
                  eq_refl eq_refl eq_refl) 0 (mkGroup 0 1) 0);
    try reflexivity.
  vm_compute. split; discriminate.
Defined.



Lemma map_result_seq {A B : Type} (f : nat -> result B) (g : A -> result B)
    (l : list A) :
  forall s : nat,
    (forall i x, l !! i = Some x -> f (s + i)%nat = g x) ->
    Py.map_result f (seq s (length l)) = Py.map_result g l.
Proof.
  induction l as [|x l IH]; intros s H; simpl; [reflexivity|].
  rewrite <- (H 0%nat x eq_refl), Nat.add_0_r.
  destruct (f s); [|reflexivity].
  rewrite (IH (S s)); [reflexivity|].
  intros i y Hy. rewrite <- (H (S i) y Hy). f_equal. lia.
Qed.

Lemma pair_words_length (pairs : list (string * string)) :
  length (pair_words pairs) = (2 * length pairs)%nat.
Proof.
  induction pairs as [|p ps IH]; [reflexivity|].
  change (length (pair_words (p :: ps)))
    with (S (S (length (pair_words ps)))).
  rewrite IH. simpl. lia.
Qed.

Lemma pair_words_lookup (pairs : list (string * string)) (rest : list string) :
  forall i p,
    pairs !! i = Some p ->
    (pair_words pairs ++ rest)%list !! (2 * i)%nat = Some (fst p)
    /\ (pair_words pairs ++ rest)%list !! (1 + 2 * i)%nat = Some (snd p).
Proof.
  induction pairs as [|q ps IH]; intros [|i] p H; simpl in H; try discriminate.
  - inversion H. subst. split; reflexivity.
  - destruct (IH i p H) as [H1 H2].
    replace (2 * S i)%nat with (S (S (2 * i))) by lia.
    replace (1 + S (S (2 * i)))%nat with (S (S (1 + 2 * i))) by lia.
    split; [exact H1|exact H2].
Qed.

(** X7.  The leaf [cell ig iel ig iel ...] reads its words in pairs: the
    region holds, for each pair in the order written, the cell
    [iel + el_offsets[ig]], unsorted and with repetitions kept; the first
    pair that is not a pair of integers of an existing group is the error
    of the leaf; a last word without a partner is ignored, whatever it
    is. *)
Theorem cells_by_group_pairs (regions_ : list loc) (rdef : string)
    (functions : option (gmap string UserFun)) (level : nat) (op : Op)
    (w : World) (kw : string) (pairs : list (string * string))
    (rest : list string) :
  token op = "E_CI2" ->
  orig op = (kw :: pair_words pairs ++ rest)%list ->
  (length rest <= 1)%nat ->
  region_leaf regions_ rdef functions level op w
  = match Py.map_result (pair_cell (dom w)) pairs with
    | Ok cs => (Ok (length (store w)),
                with_new (set_cells cs (leaf_region rdef op)) w)
    | Raise e => (Raise e, w)
    end.
Proof.
  intros Htok Hd Hrest.
  unfold with_new, leaf_region, region_leaf, bind, get_dom, lift, alloc.
  rewrite Htok. token_tests. rewrite Hd.
  change (skipn 1 (kw :: pair_words pairs ++ rest)%list)
    with (pair_words pairs ++ rest)%list.
  assert (Hnum : (length (pair_words pairs ++ rest) / 2)%nat = length pairs).
  { rewrite length_app, pair_words_length.
    destruct rest as [|x [|y rest]]; simpl in Hrest; simpl length; try lia.
    - rewrite Nat.add_0_r, Nat.mul_comm. apply Nat.div_mul. lia.
    - rewrite Nat.mul_comm. rewrite Nat.div_add_l by lia. simpl. lia. }
  rewrite Hnum.
  rewrite (map_result_seq _ (pair_cell (dom w)) pairs 0).
  - destruct (Py.map_result (pair_cell (dom w)) pairs); reflexivity.
  - intros i p Hp. destruct (pair_words_lookup pairs rest i p Hp) as [H1 H2].
    change (0 + i)%nat with i.
    assert (Ha : (kw :: pair_words pairs ++ rest)%list !! (1 + 2 * i)%nat
                 = Some (fst p)) by exact H1.
    assert (Hb : (kw :: pair_words pairs ++ rest)%list !! (2 + 2 * i)%nat
                 = Some (snd p)) by exact H2.
    unfold ci2_cell, pair_cell, PyList.item. rewrite Ha, Hb. reflexivity.
Qed.

Lemma cells_by_group_pairs_witness :
  region_leaf [] "cell 0 0 x" None 0
    (mkOp "E_CI2" ["cell"; "0"; "0"; "x"]) world4
  = match Py.map_result (pair_cell (dom world4)) [("0", "0")] with
    | Ok cs =>
        (Ok (length (store world4)),
         with_new
           (set_cells cs
              (leaf_region "cell 0 0 x"
                 (mkOp "E_CI2" ["cell"; "0"; "0"; "x"]))) world4)
    | Raise e => (Raise e, world4)
    end.
Proof.
  apply (cells_by_group_pairs [] "cell 0 0 x" None 0
           (mkOp "E_CI2" ["cell"; "0"; "0"; "x"]) world4 "cell"
           [("0", "0")] ["x"]); [reflexivity|reflexivity|simpl; lia].
Defined.

Lemma eqb_not_In (x : string) (l : list string) :
  ~ In x l -> Forall (fun t => String.eqb x t = false) l.
Proof.
  intros H. apply List.Forall_forall. intros t Ht. apply String.eqb_neq.
  intros ->. exact (H Ht).
Qed.

(** X8.  A token that is none of the fourteen leaf tokens creates nothing:
    [region_leaf] writes the line that names the token to the console and
    raises [NotImplementedError]. *)
Theorem unknown_leaf_token (regions_ : list loc) (rdef : string)
    (functions : option (gmap string UserFun)) (level : nat) (op : Op)
    (w : World) :
  ~ In (token op) leaf_tokens ->
  region_leaf regions_ rdef functions level op w
  = (Raise (NotImplementedError ""),
     mkWorld (store w) (dom w)
       (console w ++ [unknown_token_line (token op)])%list).
Proof.
  intros H. apply eqb_not_In in H. unfold leaf_tokens in H.
  repeat match goal with
         | H : Forall _ (_ :: _) |- _ =>
             let E := fresh "E" in
             apply Forall_cons in H as [E H]
         end.
  unfold region_leaf, unknown_token_line, bind, get_dom, output, raise.
  cbv beta iota zeta.
  repeat match goal with
         | E : String.eqb (token op) _ = false |- _ => rewrite E; clear E
         end.
  reflexivity.
Qed.

Lemma unknown_leaf_token_witness :
  region_leaf [] "x" None 0 (mkOp "E_XYZ" ["x"]) world4
  = (Raise (NotImplementedError ""),
     mkWorld (store world4) (dom world4)
       (console world4 ++ [unknown_token_line "E_XYZ"])%list).
Proof.
  apply (unknown_leaf_token [] "x" None 0 (mkOp "E_XYZ" ["x"]) world4).
  intros H. simpl in H.
  repeat (destruct H as [H|H]; [discriminate H|]). exact H.
Defined.

(** X9.  Every leaf other than a named reference leaves the domain and the
    instances of the store as they are.  When it succeeds, its region is a
    new instance at the next free location, called [leaf], with the
    selection text as its definition, no parent, no edges and no faces,
    shape counts that are not yet computed, and the kind [cell], or [facet]
    for [vertices of surface]; the console is as it was.  When it fails
    nothing is allocated, and the console is as it was unless the token is
    unknown. *)
Theorem leaf_outcome (regions_ : list loc) (rdef : string)
    (functions : option (gmap string UserFun)) (level : nat) (op : Op)
    (w : World) (out : result loc) (w' : World) :
  token op <> "KW_Region" ->
  region_leaf regions_ rdef functions level op w = (out, w') ->
  dom w' = dom w
  /\ match out with
     | Ok l =>
         l = length (store w)
         /\ console w' = console w
         /\ exists r,
              store w' = (store w ++ [r])%list
              /\ name r = "leaf" /\ definition r = rdef
              /\ parse_def r
                 = token op +:+ "<" +:+ Py.join " " (orig op) +:+ ">"
              /\ parent r = None /\ edges r = [] /\ faces r = []
              /\ shape r = mkShape 0 0 0 0 0
              /\ kind r = (if String.eqb (token op) "E_VOS" then facet
                           else cell)
     | Raise e =>
         store w' = store w
         /\ (console w' = console w
             \/ (~ In (token op) leaf_tokens
                 /\ console w' = (console w ++ [unknown_token_line (token op)])%list))
     end.
Proof.
  intros Hne H.
  destruct (String.eqb (token op) "KW_Region") eqn:E0;
    [apply String.eqb_eq in E0; contradiction|].
  unfold region_leaf in H. cbv beta iota zeta in H. rewrite E0 in H.
  repeat match type of H with
         | context [String.eqb (token op) ?t] =>
             let E := fresh "E" in
             destruct (String.eqb (token op) t) eqn:E
         end;
    try match goal with
        | E : String.eqb (token op) _ = true |- _ =>
            apply String.eqb_eq in E; rewrite E in *
        end;
    try token_tests;
    unfold OneTypeList.getitem, OneTypeList.find, assert_, bind, get_dom,
      lift, deref, alloc, output, raise, ret in H;
    cbv beta iota zeta in H;
    repeat break_match;
    (split; [reflexivity|]); simpl;
    try (split; [reflexivity|]); try (left; reflexivity);
    try (split; [reflexivity|]);
    try (eexists; split; [reflexivity|]; simpl;
         repeat (split; [reflexivity|]); reflexivity).
  right. split; [|reflexivity].
  intros Hin. simpl in Hin.
  repeat match goal with
         | E : String.eqb (token op) _ = false |- _ =>
             apply String.eqb_neq in E
         end.
  repeat (destruct Hin as [Hin|Hin]; [symmetry in Hin; contradiction|]).
  exact Hin.
Qed.

Lemma leaf_outcome_witness :
  dom (after (region_leaf [] "all" None 0 (mkOp "KW_All" ["all"])) world4)
  = dom world4
  /\ length (store world4) = length (store world4)
     /\ console (after (region_leaf [] "all" None 0 (mkOp "KW_All" ["all"]))
                   world4) = console world4
     /\ exists r,
          store (after (region_leaf [] "all" None 0 (mkOp "KW_All" ["all"]))
                   world4) = (store world4 ++ [r])%list
          /\ name r = "leaf" /\ definition r = "all"
          /\ parse_def r = "KW_All" +:+ "<" +:+ Py.join " " ["all"] +:+ ">"
          /\ parent r = None /\ edges r = [] /\ faces r = []
          /\ shape r = mkShape 0 0 0 0 0
          /\ kind r = (if String.eqb "KW_All" "E_VOS" then facet else cell).
Proof.
  apply (leaf_outcome [] "all" None 0 (mkOp "KW_All" ["all"]) world4
           (Ok (length (store world4)))
           (after (region_leaf [] "all" None 0 (mkOp "KW_All" ["all"]))
              world4)).
  - discriminate.
  - reflexivity.
Defined.

(** ** [create_region]: failure, success, names *)



Lemma try_parse_raise (select : string) (w : World) (e : exn) (w' : World) :
  try_parse select w = (Raise e, w') -> store w' = store w /\ dom w' = dom w.
Proof.
  unfold try_parse, parseString, bind, get_dom, modify_dom, raise, output.
  destruct (_bnf (dom w) select) as [toks|]; intros H; inversion H.
  split; reflexivity.
Qed.

Lemma same_mesh_data_stack (st : list Op) (d : Domain) :
  same_mesh_data d (set_region_stack st d).
Proof. repeat split. Qed.

(** The replay of a nonempty stack that succeeds leaves the parser's stack
    empty. *)
Lemma replay_stack (rs : list loc) (rdef : string)
    (fns : option (gmap string UserFun)) (toks : list Op) :
  forall (operands : list loc) (w : World) (l : loc) (w' : World),
    replay region_op (region_leaf rs rdef fns) toks operands w = (Ok l, w') ->
    _region_stack (dom w')
    = match toks with [] => _region_stack (dom w) | _ => [] end.
Proof.
  induction toks as [|op toks IH]; intros operands w l w' H.
  - simpl in H. destruct operands as [|r [|r' rest]];
      unfold ret, raise in H; inversion H; reflexivity.
  - rewrite replay_cons in H. unfold bind at 1 in H. unfold modify_dom in H.
    set (w1 := set_dom (set_region_stack toks (dom w)) w) in H.
    assert (Hd1 : _region_stack (dom w1) = toks) by reflexivity.
    destruct (is_operator op).
    + destruct operands as [|item2 [|item1 rest]];
        try (unfold raise in H; discriminate H).
      unfold bind in H.
      destruct (region_op (length rest) op item1 item2 w1) as [[r|e] w2] eqn:E1;
        [|discriminate].
      destruct (region_op_effect _ _ _ _ _ _ _ E1) as [Hd2 _].
      rewrite (IH _ _ _ _ H), Hd2, Hd1. destruct toks; reflexivity.
    + unfold bind in H.
      destruct (region_leaf rs rdef fns (length operands) op w1)
        as [[r|e] w2] eqn:E1; [|discriminate].
      destruct (region_leaf_effect _ _ _ _ _ _ _ _ E1) as [Hd2 _].
      rewrite (IH _ _ _ _ H), Hd2, Hd1. destruct toks; reflexivity.
Qed.

(** X11.  A call of [create_region] that fails, at whatever step, registers
    nothing: the collection of the domain and the data of the mesh are as
    they were, and every instance of the store is as it was; at most
    instances that nothing refers to have been added. *)
Theorem create_region_failure (name_ select : string) (kind_ : Kind)
    (parent_ : option string) (check_parents : bool)
    (fns : option (gmap string UserFun)) (add_to_regions : bool)
    (w : World) (e : exn) (w' : World) :
  create_region name_ select kind_ parent_ check_parents fns add_to_regions w
    = (Raise e, w') ->
  regions (dom w') = regions (dom w)
  /\ same_mesh_data (dom w) (dom w')
  /\ exists news, store w' = (store w ++ news)%list.
Proof.
  unfold create_region. intros H.
  unfold bind at 1 in H.
  assert (Hcp : exists o, (if check_parents
                           then check_parents_loop name_ (get_parents select)
                           else ret tt) w = (o, w)).
  { destruct check_parents; [|eexists; reflexivity].
    pose proof (check_parents_loop_world name_ (get_parents select) w) as Hw.
    destruct (check_parents_loop name_ (get_parents select) w) as [o w0].
    simpl in Hw. subst. eexists; reflexivity. }
  destruct Hcp as [o Hcp]. rewrite Hcp in H. destruct o as [[]|e0].
  2:{ inversion H; subst. split; [reflexivity|].
      split; [repeat split|exists []; symmetry; apply app_nil_r]. }
  unfold bind at 1 in H.
  destruct (try_parse select w) as [[u|e1] w1] eqn:Ep.
  2:{ inversion H; subst. destruct (try_parse_raise _ _ _ _ Ep) as [Hs Hd].
      rewrite Hs, Hd. split; [reflexivity|].
      split; [repeat split|exists []; symmetry; apply app_nil_r]. }
  destruct (try_parse_ok _ _ _ _ Ep) as [toks [Htoks Hw1]]. subst w1.
  unfold bind at 1 in H. unfold get_dom at 1 in H. cbv beta iota in H.
  change (regions (dom (set_dom (set_region_stack
            (_region_stack (dom w) ++ toks) (dom w)) w)))
    with (regions (dom w)) in H.
  unfold bind at 1 in H.
  destruct (visit_stack region_op (region_leaf (regions (dom w)) select fns)
              (set_dom (set_region_stack (_region_stack (dom w) ++ toks) (dom w)) w))
    as [o3 w3] eqn:Ev.
  unfold visit_stack, bind, get_dom in Ev. cbv beta iota in Ev.
  destruct (replay_effect _ _ _ _ _ _ _ _ Ev) as [[st Hd] [[news Hs] _]].
  change (store (set_dom (set_region_stack
            (_region_stack (dom w) ++ toks) (dom w)) w))
    with (store w) in Hs.
  change (dom (set_dom (set_region_stack
            (_region_stack (dom w) ++ toks) (dom w)) w))
    with (set_region_stack (_region_stack (dom w) ++ toks) (dom w)) in Hd.
  rewrite set_region_stack_twice in Hd.
  destruct o3 as [l3|e3].
  - destruct (store w3 !! l3) as [r3|] eqn:E3.
    + rewrite (create_region_finish _ _ _ _ _ _ _ _ E3) in H. discriminate H.
    + unfold bind at 1, update at 1 in H. rewrite E3 in H.
      inversion H; subst. rewrite Hd, Hs.
      split; [reflexivity|]. split; [apply same_mesh_data_stack|eauto].
  - inversion H; subst. rewrite Hd, Hs.
    split; [reflexivity|]. split; [apply same_mesh_data_stack|eauto].
Qed.

Lemma create_region_failure_witness :
  regions (dom (after (create_region "D" "vertices of set S" vertex None true
                         None true) world_B))
  = regions (dom world_B)
  /\ same_mesh_data (dom world_B)
       (dom (after (create_region "D" "vertices of set S" vertex None true
                      None true) world_B))
  /\ exists news,
       store (after (create_region "D" "vertices of set S" vertex None true
                       None true) world_B)
       = (store world_B ++ news)%list.
Proof.
  apply (create_region_failure "D" "vertices of set S" vertex None true None
           true world_B (ValueError "undefined vertex set! (S)")).
  unfold after.
  destruct (create_region "D" "vertices of set S" vertex None true None true
              world_B) as [o w'] eqn:E.
  assert (Ho : fst (create_region "D" "vertices of set S" vertex None true
                      None true world_B)
               = Raise (ValueError "undefined vertex set! (S)"))
    by (vm_compute; reflexivity).
  rewrite E in Ho. simpl in Ho. subst o. reflexivity.
Defined.

(** X12.  A call of [create_region] that succeeds returns an instance with
    the name, the selection text, the kind and the parent of the call,
    whatever the evaluation of the text had set and without a check of the
    parent, and with shape counts that are those of its entity fields.  The
    instance is appended to the collection of the domain exactly when
    [add_to_regions] holds; the parser's stack is left empty, the data of
    the mesh and the console are as they were. *)
Theorem create_region_success (name_ select : string) (kind_ : Kind)
    (parent_ : option string) (check_parents : bool)
    (fns : option (gmap string UserFun)) (add_to_regions : bool)
    (w : World) (l : loc) (w' : World) :
  create_region name_ select kind_ parent_ check_parents fns add_to_regions w
    = (Ok l, w') ->
  (exists r,
      store w' !! l = Some r
      /\ name r = name_ /\ definition r = select /\ kind r = kind_
      /\ parent r = parent_ /\ shape_updated r)
  /\ regions (dom w')
     = (if add_to_regions then (regions (dom w) ++ [l])%list
        else regions (dom w))
  /\ _region_stack (dom w') = []
  /\ same_mesh_data (dom w) (dom w')
  /\ console w' = console w.
Proof.
  intros H.
  destruct (create_region_ok _ _ _ _ _ _ _ _ _ _ H)
    as [toks [w3 [r3 [Htoks [Hv [H3 Hw']]]]]].
  unfold visit_stack, bind, get_dom in Hv. cbv beta iota in Hv.
  change (_region_stack (dom (set_dom (set_region_stack
            (_region_stack (dom w) ++ toks) (dom w)) w)))
    with (_region_stack (dom w) ++ toks)%list in Hv.
  pose proof (replay_console _ _ _ _ _ _ _ _ Hv) as Hc.
  pose proof (replay_stack _ _ _ _ _ _ _ _ Hv) as Hst.
  destruct (replay_effect _ _ _ _ _ _ _ _ Hv) as [[st Hd] _].
  change (dom (set_dom (set_region_stack
            (_region_stack (dom w) ++ toks) (dom w)) w))
    with (set_region_stack (_region_stack (dom w) ++ toks) (dom w)) in Hd.
  rewrite set_region_stack_twice in Hd.
  assert (Hst' : _region_stack (dom w3) = []).
  { rewrite Hst.
    destruct (_region_stack (dom w) ++ toks)%list as [|op rest] eqn:E;
      [|reflexivity].
    simpl in Hv. unfold raise in Hv. discriminate Hv. }
  subst w'. split; [|split; [|split; [|split]]].
  - eexists. split.
    + simpl. apply list_lookup_insert_eq. apply lookup_lt_is_Some. eauto.
    + repeat split.
  - simpl. destruct add_to_regions; simpl; rewrite Hd; reflexivity.
  - simpl. destruct add_to_regions; simpl; exact Hst'.
  - simpl. destruct add_to_regions; simpl; rewrite Hd; repeat split.
  - exact Hc.
Qed.

Lemma create_region_success_witness :
  (exists r,
      store (after (create_region "S" "vertices of surface" cell (Some "none")
                      true None false) world_B) !! 2%nat = Some r
      /\ name r = "S" /\ definition r = "vertices of surface"
      /\ kind r = cell /\ parent r = Some "none" /\ shape_updated r)
  /\ regions (dom (after (create_region "S" "vertices of surface" cell
                            (Some "none") true None false) world_B))
     = regions (dom world_B)
  /\ _region_stack (dom (after (create_region "S" "vertices of surface" cell
                                  (Some "none") true None false) world_B))
     = []
  /\ same_mesh_data (dom world_B)
       (dom (after (create_region "S" "vertices of surface" cell
                      (Some "none") true None false) world_B))
  /\ console (after (create_region "S" "vertices of surface" cell
                       (Some "none") true None false) world_B)
     = console world_B.
Proof.
  apply (create_region_success "S" "vertices of surface" cell (Some "none")
           true None false world_B 2%nat).
  apply run_ok. vm_compute. reflexivity.
Defined.





(** ** [create_regions]: the collection it returns *)





(** ** [save_regions_as_groups]: what the copy of the mesh holds *)

Lemma fancy_assign_in_range (idx : list Z) (v : Z) :
  forall (a a' : list Z),
    fancy_assign a idx v = Ok a' ->
    forall i, In i idx -> - Z.of_nat (length a) <= i < Z.of_nat (length a).
Proof.
  induction idx as [|j idx IH]; intros a a' H i Hin; [destruct Hin|].
  simpl in H.
  destruct ((0 <=? j) && (j <? Z.of_nat (length a))) eqn:E.
  - destruct Hin as [->|Hin].
    + apply andb_true_iff in E as [E1 E2]. apply Z.leb_le in E1.
      apply Z.ltb_lt in E2. lia.
    + pose proof (IH _ _ H i Hin) as Hr. rewrite length_insert in Hr. exact Hr.
  - destruct ((- Z.of_nat (length a) <=? j) && (j <? 0)) eqn:E';
      [|discriminate].
    destruct Hin as [->|Hin].
    + apply andb_true_iff in E' as [E1 E2]. apply Z.leb_le in E1.
      apply Z.ltb_lt in E2. lia.
    + pose proof (IH _ _ H i Hin) as Hr. rewrite length_insert in Hr. exact Hr.
Qed.

Lemma fancy_assign_other (idx : list Z) (v : Z) :
  forall (a a' : list Z) (k : nat),
    fancy_assign a idx v = Ok a' ->
    ~ touched (length a) idx k ->
    a' !! k = a !! k.
Proof.
  induction idx as [|j idx IH]; intros a a' k H Hk; simpl in H.
  - inversion H. reflexivity.
  - assert (Hrest : ~ touched (length a) idx k)
      by (intros [Hin|Hin]; apply Hk; [left|right]; right; exact Hin).
    destruct ((0 <=? j) && (j <? Z.of_nat (length a))) eqn:E.
    + rewrite (IH _ _ k H) by (rewrite length_insert; exact Hrest).
      apply list_lookup_insert_ne. intros <-. apply Hk. left. left.
      apply andb_true_iff in E as [E1 _]. apply Z.leb_le in E1. lia.
    + destruct ((- Z.of_nat (length a) <=? j) && (j <? 0)) eqn:E';
        [|discriminate].
      rewrite (IH _ _ k H) by (rewrite length_insert; exact Hrest).
      apply list_lookup_insert_ne. intros <-. apply Hk. right. left.
      apply andb_true_iff in E' as [E1 _]. apply Z.leb_le in E1. lia.
Qed.

Lemma mark_cells_out (d : Domain) (r : Region) (gs : list Z) :
  forall (s s' : Saved), mark_cells d r gs s = Ok s' -> out s' = out s.
Proof.
  induction gs as [|g gs IH]; intros s s' H; simpl in H.
  - inversion H. reflexivity.
  - destruct (PyList.item_Z (aux_mat_ids s) g) as [ids|e]; [|discriminate].
    destruct (fancy_assign ids (get_cells d r g) (c_ig s)) as [ids'|e];
      [|discriminate].
    rewrite (IH _ _ H). reflexivity.
Qed.

(** One region of the second loop, in full. *)
Lemma mark_region_full (n_nod_ : Z) (name_ : string) (s s' : Saved)
    (w w' : World) :
  mark_region n_nod_ name_ s w = (Ok s', w') ->
  store w' = store w /\ dom w' = dom w
  /\ exists r mask,
       region_named w name_ r
       /\ fancy_assign (aux_ngroups s) (vertices r) (n_ig s)
          = Ok (aux_ngroups s')
       /\ fancy_assign (repeat 0 (Z.to_nat n_nod_)) (vertices r) 1 = Ok mask
       /\ out s' = <[name_ := mask]> (out s).
Proof.
  unfold mark_region, OneTypeList.getitem, OneTypeList.find, bind, get_dom,
    deref, output, lift, raise, ret. cbv beta iota zeta. intros H.
  destruct (OneTypeList.find_in (store w) (regions (dom w)) name_)
    as [[l|]|e] eqn:Ef; try discriminate.
  destruct (store w !! l) as [r|] eqn:El; [|discriminate].
  destruct (fancy_assign (aux_ngroups s) (vertices r) (n_ig s)) as [ng|e] eqn:Eg;
    [|discriminate].
  destruct (fancy_assign (repeat 0 (Z.to_nat n_nod_)) (vertices r) 1)
    as [mask|e] eqn:Ek; [|discriminate].
  assert (Hr : region_named w name_ r) by (exists l; split; assumption).
  destruct (has_cells r).
  - match type of H with
    | context [mark_cells ?d ?r ?gs ?s0] =>
        destruct (mark_cells d r gs s0) as [s1|e] eqn:Em
    end; [|discriminate].
    inversion H. subst. destruct (mark_cells_keeps _ _ _ _ _ Em) as [H1 _].
    pose proof (mark_cells_out _ _ _ _ _ Em) as H2.
    simpl in H1, H2. split; [reflexivity|]. split; [reflexivity|].
    exists r, mask. rewrite H1, H2. auto.
  - inversion H. subst. simpl. split; [reflexivity|]. split; [reflexivity|].
    exists r, mask. auto.
Qed.

Lemma region_named_same (w w' : World) (n : string) (r : Region) :
  store w' = store w -> dom w' = dom w ->
  region_named w' n r <-> region_named w n r.
Proof.
  intros Hs Hd. unfold region_named, lookup_name. rewrite Hs, Hd. reflexivity.
Qed.

Lemma region_named_fun (w : World) (n : string) (r r' : Region) :
  region_named w n r -> region_named w n r' -> r = r'.
Proof.
  intros [l [Hf Hl]] [l' [Hf' Hl']]. rewrite Hf in Hf'. inversion Hf'. subst.
  rewrite Hl in Hl'. inversion Hl'. reflexivity.
Qed.

(** The second loop: every name is the name of a region whose vertices all
    lie inside the array of node groups; entries that no region names are
    kept; each name has its mask. *)
Lemma mark_regions_full (n_nod_ : Z) (names : list string) :
  forall (s s' : Saved) (w w' : World),
    mark_regions n_nod_ names s w = (Ok s', w') ->
    store w' = store w /\ dom w' = dom w
    /\ length (aux_ngroups s') = length (aux_ngroups s)
    /\ (forall n, In n names ->
          exists r mask,
            region_named w n r
            /\ (forall i, In i (vertices r) ->
                  - Z.of_nat (length (aux_ngroups s)) <= i
                  < Z.of_nat (length (aux_ngroups s)))
            /\ fancy_assign (repeat 0 (Z.to_nat n_nod_)) (vertices r) 1
               = Ok mask
            /\ out s' !! n = Some mask)
    /\ (forall k : nat,
          (forall n r, In n names -> region_named w n r ->
                       ~ touched (length (aux_ngroups s)) (vertices r) k) ->
          aux_ngroups s' !! k = aux_ngroups s !! k)
    /\ (forall n, ~ In n names -> out s' !! n = out s !! n).
Proof.
  induction names as [|n names IH]; intros s s' w w' H; simpl in H.
  - unfold ret in H. inversion H. subst.
    repeat split; try reflexivity. intros n [].
  - unfold bind in H.
    destruct (mark_region n_nod_ n s w) as [[s1|e] w1] eqn:E; [|discriminate].
    destruct (mark_region_full _ _ _ _ _ _ E)
      as [Hs1 [Hd1 [r [mask [Hr [Hng [Hmask Hout]]]]]]].
    destruct (IH _ _ _ _ H) as [Hs [Hd [Hlen [Hall [Hkeep Hnot]]]]].
    destruct (fancy_assign_keeps _ _ _ _ Hng) as [Hlen1 _].
    split; [congruence|]. split; [congruence|]. split; [congruence|].
    split; [|split].
    + intros m Hm.
      destruct (in_dec string_dec m names) as [Hin|Hnin].
      * destruct (Hall m Hin) as [r' [mask' [Hr' [Hrange [Hm' Ho']]]]].
        exists r', mask'. split; [apply (region_named_same _ _ _ _ Hs1 Hd1), Hr'|].
        split; [rewrite <- Hlen1; exact Hrange|]. split; assumption.
      * destruct Hm as [<-|Hm]; [|contradiction].
        exists r, mask. split; [exact Hr|].
        split; [apply (fancy_assign_in_range _ _ _ _ Hng)|].
        split; [exact Hmask|].
        rewrite (Hnot n Hnin), Hout. apply lookup_insert_eq.
    + intros k Hk. rewrite Hkeep.
      * apply (fancy_assign_other _ _ _ _ _ Hng).
        apply (Hk n r); [left; reflexivity|exact Hr].
      * intros m r' Hm Hr'. rewrite Hlen1. apply (Hk m r'); [right; exact Hm|].
        apply (region_named_same _ _ _ _ Hs1 Hd1), Hr'.
    + intros m Hm. rewrite Hnot by (intros Hin; apply Hm; right; exact Hin).
      rewrite Hout. apply lookup_insert_ne. intros ->. apply Hm. left.
      reflexivity.
Qed.

Lemma remove_In (x : string) (l l' : list string) :
  PyList.remove x l = Ok l' -> forall n, In n l <-> n = x \/ In n l'.
Proof.
  revert l'. induction l as [|y l IH]; intros l' H; simpl in H; [discriminate|].
  destruct (String.eqb_spec x y) as [->|Hne].
  - inversion H. subst. intros n. simpl. split; intros [Hn|Hn]; auto.
  - destruct (PyList.remove x l) as [l''|e]; [|discriminate].
    inversion H. subst. intros n. simpl. rewrite (IH l'' eq_refl n). tauto.
Qed.

(** The first loop keeps the world and the names, up to their order. *)
Lemma whole_domain_first_names (names : list string) :
  forall (todo names' : list string) (w w' : World),
    whole_domain_first names todo w = (Ok names', w') ->
    w' = w /\ forall n, In n names' <-> In n names.
Proof.
  induction todo as [|t todo IH]; intros names' w w' H; simpl in H.
  - unfold ret in H. inversion H. subst. split; [reflexivity|tauto].
  - unfold bind at 1, get_dom at 1 in H. cbv beta iota in H.
    unfold bind at 1, OneTypeList.getitem, OneTypeList.find, bind in H.
    destruct (OneTypeList.find_in (store w) (regions (dom w)) t)
      as [[l|]|e]; try (unfold raise in H; discriminate H).
    unfold ret, deref in H.
    destruct (store w !! l) as [r|]; [|discriminate H].
    destruct (Z.of_nat (length (vertices r)) =? shape_n_nod (dom w)).
    + unfold lift in H.
      destruct (PyList.remove (name r) names) as [names''|e] eqn:Er;
        [|discriminate H].
      inversion H. subst. split; [reflexivity|]. intros n.
      rewrite (remove_In _ _ _ Er n). simpl. split; intros [Hn|Hn]; auto.
    + apply (IH _ _ _ H).
Qed.

(** The steps of a save that succeeds. *)
Lemma save_regions_as_groups_ok (region_names : option (list string))
    (w : World) (s : Saved) (w' : World) :
  save_regions_as_groups region_names w = (Ok s, w') ->
  exists (names names' : list string) (w1 w2 : World),
    saved_names region_names w = Ok names
    /\ (forall n, In n names' <-> In n names)
    /\ store w1 = store w /\ dom w1 = dom w
    /\ mark_regions (shape_n_nod (dom w)) names' (saved0 (dom w)) w1
       = (Ok s, w2)
    /\ store w' = store w2 /\ dom w' = dom w2.
Proof.
  unfold save_regions_as_groups. intros H.
  unfold bind at 1, output at 1 in H.
  set (w1 := mkWorld (store w) (dom w)
               (console w ++ ["saving regions as groups..."])) in H.
  unfold bind at 1, get_dom at 1 in H. cbv beta iota zeta in H.
  change (dom w1) with (dom w) in H.
  unfold bind at 1 in H.
  destruct ((match region_names with
             | Some l0 => ret l0
             | None => OneTypeList.get_names (regions (dom w))
             end) w1) as [[names|e] w1'] eqn:En; [|discriminate].
  assert (Hn : saved_names region_names w = Ok names /\ w1' = w1).
  { unfold saved_names. destruct region_names as [ns|].
    - unfold ret in En. inversion En. auto.
    - unfold OneTypeList.get_names in En. change (store w1) with (store w) in En.
      inversion En. auto. }
  destruct Hn as [Hn ->].
  unfold bind at 1 in H.
  destruct (whole_domain_first names names w1) as [[names'|e] w1'] eqn:Ew;
    [|discriminate].
  destruct (whole_domain_first_names _ _ _ _ _ Ew) as [-> Hsame].
  unfold bind at 1 in H. fold (saved0 (dom w)) in H.
  destruct (mark_regions (shape_n_nod (dom w)) names' (saved0 (dom w)) w1)
    as [[s'|e] w2] eqn:Em; [|discriminate].
  unfold bind, output, ret in H. inversion H. subst s'.
  exists names, names', w1, w2. repeat split; auto; apply Hsame.
Qed.

(** X15.  A save of regions as groups that succeeds works on a copy: the
    instances of the store and the domain with its mesh are as they were.
    The array of node groups handed to the writer has the length of the
    array of the mesh, and a vertex that no saved region names, directly or
    by a negative index, keeps the node group that the mesh gives it. *)
Theorem save_keeps_unmarked_vertices (region_names : option (list string))
    (w : World) (names : list string) (s : Saved) (w' : World) :
  saved_names region_names w = Ok names ->
  save_regions_as_groups region_names w = (Ok s, w') ->
  store w' = store w /\ dom w' = dom w
  /\ length (aux_ngroups s) = length (ngroups (mesh (dom w)))
  /\ forall k : nat,
       (forall n r, In n names -> region_named w n r ->
                    ~ touched (length (ngroups (mesh (dom w)))) (vertices r) k) ->
       aux_ngroups s !! k = ngroups (mesh (dom w)) !! k.
Proof.
  intros Hnames H.
  destruct (save_regions_as_groups_ok _ _ _ _ H)
    as [names0 [names' [w1 [w2 [Hn0 [Hsame [Hs1 [Hd1 [Hm [Hs' Hd']]]]]]]]]].
  rewrite Hnames in Hn0. inversion Hn0. subst names0.
  destruct (mark_regions_full _ _ _ _ _ _ Hm) as [Hs2 [Hd2 [Hlen [_ [Hkeep _]]]]].
  split; [congruence|]. split; [congruence|].
  split; [exact Hlen|]. intros k Hk. apply Hkeep.
  intros n r Hin Hr. apply (Hk n r); [apply Hsame, Hin|].
  apply (region_named_same _ _ _ _ Hs1 Hd1), Hr.
Qed.

Lemma save_keeps_unmarked_vertices_witness :
  store (after (save_regions_as_groups (Some ["R2"])) world_B)
  = store world_B
  /\ dom (after (save_regions_as_groups (Some ["R2"])) world_B) = dom world_B
  /\ length (aux_ngroups (mkSaved [0; 0; 0; 0] [[0]] 1 0
                         (<["R2" := [0; 0; 1; 1]]> ∅)))
  = length (ngroups (mesh (dom world_B)))
  /\ forall k : nat,
       (forall n r, In n ["R2"] -> region_named world_B n r ->
                    ~ touched (length (ngroups (mesh (dom world_B))))
                        (vertices r) k) ->
       aux_ngroups (mkSaved [0; 0; 0; 0] [[0]] 1 0
                      (<["R2" := [0; 0; 1; 1]]> ∅)) !! k
       = ngroups (mesh (dom world_B)) !! k.
Proof.
  apply (save_keeps_unmarked_vertices (Some ["R2"]) world_B ["R2"]
           (mkSaved [0; 0; 0; 0] [[0]] 1 0 (<["R2" := [0; 0; 1; 1]]> ∅))
           (after (save_regions_as_groups (Some ["R2"])) world_B)).
  - reflexivity.
  - apply run_ok. vm_compute. reflexivity.
Defined.

Lemma lookup_repeat_0 (n k : nat) :
  (k < n)%nat -> repeat 0 n !! k = Some 0.
Proof.
  revert k. induction n as [|n IH]; intros [|k] Hk; simpl; try lia;
    [reflexivity|]. apply IH. lia.
Qed.

(** X16.  A save of regions as groups fails when a region to be saved names
    a vertex outside the array of node groups of the mesh: an index that is
    at least its length, or negative beyond it. *)
Theorem save_rejects_vertex_out_of_range (region_names : option (list string))
    (w : World) (names : list string) (n : string) (r : Region) (v : Z) :
  saved_names region_names w = Ok names ->
  In n names ->
  region_named w n r ->
  In v (vertices r) ->
  v < - Z.of_nat (length (ngroups (mesh (dom w))))
  \/ Z.of_nat (length (ngroups (mesh (dom w)))) <= v ->
  exists e w', save_regions_as_groups region_names w = (Raise e, w').
Proof.
  intros Hnames Hin Hr Hv Hout.
  destruct (save_regions_as_groups region_names w) as [[s|e] w'] eqn:H;
    [|eauto].
  exfalso.
  destruct (save_regions_as_groups_ok _ _ _ _ H)
    as [names0 [names' [w1 [w2 [Hn0 [Hsame [Hs1 [Hd1 [Hm _]]]]]]]]].
  rewrite Hnames in Hn0. inversion Hn0. subst names0.
  destruct (mark_regions_full _ _ _ _ _ _ Hm) as [_ [_ [_ [Hall _]]]].
  apply Hsame in Hin. destruct (Hall n Hin) as [r' [mask [Hr' [Hrange _]]]].
  apply (region_named_same _ _ _ _ Hs1 Hd1) in Hr'.
  rewrite (region_named_fun _ _ _ _ Hr' Hr) in Hrange.
  specialize (Hrange v Hv). simpl in Hrange. lia.
Qed.

Lemma save_rejects_vertex_out_of_range_witness :
  exists e w',
    save_regions_as_groups (Some ["D"])
      (after (create_region "D" "vertex 5" vertex None true None true) world4)
    = (Raise e, w').
Proof.
  apply (save_rejects_vertex_out_of_range (Some ["D"])
           (after (create_region "D" "vertex 5" vertex None true None true)
              world4)
           ["D"] "D"
           (default (Region_new "leaf" "" "")
              (store (after (create_region "D" "vertex 5" vertex None true
                               None true) world4) !! 0%nat))
           5).
  - reflexivity.
  - left. reflexivity.
  - exists 0%nat. split; vm_compute; reflexivity.
  - vm_compute. left. reflexivity.
  - right. vm_compute. discriminate.
Defined.

(** X17.  In a save of regions as groups that succeeds, the point data
    handed to the writer hold one mask for each saved name and nothing
    else: the mask of a name has one entry for each vertex of the domain,
    which is 1 at the vertices of the region found under the name and 0
    at every vertex that the region does not name. *)
Theorem save_writes_region_masks (region_names : option (list string))
    (w : World) (names : list string) (s : Saved) (w' : World) :
  saved_names region_names w = Ok names ->
  save_regions_as_groups region_names w = (Ok s, w') ->
  (forall n, In n names ->
     exists r mask,
       region_named w n r
       /\ out s !! n = Some mask
       /\ length mask = Z.to_nat (shape_n_nod (dom w))
       /\ (forall v, In v (vertices r) -> 0 <= v ->
              mask !! Z.to_nat v = Some 1)
       /\ (forall k : nat,
              (k < length mask)%nat ->
              ~ touched (length mask) (vertices r) k ->
              mask !! k = Some 0))
  /\ (forall n, ~ In n names -> out s !! n = None).
Proof.
  intros Hnames H.
  destruct (save_regions_as_groups_ok _ _ _ _ H)
    as [names0 [names' [w1 [w2 [Hn0 [Hsame [Hs1 [Hd1 [Hm _]]]]]]]]].
  rewrite Hnames in Hn0. inversion Hn0. subst names0.
  destruct (mark_regions_full _ _ _ _ _ _ Hm) as [_ [_ [_ [Hall [_ Hnot]]]]].
  split.
  - intros n Hin. apply Hsame in Hin.
    destruct (Hall n Hin) as [r [mask [Hr [_ [Hmask Ho]]]]].
    apply (region_named_same _ _ _ _ Hs1 Hd1) in Hr.
    destruct (fancy_assign_keeps _ _ _ _ Hmask) as [Hlen _].
    rewrite repeat_length in Hlen.
    exists r, mask. split; [exact Hr|]. split; [exact Ho|].
    split; [exact Hlen|]. split.
    + intros v Hv Hv0. apply (fancy_assign_marks _ _ _ _ _ Hmask Hv Hv0).
    + intros k Hk Hnt.
      rewrite (fancy_assign_other _ _ _ _ _ Hmask).
      * apply lookup_repeat_0. rewrite <- Hlen. exact Hk.
      * rewrite repeat_length, <- Hlen. exact Hnt.
  - intros n Hn. rewrite Hnot by (rewrite Hsame; exact Hn). reflexivity.
Qed.

Lemma save_writes_region_masks_witness :
  (forall n, In n ["R2"] ->
     exists r mask,
       region_named world_B n r
       /\ out (mkSaved [0; 0; 0; 0] [[0]] 1 0
                 (<["R2" := [0; 0; 1; 1]]> ∅)) !! n = Some mask
       /\ length mask = Z.to_nat (shape_n_nod (dom world_B))
       /\ (forall v, In v (vertices r) -> 0 <= v ->
              mask !! Z.to_nat v = Some 1)
       /\ (forall k : nat,
              (k < length mask)%nat ->
              ~ touched (length mask) (vertices r) k ->
              mask !! k = Some 0))
  /\ (forall n, ~ In n ["R2"] ->
        out (mkSaved [0; 0; 0; 0] [[0]] 1 0
               (<["R2" := [0; 0; 1; 1]]> ∅)) !! n = None).
Proof.
  apply (save_writes_region_masks (Some ["R2"]) world_B ["R2"]
           (mkSaved [0; 0; 0; 0] [[0]] 1 0 (<["R2" := [0; 0; 1; 1]]> ∅))
           (after (save_regions_as_groups (Some ["R2"])) world_B)).
  - reflexivity.
  - apply run_ok. vm_compute. reflexivity.
Defined.

(** X18.  The numbering loop of the save gives the regions the node-group
    ids in the order of the names, counting from the current id, and where
    saved regions overlap the region that comes last decides: a vertex of
    the region at position [i] that no later region names holds the id of
    position [i] at the end. *)
Theorem later_region_overwrites_group (n_nod_ : Z) (names : list string) :
  forall (s s' : Saved) (w w' : World) (i : nat) (n : string) (r : Region)
         (v : Z),
    mark_regions n_nod_ names s w = (Ok s', w') ->
    names !! i = Some n ->
    region_named w n r ->
    In v (vertices r) -> 0 <= v ->
    (forall (j : nat) m r', (i < j)%nat -> names !! j = Some m ->
        region_named w m r' ->
        ~ touched (length (aux_ngroups s)) (vertices r') (Z.to_nat v)) ->
    aux_ngroups s' !! Z.to_nat v = Some (n_ig s + Z.of_nat i).
Proof.
  induction names as [|n0 names IH]; intros s s' w w' i n r v H Hi Hr Hv Hv0 Hlater;
    [destruct i; discriminate|].
  simpl in H. unfold bind in H.
  destruct (mark_region n_nod_ n0 s w) as [[s1|e] w1] eqn:E; [|discriminate].
  destruct (mark_region_full _ _ _ _ _ _ E)
    as [Hs1 [Hd1 [r0 [mask [Hr0 [Hng _]]]]]].
  destruct (mark_region_ok _ _ _ _ _ _ E) as [Hig _].
  destruct (fancy_assign_keeps _ _ _ _ Hng) as [Hlen1 _].
  destruct i as [|i].
  - simpl in Hi. inversion Hi. subst n0.
    rewrite (region_named_fun _ _ _ _ Hr0 Hr) in Hng.
    destruct (mark_regions_full _ _ _ _ _ _ H) as [_ [_ [_ [_ [Hkeep _]]]]].
    rewrite Hkeep.
    + rewrite Z.add_0_r. apply (fancy_assign_marks _ _ _ _ _ Hng Hv Hv0).
    + intros m r' Hm Hr'. apply list_elem_of_In, list_elem_of_lookup in Hm.
      destruct Hm as [j Hj]. rewrite Hlen1.
      apply (Hlater (S j) m r'); [lia|exact Hj|].
      apply (region_named_same _ _ _ _ Hs1 Hd1), Hr'.
  - simpl in Hi.
    rewrite (IH _ _ _ _ i n r v H Hi).
    + rewrite Hig. f_equal. lia.
    + apply (region_named_same _ _ _ _ Hs1 Hd1), Hr.
    + exact Hv.
    + exact Hv0.
    + intros j m r' Hj Hm Hr'. rewrite Hlen1.
      apply (Hlater (S j) m r'); [lia|exact Hm|].
      apply (region_named_same _ _ _ _ Hs1 Hd1), Hr'.
Qed.

Lemma later_region_overwrites_group_witness :
  aux_ngroups (mkSaved [0; 0; 1; 1] [[0]] 2 0
                 (<["R2" := [0; 0; 1; 1]]> (<["R1" := [1; 1; 1; 0]]> ∅)))
    !! Z.to_nat 2
  = Some (n_ig (saved0 (dom world_B)) + Z.of_nat 1).
Proof.
  apply (later_region_overwrites_group 4 ["R1"; "R2"] (saved0 (dom world_B))
           (mkSaved [0; 0; 1; 1] [[0]] 2 0
              (<["R2" := [0; 0; 1; 1]]> (<["R1" := [1; 1; 1; 0]]> ∅)))
           world_B
           (after (mark_regions 4 ["R1"; "R2"] (saved0 (dom world_B))) world_B)
           1%nat "R2" region_B2 2).
  - apply run_ok. vm_compute. reflexivity.
  - reflexivity.
  - exists 1%nat. split; vm_compute; reflexivity.
  - vm_compute. left. reflexivity.
  - lia.
  - intros j m r' Hj Hm. destruct j as [|[|j]]; [lia|lia|discriminate Hm].
Defined.

(** * The groups of the domain *)

Lemma Py_sum_cons (x : Z) (l : list Z) : Py_sum (x :: l) = x + Py_sum l.
Proof.
  unfold Py_sum. simpl.
  assert (H : forall l a, fold_left Z.add l a = a + fold_left Z.add l 0).
  { clear. induction l as [|y l IH]; intros a; simpl; [lia|].
    rewrite (IH (a + y)), (IH (0 + y)). lia. }
  apply H.
Qed.

Lemma Py_sum_app (l l' : list Z) : Py_sum (l ++ l') = Py_sum l + Py_sum l'.
Proof.
  induction l as [|x l IH]; [reflexivity|].
  change ((x :: l) ++ l')%list with (x :: (l ++ l'))%list.
  rewrite !Py_sum_cons, IH. lia.
Qed.

Lemma setup_group_ok (ii : nat) (d d' : GDomain.t) :
  setup_group ii d = Ok d' ->
  GDomain.mesh d' = GDomain.mesh d
  /\ GDomain.geom_els d' = GDomain.geom_els d
  /\ exists g,
       group_of d ii g
       /\ GDomain.groups d' = <[Z.of_nat ii := g]> (GDomain.groups d)
       /\ GDomain.shape d'
          = DomainShape.mk (DomainShape.n_gr (GDomain.shape d))
              (DomainShape.n_el (GDomain.shape d) + Conn.n_el (ElGroup.conn g))
              (DomainShape.n_nod (GDomain.shape d))
              (DomainShape.dim (GDomain.shape d)).
Proof.
  unfold setup_group, PyList.item, dict_item_string. intros H.
  destruct (GMesh.descs (GDomain.mesh d) !! ii) as [desc|] eqn:Ed;
    [|discriminate].
  destruct (GDomain.geom_els d !! desc) as [gel|] eqn:Eg; [|discriminate].
  destruct (GMesh.conns (GDomain.mesh d) !! ii) as [conn|] eqn:Ec;
    [|discriminate].
  destruct (Gel.dim gel =? 3) eqn:E3;
    (destruct (GMesh.dims (GDomain.mesh d) !! ii) as [dim_|] eqn:Edim;
       [|discriminate]);
    inversion H; subst; clear H;
    (split; [reflexivity|]); (split; [reflexivity|]);
    eexists; (split; [|split; reflexivity]);
    unfold group_of; simpl; rewrite E3; repeat split; eauto.
Qed.

Lemma group_of_same (d d' : GDomain.t) (ii : nat) (g : ElGroup.t) :
  GDomain.mesh d' = GDomain.mesh d ->
  GDomain.geom_els d' = GDomain.geom_els d ->
  group_of d ii g -> group_of d' ii g.
Proof. unfold group_of. intros -> ->. auto. Qed.

Lemma setup_groups_loop_ok (n : nat) :
  forall (a : nat) (d d' : GDomain.t),
    setup_groups_loop (seq a n) d = (Ok tt, d') ->
    GDomain.mesh d' = GDomain.mesh d
    /\ GDomain.geom_els d' = GDomain.geom_els d
    /\ (forall k : Z, ~ (Z.of_nat a <= k < Z.of_nat (a + n)) ->
          GDomain.groups d' !! k = GDomain.groups d !! k)
    /\ (forall i : nat, (a <= i < a + n)%nat ->
          exists g, GDomain.groups d' !! Z.of_nat i = Some g /\ group_of d i g)
    /\ DomainShape.n_gr (GDomain.shape d') = DomainShape.n_gr (GDomain.shape d)
    /\ DomainShape.n_el (GDomain.shape d')
       = DomainShape.n_el (GDomain.shape d)
         + Py_sum (map Conn.n_el
                     (firstn n (skipn a (GMesh.conns (GDomain.mesh d))))).
Proof.
  induction n as [|n IH]; intros a d d' H; simpl in H.
  - inversion H. subst. repeat split; try reflexivity.
    + intros i Hi. lia.
    + simpl. unfold Py_sum. simpl. lia.
  - destruct (setup_group a d) as [d1|e] eqn:E1; [|discriminate].
    destruct (setup_group_ok _ _ _ E1) as [Hm1 [Hg1 [g [Hgood [Hgr1 Hsh1]]]]].
    destruct (IH _ _ _ H) as [Hm [Hg [Hother [Hin [Hngr Hnel]]]]].
    split; [congruence|]. split; [congruence|].
    split; [|split; [|split]].
    + intros k Hk. rewrite Hother by lia. rewrite Hgr1.
      apply lookup_insert_ne. lia.
    + intros i Hi. destruct (Nat.eq_dec i a) as [->|Hne].
      * exists g. split; [|exact Hgood].
        rewrite Hother by lia. rewrite Hgr1. apply lookup_insert_eq.
      * destruct (Hin i) as [g' [Hg' Hgood']]; [lia|].
        exists g'. split; [exact Hg'|].
        apply (group_of_same d1 d); [symmetry|symmetry|]; assumption.
    + rewrite Hngr, Hsh1. reflexivity.
    + rewrite Hnel, Hsh1, Hm1. simpl DomainShape.n_el.
      destruct Hgood as [_ [Hc _]].
      rewrite (drop_S _ _ _ Hc). simpl firstn. simpl map.
      rewrite Py_sum_cons. lia.
Qed.

Lemma map_result_total {A B : Type} (f : A -> result B) (l : list A) :
  (forall x, In x l -> exists y, f x = Ok y) ->
  exists ys, Py.map_result f l = Ok ys /\ Forall2 (fun x y => f x = Ok y) l ys.
Proof.
  induction l as [|x l IH]; intros H.
  - exists []. split; [reflexivity|constructor].
  - destruct (H x (or_introl eq_refl)) as [y Hy].
    destruct IH as [ys [Hys HF]]; [intros z Hz; apply H; right; exact Hz|].
    exists (y :: ys). simpl. rewrite Hy, Hys. split; [reflexivity|].
    constructor; assumption.
Qed.

(** After [setup_groups], [iter_groups] yields the groups in the order of
    the connectivity arrays of the mesh. *)
Lemma iter_groups_after_setup (d d' : GDomain.t) :
  setup_groups d = (Ok tt, d') ->
  GDomain.mesh d' = GDomain.mesh d
  /\ GDomain.geom_els d' = GDomain.geom_els d
  /\ DomainShape.n_gr (GDomain.shape d')
     = Z.of_nat (length (GMesh.conns (GDomain.mesh d)))
  /\ DomainShape.n_el (GDomain.shape d')
     = Py_sum (map Conn.n_el (GMesh.conns (GDomain.mesh d)))
  /\ (forall k g, GDomain.groups d' !! k = Some g ->
        0 <= k < Z.of_nat (length (GMesh.conns (GDomain.mesh d))))
  /\ exists gs,
       iter_groups d' = Ok gs
       /\ length gs = length (GMesh.conns (GDomain.mesh d))
       /\ forall (i : nat) g, gs !! i = Some g ->
            GDomain.groups d' !! Z.of_nat i = Some g /\ group_of d i g.
Proof.
  unfold setup_groups.
  destruct (GMesh.coors_shape (GDomain.mesh d)) as [n_nod_ dim_].
  set (n := length (GMesh.conns (GDomain.mesh d))).
  set (d0 := GDomain.set_groups ∅ (GDomain.set_shape
               (DomainShape.mk (Z.of_nat n) 0 n_nod_ dim_) d)).
  intros H.
  destruct (setup_groups_loop_ok _ _ _ _ H)
    as [Hm [Hg [Hother [Hin [Hngr Hnel]]]]].
  change (GDomain.mesh d0) with (GDomain.mesh d) in *.
  change (GDomain.geom_els d0) with (GDomain.geom_els d) in *.
  split; [exact Hm|]. split; [exact Hg|]. split; [exact Hngr|].
  split; [|split].
  - rewrite Hnel. change (DomainShape.n_el (GDomain.shape d0)) with 0.
    change (skipn 0 (GMesh.conns (GDomain.mesh d)))
      with (GMesh.conns (GDomain.mesh d)).
    unfold n. rewrite firstn_all. lia.
  - intros k g Hk.
    destruct (Z_lt_dec k 0) as [Hlt|Hge];
      [rewrite Hother in Hk by lia; discriminate Hk|].
    destruct (Z_lt_dec k (Z.of_nat n)) as [Hlt|Hge']; [fold n; lia|].
    rewrite Hother in Hk by lia. discriminate Hk.
  - unfold iter_groups. rewrite Hngr. simpl DomainShape.n_gr.
    rewrite Nat2Z.id.
    destruct (map_result_total (groups_item d')
                (map Z.of_nat (seq 0 n))) as [gs [Hgs HF]].
    { intros k Hk. apply in_map_iff in Hk as [i [<- Hi]].
      apply in_seq in Hi. destruct (Hin i) as [g [Hg' _]]; [lia|].
      exists g. unfold groups_item, dict_item_Z. rewrite Hg'. reflexivity. }
    exists gs. split; [exact Hgs|].
    pose proof (Forall2_length _ _ _ HF) as Hlen.
    rewrite length_map, length_seq in Hlen.
    split; [symmetry; exact Hlen|].
    intros i g Hi.
    assert (Hlt : (i < n)%nat)
      by (rewrite Hlen; apply lookup_lt_is_Some; eauto).
    assert (Hk : map Z.of_nat (seq 0 n) !! i = Some (Z.of_nat i)).
    { change (map Z.of_nat (seq 0 n)) with (Z.of_nat <$> seq 0 n).
      rewrite list_lookup_fmap, lookup_seq_lt by exact Hlt. reflexivity. }
    pose proof (Forall2_lookup_lr _ _ _ _ _ _ HF Hk Hi) as Hit.
    unfold groups_item, dict_item_Z in Hit.
    destruct (Hin i) as [g' [Hg' Hgood]]; [lia|].
    rewrite Hg' in Hit. inversion Hit. subst g'.
    split; [exact Hg'|].
    apply (group_of_same d0 d); [reflexivity|reflexivity|exact Hgood].
Qed.

Lemma cell_offsets_loop_spec (gs : list ElGroup.t) :
  forall (a : nat) (off : Z) (offs : gmap Z Z),
    (forall (i : nat) g, gs !! i = Some g -> ElGroup.ig g = Z.of_nat (a + i)) ->
    (forall i : nat, (i < length gs)%nat ->
       cell_offsets_loop gs off offs !! Z.of_nat (a + i)
       = Some (off + Py_sum (map (fun g => GroupShape.n_el (ElGroup.shape g))
                               (firstn i gs))))
    /\ (forall k : Z, ~ (Z.of_nat a <= k < Z.of_nat (a + length gs)) ->
          cell_offsets_loop gs off offs !! k = offs !! k).
Proof.
  induction gs as [|g gs IH]; intros a off offs Hig.
  - split; [intros i Hi; simpl in Hi; lia|reflexivity].
  - assert (Ha : ElGroup.ig g = Z.of_nat a)
      by (rewrite (Hig 0%nat g eq_refl); f_equal; lia).
    destruct (IH (S a) (off + GroupShape.n_el (ElGroup.shape g))
                (<[ElGroup.ig g := off]> offs)) as [Hin Hout].
    { intros i g' Hg'. rewrite (Hig (S i) g' Hg'). f_equal. lia. }
    simpl cell_offsets_loop. simpl length. split.
    + intros [|i] Hi.
      * rewrite Hout by lia. rewrite Nat.add_0_r, Ha, lookup_insert_eq.
        simpl. unfold Py_sum. simpl. f_equal. lia.
      * replace (a + S i)%nat with (S a + i)%nat by lia.
        rewrite Hin by lia. simpl firstn. simpl map. rewrite Py_sum_cons.
        f_equal. lia.
    + intros k Hk. rewrite Hout by lia. apply lookup_insert_ne. lia.
Qed.

Lemma group_cells (d : GDomain.t) (gs : list ElGroup.t) :
  length gs = length (GMesh.conns (GDomain.mesh d)) ->
  (forall (i : nat) g, gs !! i = Some g -> group_of d i g) ->
  map (fun g => GroupShape.n_el (ElGroup.shape g)) gs
  = map Conn.n_el (GMesh.conns (GDomain.mesh d)).
Proof.
  intros Hlen Hall. apply list_eq. intros i.
  change (map (fun g => GroupShape.n_el (ElGroup.shape g)) gs)
    with ((fun g => GroupShape.n_el (ElGroup.shape g)) <$> gs).
  change (map Conn.n_el (GMesh.conns (GDomain.mesh d)))
    with (Conn.n_el <$> GMesh.conns (GDomain.mesh d)).
  rewrite !list_lookup_fmap.
  destruct (gs !! i) as [g|] eqn:Eg.
  - destruct (Hall i g Eg) as [_ [Hc [_ [_ [Hn _]]]]]. rewrite Hc. simpl.
    rewrite Hn. reflexivity.
  - apply lookup_ge_None in Eg. rewrite Hlen in Eg.
    apply lookup_ge_None in Eg. rewrite Eg. reflexivity.
Qed.

(** X19.  After [setup_groups] the cell offsets of the groups are the
    running totals of the cell counts of the connectivity arrays of the
    mesh: the offset of the group [ii] is the number of cells of the groups
    before it, there is an offset for the groups [0 .. n_gr - 1] and for
    nothing else, and the cell count of the domain is the total. *)
Theorem cell_offsets_are_running_totals (d d' : GDomain.t) :
  setup_groups d = (Ok tt, d') ->
  DomainShape.n_el (GDomain.shape d')
  = cells_before (GMesh.conns (GDomain.mesh d))
      (length (GMesh.conns (GDomain.mesh d)))
  /\ exists offs,
       get_cell_offsets d' = Ok offs
       /\ (forall ii : nat,
             (ii < length (GMesh.conns (GDomain.mesh d)))%nat ->
             offs !! Z.of_nat ii
             = Some (cells_before (GMesh.conns (GDomain.mesh d)) ii))
       /\ (forall k : Z,
             ~ (0 <= k < Z.of_nat (length (GMesh.conns (GDomain.mesh d)))) ->
             offs !! k = None).
Proof.
  intros H.
  destruct (iter_groups_after_setup _ _ H)
    as [_ [_ [_ [Hnel [_ [gs [Hgs [Hlen Hall]]]]]]]].
  split.
  - rewrite Hnel. unfold cells_before. rewrite firstn_all. reflexivity.
  - unfold get_cell_offsets. rewrite Hgs. eexists. split; [reflexivity|].
    destruct (cell_offsets_loop_spec gs 0 0 ∅) as [Hin Hout].
    { intros i g Hg. destruct (Hall i g Hg) as [_ [Hig _]]. exact Hig. }
    split.
    + intros ii Hii. rewrite <- Hlen in Hii.
      specialize (Hin ii Hii). simpl in Hin. rewrite Hin.
      unfold cells_before. rewrite <- firstn_map.
      rewrite (group_cells d gs Hlen (fun i g Hg => proj2 (Hall i g Hg))).
      rewrite firstn_map. first [reflexivity|f_equal; lia].
    + intros k Hk. rewrite Hout; [reflexivity|]. rewrite Hlen. simpl. lia.
Qed.

Lemma cell_offsets_are_running_totals_witness :
  DomainShape.n_el
    (GDomain.shape
       (snd (setup_groups
               (GDomain.mk
                  (GMesh.mk (4, 2)
                     [Conn.mk [[0; 1; 2]; [1; 2; 3]] 3; Conn.mk [[0; 3]] 2]
                     ["2_3"; "1_2"] [2; 1])
                  (<["2_3" := Gel.mk "2_3" 2 3 0]>
                     (<["1_2" := Gel.mk "1_2" 1 1 0]> ∅))
                  (DomainShape.mk 0 0 0 0) ∅))))
  = cells_before [Conn.mk [[0; 1; 2]; [1; 2; 3]] 3; Conn.mk [[0; 3]] 2] 2
  /\ exists offs,
       get_cell_offsets
         (snd (setup_groups
                 (GDomain.mk
                    (GMesh.mk (4, 2)
                       [Conn.mk [[0; 1; 2]; [1; 2; 3]] 3; Conn.mk [[0; 3]] 2]
                       ["2_3"; "1_2"] [2; 1])
                    (<["2_3" := Gel.mk "2_3" 2 3 0]>
                       (<["1_2" := Gel.mk "1_2" 1 1 0]> ∅))
                    (DomainShape.mk 0 0 0 0) ∅))) = Ok offs
       /\ (forall ii : nat,
             (ii < 2)%nat ->
             offs !! Z.of_nat ii
             = Some (cells_before
                       [Conn.mk [[0; 1; 2]; [1; 2; 3]] 3; Conn.mk [[0; 3]] 2]
                       ii))
       /\ (forall k : Z, ~ (0 <= k < Z.of_nat 2) -> offs !! k = None).
Proof.
  apply (cell_offsets_are_running_totals
           (GDomain.mk
              (GMesh.mk (4, 2)
                 [Conn.mk [[0; 1; 2]; [1; 2; 3]] 3; Conn.mk [[0; 3]] 2]
                 ["2_3"; "1_2"] [2; 1])
              (<["2_3" := Gel.mk "2_3" 2 3 0]>
                 (<["1_2" := Gel.mk "1_2" 1 1 0]> ∅))
              (DomainShape.mk 0 0 0 0) ∅)).
  vm_compute. reflexivity.
Defined.

Lemma Py_sum_positive (l : list Z) :
  (forall x, In x l -> 0 <= x) ->
  (0 < Py_sum l <-> exists x, In x l /\ 0 < x).
Proof.
  induction l as [|y l IH]; intros Hnn.
  - unfold Py_sum. simpl. split; [lia|intros [x [[] _]]].
  - rewrite Py_sum_cons.
    assert (Hy : 0 <= y) by (apply Hnn; left; reflexivity).
    assert (Hl : forall x, In x l -> 0 <= x)
      by (intros x Hx; apply Hnn; right; exact Hx).
    specialize (IH Hl). split.
    + intros Hpos. destruct (Z_lt_dec 0 y) as [Hlt|Hge].
      * exists y. split; [left; reflexivity|exact Hlt].
      * assert (Hs : 0 < Py_sum l) by lia.
        apply IH in Hs as [x [Hx Hx0]]. exists x. split; [right|]; assumption.
    + intros [x [[<-|Hx] Hx0]].
      * assert (0 <= Py_sum l); [|lia].
        destruct (Z_lt_dec 0 (Py_sum l)) as [?|Hn]; [lia|].
        clear -Hl Hn. induction l as [|z l IHl]; [unfold Py_sum; simpl; lia|].
        rewrite Py_sum_cons in *.
        assert (0 <= z) by (apply Hl; left; reflexivity).
        assert (0 <= Py_sum l); [|lia].
        destruct (Z_lt_dec 0 (Py_sum l)) as [?|Hn']; [lia|].
        apply IHl; [intros x Hx; apply Hl; right; exact Hx|exact Hn'].
      * assert (0 < Py_sum l) by (apply IH; exists x; auto). lia.
Qed.

(** X20.  After [setup_groups], with face counts of the geometry elements
    that are not negative, [has_faces] holds exactly when some connectivity
    array of the mesh has a geometry element of dimension 3 with at least
    one face; the number of cells of the array plays no part, so a group
    without cells counts as well. *)
Theorem has_faces_iff_solid_group (d d' : GDomain.t) :
  setup_groups d = (Ok tt, d') ->
  (forall desc gel, GDomain.geom_els d !! desc = Some gel ->
                    0 <= Gel.n_face gel) ->
  exists b,
    has_faces d' = Ok b
    /\ (b = true
        <-> exists (i : nat) gel,
              gel_of d i = Some gel
              /\ (i < length (GMesh.conns (GDomain.mesh d)))%nat
              /\ Gel.dim gel = 3 /\ 0 < Gel.n_face gel).
Proof.
  intros H Hnn.
  destruct (iter_groups_after_setup _ _ H)
    as [_ [_ [_ [_ [_ [gs [Hgs [Hlen Hall]]]]]]]].
  unfold has_faces. rewrite Hgs. eexists. split; [reflexivity|].
  rewrite Z.ltb_lt.
  assert (Hface : forall (i : nat) g, gs !! i = Some g ->
            gel_of d i = Some (ElGroup.gel g)
            /\ GroupShape.n_face (ElGroup.shape g)
               = (if Gel.dim (ElGroup.gel g) =? 3
                  then Gel.n_face (ElGroup.gel g) else 0)).
  { intros i g Hg.
    destruct (Hall i g Hg) as [_ [_ [_ [[desc [Hd Hgel]] [_ [_ [Hf _]]]]]]].
    split; [|exact Hf]. unfold gel_of. rewrite Hd. exact Hgel. }
  rewrite Py_sum_positive.
  - split.
    + intros [x [Hx Hx0]]. apply in_map_iff in Hx as [g [<- Hg]].
      apply list_elem_of_In, list_elem_of_lookup in Hg as [i Hi].
      destruct (Hface i g Hi) as [Hgel Hf]. rewrite Hf in Hx0.
      exists i, (ElGroup.gel g). split; [exact Hgel|].
      split; [rewrite <- Hlen; apply lookup_lt_is_Some; eauto|].
      destruct (Z.eqb_spec (Gel.dim (ElGroup.gel g)) 3); [auto|lia].
    + intros [i [gel [Hgel [Hi [H3 Hpos]]]]].
      rewrite <- Hlen in Hi. apply lookup_lt_is_Some in Hi as [g Hg].
      destruct (Hface i g Hg) as [Hgel' Hf].
      rewrite Hgel in Hgel'. inversion Hgel'. subst gel.
      exists (GroupShape.n_face (ElGroup.shape g)). split.
      * apply in_map_iff. exists g. split; [reflexivity|].
        apply list_elem_of_In, list_elem_of_lookup. eauto.
      * rewrite Hf. apply Z.eqb_eq in H3. rewrite H3. exact Hpos.
  - intros x Hx. apply in_map_iff in Hx as [g [<- Hg]].
    apply list_elem_of_In, list_elem_of_lookup in Hg as [i Hi].
    destruct (Hall i g Hi) as [_ [_ [_ [[desc [_ Hgel]] [_ [_ [Hf _]]]]]]].
    rewrite Hf. destruct (Gel.dim (ElGroup.gel g) =? 3); [|lia].
    apply (Hnn desc). exact Hgel.
Qed.

Lemma has_faces_iff_solid_group_witness :
  exists b,
    has_faces
      (snd (setup_groups
              (GDomain.mk
                 (GMesh.mk (4, 3) [Conn.mk [] 4] ["3_4"] [3])
                 (<["3_4" := Gel.mk "3_4" 3 6 4]> ∅)
                 (DomainShape.mk 0 0 0 0) ∅))) = Ok b
    /\ (b = true
        <-> exists (i : nat) gel,
              gel_of (GDomain.mk
                        (GMesh.mk (4, 3) [Conn.mk [] 4] ["3_4"] [3])
                        (<["3_4" := Gel.mk "3_4" 3 6 4]> ∅)
                        (DomainShape.mk 0 0 0 0) ∅) i = Some gel
              /\ (i < 1)%nat /\ Gel.dim gel = 3 /\ 0 < Gel.n_face gel).
Proof.
  apply (has_faces_iff_solid_group
           (GDomain.mk
              (GMesh.mk (4, 3) [Conn.mk [] 4] ["3_4"] [3])
              (<["3_4" := Gel.mk "3_4" 3 6 4]> ∅)
              (DomainShape.mk 0 0 0 0) ∅)).
  - vm_compute. reflexivity.
  - intros desc gel Hg. cbn [GDomain.geom_els] in Hg.
    destruct (decide (desc = "3_4")) as [->|Hne].
    + rewrite lookup_insert_eq in Hg. inversion Hg. simpl. lia.
    + rewrite lookup_insert_ne, lookup_empty in Hg by congruence.
      discriminate Hg.
Defined.

Lemma setup_groups_loop_total (n : nat) :
  forall (a : nat) (d : GDomain.t),
    (forall i : nat, (a <= i < a + n)%nat ->
       is_Some (gel_of d i)
       /\ is_Some (GMesh.conns (GDomain.mesh d) !! i)
       /\ is_Some (GMesh.dims (GDomain.mesh d) !! i)) ->
    fst (setup_groups_loop (seq a n) d) = Ok tt.
Proof.
  induction n as [|n IH]; intros a d Hall; [reflexivity|].
  simpl. destruct (Hall a) as [[gel Hgel] [[conn Hc] [dim_ Hdim]]]; [lia|].
  unfold gel_of in Hgel.
  destruct (GMesh.descs (GDomain.mesh d) !! a) as [desc|] eqn:Ed;
    [|discriminate].
  destruct (setup_group a d) as [d1|e] eqn:E1.
  - destruct (setup_group_ok _ _ _ E1) as [Hm1 [Hg1 _]].
    apply IH. intros i Hi. unfold gel_of. rewrite Hm1, Hg1.
    apply Hall. lia.
  - unfold setup_group, PyList.item, dict_item_string in E1.
    rewrite Ed, Hgel, Hc, Hdim in E1.
    destruct (Gel.dim gel =? 3); discriminate E1.
Qed.

(** X21.  [setup_groups] succeeds exactly when every connectivity array of
    the mesh has a descriptor with a geometry element of the domain and a
    dimension, that is when [mesh.descs] and [mesh.dims] are not shorter
    than [mesh.conns] and no descriptor is unknown. *)
Theorem setup_groups_succeeds_iff (d : GDomain.t) :
  fst (setup_groups d) = Ok tt
  <-> forall i : nat,
        (i < length (GMesh.conns (GDomain.mesh d)))%nat ->
        is_Some (gel_of d i)
        /\ is_Some (GMesh.dims (GDomain.mesh d) !! i).
Proof.
  split.
  - intros H i Hi.
    destruct (setup_groups d) as [o d'] eqn:E. simpl in H. subst o.
    destruct (iter_groups_after_setup _ _ E)
      as [_ [_ [_ [_ [_ [gs [_ [Hlen Hall]]]]]]]].
    rewrite <- Hlen in Hi. apply lookup_lt_is_Some in Hi as [g Hg].
    destruct (Hall i g Hg) as [_ [_ [_ [[desc [Hd Hgel]] [_ [_ [_ Hdim]]]]]]].
    split; [unfold gel_of; rewrite Hd; eauto|eauto].
  - intros Hall. unfold setup_groups.
    destruct (GMesh.coors_shape (GDomain.mesh d)) as [n_nod_ dim_].
    apply setup_groups_loop_total. intros i Hi.
    destruct (Hall i) as [Hg Hd]; [lia|].
    split; [exact Hg|]. split; [|exact Hd].
    apply lookup_lt_is_Some. simpl. lia.
Qed.

Lemma item_Z_head (l : list Z) :
  PyList.item_Z l 0
  = match l with
    | x :: _ => Ok x
    | [] => Raise (IndexError "index out of bounds")
    end.
Proof.
  destruct l as [|x l]; [reflexivity|].
  unfold PyList.item_Z.
  assert (H : (0 <? Z.of_nat (length (x :: l))) = true)
    by (apply Z.ltb_lt; simpl length; lia).
  rewrite H. reflexivity.
Qed.

Lemma group_mat_id_cons (mat_id : list Z) (rest : list (list Z)) (j : nat) :
  group_mat_id (mat_id :: rest) (S j) = group_mat_id rest j.
Proof. reflexivity. Qed.

Lemma mat_ids_loop_spec (mat_ids_ : list (list Z)) :
  forall (ig_ : Z) (m : gmap Z Z),
    (forall mat_id, In mat_id mat_ids_ -> mat_id <> []) ->
    exists t,
      mat_ids_loop ig_ mat_ids_ m = Ok t
      /\ forall k v,
           t !! k = Some v
           <-> (exists i : nat,
                   v = ig_ + Z.of_nat i
                   /\ group_mat_id mat_ids_ i = Some k
                   /\ forall j : nat, (i < j)%nat ->
                        group_mat_id mat_ids_ j <> Some k)
               \/ (m !! k = Some v
                   /\ forall j : nat, group_mat_id mat_ids_ j <> Some k).
Proof.
  induction mat_ids_ as [|mat_id rest IH]; intros ig_ m Hne.
  - exists m. split; [reflexivity|]. intros k v. split.
    + intros Hk. right. split; [exact Hk|]. intros j. destruct j; discriminate.
    + intros [[i [_ [Hi _]]]|[Hk _]]; [destruct i; discriminate|exact Hk].
  - simpl. rewrite item_Z_head.
    destruct mat_id as [|id0 more];
      [exfalso; apply (Hne []); [left|]; reflexivity|].
    destruct (IH (ig_ + 1) (<[id0 := ig_]> m)) as [t [Ht Hspec]];
      [intros x Hx; apply Hne; right; exact Hx|].
    exists t. split; [exact Ht|]. intros k v. rewrite Hspec. split.
    + intros [[i [Hv [Hi Hlast]]]|[Hk Hnone]].
      * left. exists (S i). split; [lia|]. split; [exact Hi|].
        intros [|j] Hj; [lia|]. rewrite group_mat_id_cons. apply Hlast. lia.
      * destruct (Z.eq_dec id0 k) as [->|Hd].
        -- rewrite lookup_insert_eq in Hk. inversion Hk. subst v.
           left. exists 0%nat. split; [lia|]. split; [reflexivity|].
           intros [|j] Hj; [lia|]. rewrite group_mat_id_cons. apply Hnone.
        -- rewrite lookup_insert_ne in Hk by exact Hd.
           right. split; [exact Hk|]. intros [|j].
           ++ intros Heq. inversion Heq. contradiction.
           ++ rewrite group_mat_id_cons. apply Hnone.
    + intros [[[|i] [Hv [Hi Hlast]]]|[Hk Hnone]].
      * right. simpl in Hi. inversion Hi. subst k. split.
        -- rewrite lookup_insert_eq. f_equal. lia.
        -- intros j. rewrite <- (group_mat_id_cons (id0 :: more) rest j).
           apply Hlast. lia.
      * left. exists i. split; [lia|]. split; [exact Hi|].
        intros j Hj. rewrite <- (group_mat_id_cons (id0 :: more) rest j).
        apply Hlast. lia.
      * right. split.
        -- rewrite lookup_insert_ne; [exact Hk|].
           intros ->. apply (Hnone 0%nat). reflexivity.
        -- intros j. rewrite <- (group_mat_id_cons (id0 :: more) rest j).
           apply Hnone.
Qed.

(** X22.  The table [mat_ids_to_i_gs] that [Domain.__init__] builds maps
    the material id of a group, the first entry of its array [mat_id], to
    the index of the group; when several groups have the same material id
    the last of them is the one in the table, and an id that no group has
    is not in the table. *)
Theorem material_id_of_last_group (m : Mesh) :
  (forall mat_id, In mat_id (mat_ids m) -> mat_id <> []) ->
  exists t,
    init_mat_ids_to_i_gs m = Ok t
    /\ forall k v,
         t !! k = Some v
         <-> exists i : nat,
               v = Z.of_nat i
               /\ group_mat_id (mat_ids m) i = Some k
               /\ forall j : nat, (i < j)%nat ->
                    group_mat_id (mat_ids m) j <> Some k.
Proof.
  intros Hne. unfold init_mat_ids_to_i_gs.
  destruct (mat_ids_loop_spec (mat_ids m) 0 ∅ Hne) as [t [Ht Hspec]].
  exists t. split; [exact Ht|]. intros k v. rewrite Hspec. split.
  - intros [[i [Hv H]]|[Hk _]]; [exists i; split; [lia|exact H]|].
    rewrite lookup_empty in Hk. discriminate.
  - intros [i [Hv H]]. left. exists i. split; [lia|exact H].
Qed.

Lemma material_id_of_last_group_witness :
  exists t,
    init_mat_ids_to_i_gs mesh4 = Ok t
    /\ forall k v,
         t !! k = Some v
         <-> exists i : nat,
               v = Z.of_nat i
               /\ group_mat_id (mat_ids mesh4) i = Some k
               /\ forall j : nat, (i < j)%nat ->
                    group_mat_id (mat_ids mesh4) j <> Some k.
Proof.
  apply (material_id_of_last_group mesh4).
  intros mat_id [<-|[]]. discriminate.
Defined.

(** * Surface groups and refinement *)

Lemma surface_group_of_setdefault {Surface : Type}
    (sg : gmap Z (gmap string Surface)) (ig_ ig' : Z) (n : string) :
  surface_group_of Surface (<[ig_ := default ∅ (sg !! ig_)]> sg) ig' n
  = surface_group_of Surface sg ig' n.
Proof.
  unfold surface_group_of. destruct (Z.eq_dec ig' ig_) as [->|Hne].
  - rewrite lookup_insert_eq. destruct (sg !! ig_); reflexivity.
  - rewrite lookup_insert_ne by congruence. reflexivity.
Qed.

(** Whatever the outcome, no surface group is removed or replaced. *)
Lemma create_surface_group_keeps {Surface Entities : Type}
    (get_surface_entities : Gel.t -> Entities)
    (FESurface : string -> loc -> Entities -> Conn.t -> Z -> result Surface)
    (d : GDomain.t) (region : loc) (region_name : string)
    (region_igs : list Z) :
  forall (sg : gmap Z (gmap string Surface)) (o : result unit)
         (sg' : gmap Z (gmap string Surface)),
    create_surface_group Surface Entities get_surface_entities FESurface d
      region region_name region_igs sg = (o, sg') ->
    forall ig' n s,
      surface_group_of Surface sg ig' n = Some s ->
      surface_group_of Surface sg' ig' n = Some s.
Proof.
  induction region_igs as [|ig_ rest IH]; intros sg o sg' H ig' n s Hs;
    simpl in H.
  - inversion H. subst. exact Hs.
  - rewrite <- (surface_group_of_setdefault sg ig_) in Hs.
    destruct (default ∅ (sg !! ig_) !! region_name) as [s0|] eqn:E0.
    + apply (IH _ _ _ H). exact Hs.
    + destruct (groups_item d ig_) as [group|e];
        [|inversion H; subst; exact Hs].
      destruct (FESurface _ region _ (ElGroup.conn group) ig_) as [s1|e];
        [|inversion H; subst; exact Hs].
      apply (IH _ _ _ H). unfold surface_group_of in Hs |- *.
      destruct (Z.eq_dec ig' ig_) as [->|Hne].
      * rewrite lookup_insert_eq in Hs. rewrite lookup_insert_eq.
        destruct (String.eqb_spec n region_name) as [->|Hn];
          [congruence|].
        rewrite lookup_insert_ne by congruence. exact Hs.
      * rewrite lookup_insert_ne in Hs by congruence.
        rewrite !lookup_insert_ne by congruence. exact Hs.
Qed.

Lemma create_surface_group_present {Surface Entities : Type}
    (get_surface_entities : Gel.t -> Entities)
    (FESurface : string -> loc -> Entities -> Conn.t -> Z -> result Surface)
    (d : GDomain.t) (region : loc) (region_name : string)
    (region_igs : list Z) :
  forall (sg sg' : gmap Z (gmap string Surface)),
    create_surface_group Surface Entities get_surface_entities FESurface d
      region region_name region_igs sg = (Ok tt, sg') ->
    forall ig_, In ig_ region_igs ->
      is_Some (surface_group_of Surface sg' ig_ region_name).
Proof.
  induction region_igs as [|ig0 rest IH]; intros sg sg' H ig_ Hin;
    [destruct Hin|].
  simpl in H.
  destruct (default ∅ (sg !! ig0) !! region_name) as [s0|] eqn:E0.
  - destruct Hin as [<-|Hin]; [|apply (IH _ _ H _ Hin)].
    exists s0. apply (create_surface_group_keeps _ _ _ _ _ _ _ _ _ H).
    unfold surface_group_of. rewrite lookup_insert_eq. exact E0.
  - destruct (groups_item d ig0) as [group|e]; [|discriminate].
    destruct (FESurface _ region _ (ElGroup.conn group) ig0) as [s1|e];
      [|discriminate].
    destruct Hin as [<-|Hin]; [|apply (IH _ _ H _ Hin)].
    exists s1. apply (create_surface_group_keeps _ _ _ _ _ _ _ _ _ H).
    unfold surface_group_of. rewrite !lookup_insert_eq. reflexivity.
Qed.

Lemma create_surface_group_again {Surface Entities : Type}
    (get_surface_entities : Gel.t -> Entities)
    (FESurface : string -> loc -> Entities -> Conn.t -> Z -> result Surface)
    (d : GDomain.t) (region : loc) (region_name : string)
    (region_igs : list Z) (sg : gmap Z (gmap string Surface)) :
  (forall ig_, In ig_ region_igs ->
     is_Some (surface_group_of Surface sg ig_ region_name)) ->
  create_surface_group Surface Entities get_surface_entities FESurface d
    region region_name region_igs sg = (Ok tt, sg).
Proof.
  induction region_igs as [|ig0 rest IH]; intros Hall; [reflexivity|].
  simpl. destruct (Hall ig0 (or_introl eq_refl)) as [s Hs].
  unfold surface_group_of in Hs.
  destruct (sg !! ig0) as [groups_|] eqn:E0; [|discriminate].
  simpl default. rewrite Hs, (insert_id _ _ _ E0).
  apply IH. intros ig_ Hin. apply Hall. right. exact Hin.
Qed.

(** X23.  [create_surface_group] makes a surface group once for each
    element group of a region and keys it by the name of the region: after
    a call that succeeds every element group of the region has a surface
    group under the name, no surface group that existed before is removed
    or replaced, and a further call for the same name and the same element
    groups constructs nothing and changes nothing, whatever the region and
    the domain are by then. *)
Theorem surface_groups_created_once {Surface Entities : Type}
    (get_surface_entities : Gel.t -> Entities)
    (FESurface FESurface' :
       string -> loc -> Entities -> Conn.t -> Z -> result Surface)
    (d d' : GDomain.t) (region region' : loc) (region_name : string)
    (region_igs : list Z) (sg sg' : gmap Z (gmap string Surface)) :
  create_surface_group Surface Entities get_surface_entities FESurface d
    region region_name region_igs sg = (Ok tt, sg') ->
  (forall ig_, In ig_ region_igs ->
     is_Some (surface_group_of Surface sg' ig_ region_name))
  /\ (forall ig_ n s,
        surface_group_of Surface sg ig_ n = Some s ->
        surface_group_of Surface sg' ig_ n = Some s)
  /\ create_surface_group Surface Entities get_surface_entities FESurface' d'
       region' region_name region_igs sg' = (Ok tt, sg').
Proof.
  intros H.
  pose proof (create_surface_group_present _ _ _ _ _ _ _ _ H) as Hall.
  split; [exact Hall|]. split.
  - apply (create_surface_group_keeps _ _ _ _ _ _ _ _ _ H).
  - apply create_surface_group_again. exact Hall.
Qed.

Lemma surface_groups_created_once_witness :
  (forall ig_, In ig_ [0] ->
     is_Some (surface_group_of string
                (<[0 := <["Gamma" := "surface_group_Gamma_0"]> ∅]> ∅)
                ig_ "Gamma"))
  /\ (forall ig_ n s,
        surface_group_of string (clear_surface_groups string) ig_ n = Some s ->
        surface_group_of string
          (<[0 := <["Gamma" := "surface_group_Gamma_0"]> ∅]> ∅) ig_ n
        = Some s)
  /\ create_surface_group string unit (fun _ => tt)
       (fun _ _ _ _ _ => Raise (ValueError "not called"))
       (GDomain.mk (GMesh.mk (0, 0) [] [] []) ∅ (DomainShape.mk 0 0 0 0) ∅)
       1%nat "Gamma" [0]
       (<[0 := <["Gamma" := "surface_group_Gamma_0"]> ∅]> ∅)
     = (Ok tt, <[0 := <["Gamma" := "surface_group_Gamma_0"]> ∅]> ∅).
Proof.
  apply (surface_groups_created_once (fun _ => tt)
           (fun nm _ _ _ _ => Ok nm)
           (fun _ _ _ _ _ => Raise (ValueError "not called"))
           (GDomain.mk (GMesh.mk (4, 2) [Conn.mk [[0; 1; 2]] 3] ["2_3"] [2])
              (<["2_3" := Gel.mk "2_3" 2 3 0]> ∅)
              (DomainShape.mk 1 1 4 2)
              (<[0 := ElGroup.mk 0 [0; 1; 2] (Conn.mk [[0; 1; 2]] 3)
                        (Gel.mk "2_3" 2 3 0)
                        (GroupShape.mk 3 1 3 3 3 0 0 2)]> ∅))
           (GDomain.mk (GMesh.mk (0, 0) [] [] []) ∅ (DomainShape.mk 0 0 0 0) ∅)
           0%nat 1%nat "Gamma" [0] (clear_surface_groups string)).
  vm_compute. reflexivity.
Defined.




(** * Orientation of the elements of a group *)

(** X25.  [fix_element_orientation] leaves a group of lower dimension than
    the domain alone: its connectivity array is not handed to
    [orient_elements] and nothing is written.  For a group of the dimension
    of the domain, with an [orient_elements] that keeps the number of
    flags: a group without elements stops the method with an [IndexError],
    raised when the first flag is read; a group that [orient_elements]
    accepts at once (all flags 0) is left as that call left it and nothing
    is written; and [orient_elements] is called a second time only after a
    first call that left a flag other than 0, with the connectivity array
    as the first call left it. *)
Theorem orientation_of_group
    (orient_elements : Gel.t -> Conn.t -> list Z -> list Z * Conn.t)
    (d : GDomain.t) (ii : Z) (group : ElGroup.t) (console : list string) :
  (forall gel conn flag,
      length (fst (orient_elements gel conn flag)) = length flag) ->
  (GroupShape.dim (ElGroup.shape group) < DomainShape.dim (GDomain.shape d) ->
   fix_group_orientation orient_elements d ii group console
   = Orientation.mk None (ElGroup.conn group) console)
  /\ (DomainShape.dim (GDomain.shape d) <= GroupShape.dim (ElGroup.shape group) ->
      let first := orient_elements (ElGroup.gel group) (ElGroup.conn group)
                     (minus_ones (ElGroup.conn group)) in
      (Conn.rows (ElGroup.conn group) = [] ->
       exists msg,
         fix_group_orientation orient_elements d ii group console
         = Orientation.mk (Some (Orientation.Error (IndexError msg)))
             (snd first) console)
      /\ (Conn.rows (ElGroup.conn group) <> [] ->
          all_zero (fst first) = true ->
          fix_group_orientation orient_elements d ii group console
          = Orientation.mk None (snd first) console)
      /\ (all_zero (fst first) = false ->
          Orientation.conn
            (fix_group_orientation orient_elements d ii group console)
          = snd (orient_elements (ElGroup.gel group) (snd first)
                   (minus_ones (snd first))))).
Proof.
  intros Hlen. split.
  - intros Hlow. unfold fix_group_orientation.
    apply Z.ltb_lt in Hlow. rewrite Hlow. reflexivity.
  - intros Hdim first.
    assert (Hge : (GroupShape.dim (ElGroup.shape group)
                   <? DomainShape.dim (GDomain.shape d)) = false)
      by (apply Z.ltb_ge; exact Hdim).
    pose proof (Hlen (ElGroup.gel group) (ElGroup.conn group)
                  (minus_ones (ElGroup.conn group))) as Hl1.
    fold first in Hl1.
    unfold fix_group_orientation. rewrite Hge.
    cbn [orient_tries]. fold first.
    destruct first as [flag1 conn1] eqn:E1. cbn [fst snd] in *.
    split; [|split].
    + intros Hempty.
      assert (Hf : flag1 = []).
      { unfold minus_ones in Hl1. rewrite Hempty in Hl1. simpl in Hl1.
        destruct flag1; [reflexivity|discriminate Hl1]. }
      subst flag1. cbn. eexists. reflexivity.
    + intros Hne Hz. rewrite Hz. cbn [Z.ltb Z.compare Z.eqb].
      assert (Hf : exists f0 rest, flag1 = f0 :: rest).
      { unfold minus_ones in Hl1. destruct flag1 as [|f0 rest]; [|eauto].
        destruct (Conn.rows (ElGroup.conn group)); [contradiction|].
        discriminate Hl1. }
      destruct Hf as [f0 [rest ->]].
      assert (H0 : f0 = 0).
      { unfold all_zero in Hz. simpl in Hz.
        destruct f0; [reflexivity|discriminate Hz|discriminate Hz]. }
      subst f0.
      assert (Hi : PyList.item_Z (0 :: rest) 0 = Ok 0).
      { unfold PyList.item_Z.
        assert (Hn : (0 <? Z.of_nat (length (0 :: rest))) = true)
          by (apply Z.ltb_lt; simpl length; lia).
        rewrite Hn. reflexivity. }
      rewrite Hi. reflexivity.
    + intros Hz. rewrite Hz.
      destruct (orient_elements (ElGroup.gel group) conn1 (minus_ones conn1))
        as [flag2 conn2] eqn:E2.
      cbn [snd]. destruct (all_zero flag2).
      * cbn. destruct (PyList.item_Z flag2 0) as [f0|e]; [|reflexivity].
        destruct (f0 =? -1); reflexivity.
      * cbn. destruct (PyList.item_Z flag2 0) as [f0|e]; [|reflexivity].
        destruct (f0 =? -1); cbn; [reflexivity|].
        destruct (PyList.item_Z (GMesh.descs (GDomain.mesh d)) ii);
          reflexivity.
Qed.

Lemma orientation_of_group_witness :
  exists msg,
    fix_group_orientation (fun _ conn flag => (flag, conn))
      (GDomain.mk (GMesh.mk (4, 2) [Conn.mk [] 3] ["2_3"] [2])
         (<["2_3" := Gel.mk "2_3" 2 3 0]> ∅) (DomainShape.mk 1 0 4 2) ∅)
      0
      (ElGroup.mk 0 [] (Conn.mk [] 3) (Gel.mk "2_3" 2 3 0)
         (GroupShape.mk 0 0 3 3 0 0 0 2)) []
    = Orientation.mk (Some (Orientation.Error (IndexError msg)))
        (Conn.mk [] 3) [].
Proof.
  apply (proj1 (proj2 (orientation_of_group (fun _ conn flag => (flag, conn))
                         (GDomain.mk (GMesh.mk (4, 2) [Conn.mk [] 3] ["2_3"] [2])
                            (<["2_3" := Gel.mk "2_3" 2 3 0]> ∅)
                            (DomainShape.mk 1 0 4 2) ∅)
                         0
                         (ElGroup.mk 0 [] (Conn.mk [] 3) (Gel.mk "2_3" 2 3 0)
                            (GroupShape.mk 0 0 3 3 0 0 0 2)) []
                         (fun _ _ _ => eq_refl))
                  ltac:(simpl; lia))).
  reflexivity.
Defined.

(** * A vertex predicate over the coordinates *)


